(** * MagpylibGui: sensor geometries and the discrete field source

    A shallow embedding of [magpylibutils.py].

    Numbers.  Python floats are idealised as rationals ([Q]): every
    arithmetic operation is exact, and numerical agreement is [Qeq]
    ([==]).  Statements that the specification makes "within tolerance"
    are therefore proved as exact agreement.

    Arrays.  A numpy array of shape [(n,3)] is a [list vec]; where the
    code distinguishes a single vector of shape [(3,)] from a batch the
    model carries the distinction in the type [ndarray].

    Objects.  Python objects that the code compares by identity carry an
    object identifier [oid]; their attribute values travel with them.

    External collaborators.  The rotation primitives of magpylib
    ([angleAxisRotation], [angleAxisRotationV], [RCS.rotate]) and the
    numpy trigonometric functions are black boxes: they are variables of
    the sections below, and a theorem that needs a property of one of
    them states that property as a hypothesis. *)

From Stdlib Require Import QArith Qminmax Lqa Lia Arith Bool String List.
From Stdlib Require Import Permutation Sorting.Sorted Setoid Morphisms.
Import ListNotations.

Set Implicit Arguments.
Set Warnings "-register-all".
Local Open Scope Q_scope.

(** ** Python results *)

Inductive exn : Type :=
| AssertionError (msg : string)
| ValueError (msg : string)
| ZeroDivisionError
| IndexError
| AttributeError.

Inductive result (A : Type) : Type :=
| Ok (a : A)
| Raise (e : exn).

Arguments Ok {A} a.
Arguments Raise {A} e.

Definition bind {A B : Type} (m : result A) (k : A -> result B) : result B :=
  match m with
  | Ok a => k a
  | Raise e => Raise e
  end.

Notation "x <- m ;; k" := (bind m (fun x => k))
  (at level 61, m at next level, right associativity).

(** A loop that collects one result per element and stops at the first
    exception. *)
Section MapM.
Variables A B : Type.
Variable f : A -> result B.

Fixpoint mapM (l : list A) : result (list B) :=
  match l with
  | [] => Ok []
  | a :: t => b <- f a ;; bs <- mapM t ;; Ok (b :: bs)
  end.
End MapM.

(** The warnings of [getBarray], raised through [warnings.warn];
    execution continues.  The first two are the messages "ANG and POS
    have different lengths, (0 and n), repeating ANG[0] by len(POS)" and
    "AXIS and POS have different lengths, (m and n), ...", the third is
    the [RuntimeWarning] "no magnetic source". *)
Inductive warning : Type :=
| ANG_length_warning (npos : nat)
| AXIS_length_warning (naxis npos : nat)
| no_source_warning.

(** ** Vectors *)

Definition vec : Type := (Q * Q * Q)%type.

Definition vx (v : vec) : Q := fst (fst v).
Definition vy (v : vec) : Q := snd (fst v).
Definition vz (v : vec) : Q := snd v.

Definition vzero : vec := (0, 0, 0).
Definition vadd (a b : vec) : vec := (vx a + vx b, vy a + vy b, vz a + vz b).
Definition vsub (a b : vec) : vec := (vx a - vx b, vy a - vy b, vz a - vz b).
Definition vscale (k : Q) (a : vec) : vec := (vx a * k, vy a * k, vz a * k).

(** Numerical equality of vectors. *)
Definition veq (a b : vec) : Prop := vx a == vx b /\ vy a == vy b /\ vz a == vz b.
Definition veqb (a b : vec) : bool :=
  Qeq_bool (vx a) (vx b) && Qeq_bool (vy a) (vy b) && Qeq_bool (vz a) (vz b).

(** ** The rigid coordinate system of magpylib *)

Record RCS : Type := mkRCS {
  position : vec;
  angle : Q;
  axis : vec
}.

(** The [anchor] argument of [rotate]: the string sentinel
    ['self.position'] (the default) or a point. *)
Inductive anchor_arg : Type :=
| SelfPosition
| AnchorAt (p : vec).

(** ** Sensors as Python objects *)

(** State of a [SurfaceSensor]: its own [RCS] attributes, the grid shape
    and extent, and the three arrays that [update] stores. *)
Record SurfaceSensor : Type := mkSurfaceSensor {
  ss_rcs : RCS;
  _dimension : Q * Q;
  _Nelem : nat * nat;
  _positions : list vec;
  _angles : list Q;
  _axes : list vec
}.

(** The values that can be handed to a collection.  [PointSensor] is
    magpylib's [Sensor]; [Collection] is a [SensorCollection] (or a
    subclass); [PyList] is a Python list; [Other] is any other value,
    given by its printed form. *)
Inductive pyobj : Type :=
| PointSensor (oid : nat) (rcs : RCS)
| SurfSensor (oid : nat) (ss : SurfaceSensor)
| Collection (oid : nat) (rcs : RCS) (sensors : list pyobj)
| PyList (items : list pyobj)
| Other (repr : string).

(** [isinstance(s, SensorCollection)] *)
Definition is_collection (s : pyobj) : bool :=
  match s with
  | Collection _ _ _ => true
  | _ => false
  end.

Definition object_id (s : pyobj) : option nat :=
  match s with
  | PointSensor i _ | SurfSensor i _ | Collection i _ _ => Some i
  | _ => None
  end.

(** [a is b], for the objects that have no [__eq__] of their own. *)
Definition same_object (a b : pyobj) : bool :=
  match object_id a, object_id b with
  | Some i, Some j => Nat.eqb i j
  | _, _ => false
  end.

(** The objects that have a [rotate] method: sensors, surface sensors,
    and collections of such objects. *)
Fixpoint has_rotate (s : pyobj) : bool :=
  match s with
  | PointSensor _ _ | SurfSensor _ _ => true
  | Collection _ _ children => forallb has_rotate children
  | PyList _ | Other _ => false
  end.

(** [s in sensors] *)
Definition py_in (s : pyobj) (sensors : list pyobj) : bool :=
  existsb (same_object s) sensors.

(** ** Sensor Collection *)

Record SensorCollection : Type := mkSensorCollection {
  rcs : RCS;
  sensors : list pyobj
}.

Module Collection.

(** One iteration of the loop of [addSensor], on the list [self.sensors]. *)
Fixpoint addSensor1 (sens : list pyobj) (s : pyobj) {struct s} : list pyobj :=
  match s with
  | PointSensor _ _ | SurfSensor _ _ =>
      if negb (py_in s sens) then sens ++ [s] else sens
  | Collection _ _ children => fold_left addSensor1 children sens
  | PyList _ | Other _ => sens
  end.

(** [self.addSensor( *items )]: the new value of [self.sensors]. *)
Definition addSensor (sens : list pyobj) (items : list pyobj) : list pyobj :=
  fold_left addSensor1 items sens.

(** [SensorCollection( *items, pos, angle, axis)] *)
Definition __init__ (items : list pyobj) (pos : vec) (ang : Q) (ax : vec)
  : SensorCollection :=
  mkSensorCollection (mkRCS pos ang ax) (addSensor [] items).

Definition default_pos : vec := (0, 0, 0).
Definition default_axis : vec := (0, 0, 1).

Section Str.
(** Python's [str] builtin. *)
Variable py_str : pyobj -> string.

(** [self + other] *)
Definition __add__ (self : SensorCollection) (other : pyobj)
  : result SensorCollection :=
  match other with
  | Collection _ _ sens =>
      Ok (__init__ [PyList (sensors self ++ sens)] default_pos 0 default_axis)
  | PointSensor _ _ =>
      Ok (__init__ [PyList (sensors self ++ [other])] default_pos 0 default_axis)
  | _ =>
      Raise (AssertionError
               (String.append (py_str other)
                  " item must be a SensorCollection or a sensor"))
  end.
End Str.

Section Rotate.
(** [RCS.rotate(angle, axis, anchor)] of magpylib. *)
Variable RCS_rotate : RCS -> Q -> vec -> anchor_arg -> RCS.

(** The anchor that the children are rotated about: the sentinel is
    replaced by the position of the collection after its own rotation. *)
Definition resolve_anchor (r : RCS) (anchor : anchor_arg) : anchor_arg :=
  match anchor with
  | SelfPosition => AnchorAt (position r)
  | AnchorAt _ => anchor
  end.

(** [s.rotate(angle, axis, anchor=anchor)] for a child [s].  A sensor
    runs [RCS.rotate]; a surface sensor keeps its stored sample arrays
    until its next [update]; a nested collection runs
    [SensorCollection.rotate] itself; any other value has no [rotate]. *)
Fixpoint rotate_child (ang : Q) (ax : vec) (anchor : anchor_arg) (s : pyobj)
  {struct s} : result pyobj :=
  match s with
  | PointSensor i r => Ok (PointSensor i (RCS_rotate r ang ax anchor))
  | SurfSensor i ss =>
      Ok (SurfSensor i (mkSurfaceSensor (RCS_rotate (ss_rcs ss) ang ax anchor)
                          (_dimension ss) (_Nelem ss)
                          (_positions ss) (_angles ss) (_axes ss)))
  | Collection i r children =>
      let r' := RCS_rotate r ang ax anchor in
      children' <- mapM (rotate_child ang ax (resolve_anchor r' anchor)) children ;;
      Ok (Collection i r' children')
  | PyList _ | Other _ => Raise AttributeError
  end.

(** [self.rotate(angle, axis, anchor)] *)
Definition rotate (self : SensorCollection) (ang : Q) (ax : vec)
           (anchor : anchor_arg) : result SensorCollection :=
  let r' := RCS_rotate (rcs self) ang ax anchor in
  children' <- mapM (rotate_child ang ax (resolve_anchor r' anchor)) (sensors self) ;;
  Ok (mkSensorCollection r' children').
End Rotate.

End Collection.

(** ** numpy helpers *)

Definition Qnat (n : nat) : Q := inject_Z (Z.of_nat n).

(** [np.linspace(start, stop, num)]: [num] samples, the last one set to
    [stop]. *)
Definition linspace (start stop : Q) (num : nat) : list Q :=
  match num with
  | O => []
  | S O => [0 * (stop - start) + start]
  | S m =>
      map (fun i => Qnat i * ((stop - start) / Qnat m) + start) (seq 0 m) ++ [stop]
  end.

(** One axis [start:stop:num*1j] of [np.mgrid]. *)
Definition mgrid_axis (start stop : Q) (num : nat) : list Q :=
  let step := if Nat.eqb num 1 then 1 else (stop - start) / (Qnat num - 1) in
  map (fun i => Qnat i * step + start) (seq 0 num).

(** [np.mgrid[a0:b0:n0*1j, a1:b1:n1*1j, 0:0:1j].reshape(3,-1).T] *)
Definition mgrid3 (a0 b0 : Q) (n0 : nat) (a1 b1 : Q) (n1 : nat) : list vec :=
  flat_map (fun x =>
    flat_map (fun y =>
      map (fun z => (x, y, z)) (mgrid_axis 0 0 1))
      (mgrid_axis a1 b1 n1))
    (mgrid_axis a0 b0 n0).

(** ** Surface Sensor *)

Inductive dim_arg : Type :=
| DimScalar (d : Q)
| DimPair (w h : Q).

Inductive Nelem_arg : Type :=
| NelemScalar (n : nat)
| NelemPair (n1 n2 : nat).

Module Surface.

Section Update.
(** [angleAxisRotationV(POS, ANG, AXIS, ANCHOR)] of magpylib. *)
Variable angleAxisRotationV : list vec -> list Q -> list vec -> list vec -> list vec.

Definition dim_pair (d : dim_arg) : Q * Q :=
  match d with
  | DimScalar d => (d, d)
  | DimPair w h => (w, h)
  end.

(** A scalar element count [N] is split into [(int(sqrt(N)), int(N/n1))]. *)
Definition Nelem_pair (n : Nelem_arg) : result (nat * nat) :=
  match n with
  | NelemScalar N =>
      let n1 := Nat.sqrt N in
      if Nat.eqb n1 0 then Raise ZeroDivisionError else Ok (n1, Nat.div N n1)
  | NelemPair n1 n2 => Ok (n1, n2)
  end.

Definition or_else {A : Type} (o : option A) (a : A) : A :=
  match o with
  | Some v => v
  | None => a
  end.

(** [self.update(pos, angle, axis, dim, Nelem)] *)
Definition update (self : SurfaceSensor)
           (pos : option vec) (ang : option Q) (ax : option vec)
           (dim : option dim_arg) (Nelem : option Nelem_arg)
  : result SurfaceSensor :=
  let r := mkRCS (or_else pos (position (ss_rcs self)))
                 (or_else ang (angle (ss_rcs self)))
                 (or_else ax (axis (ss_rcs self))) in
  let dim0 := match dim with
              | None => _dimension self
              | Some d => dim_pair d
              end in
  Ne <- match Nelem with
        | None => Ok (_Nelem self)
        | Some n => Nelem_pair n
        end ;;
  let dim1 := if Nat.eqb (fst Ne) 1 || Nat.eqb (snd Ne) 1 then (0, 0) else dim0 in
  let POS := mgrid3 (- fst dim1 / 2) (fst dim1 / 2) (fst Ne)
                    (- snd dim1 / 2) (snd dim1 / 2) (snd Ne) in
  let ANG := repeat (angle r) (length POS) in
  let AXIS := repeat (axis r) (length POS) in
  let ANCHOR := repeat (0, 0, 0) (length POS) in
  let posrot := angleAxisRotationV POS ANG AXIS ANCHOR in
  Ok (mkSurfaceSensor r dim1 Ne
        (map (fun p => vadd p (position r)) posrot) ANG AXIS).

(** [SurfaceSensor(Nelem, dim, pos, angle, axis)] *)
Definition __init__ (Nelem : Nelem_arg) (dim : dim_arg)
           (pos : vec) (ang : Q) (ax : vec) : result SurfaceSensor :=
  update (mkSurfaceSensor (mkRCS pos ang ax) (0, 0) (0%nat, 0%nat) [] [] [])
         None None None (Some dim) (Some Nelem).

(** [self.positions], which recomputes the grid first. *)
Definition positions (self : SurfaceSensor) : result (list vec) :=
  s <- update self None None None None None ;; Ok (_positions s).
End Update.

End Surface.

(** ** Circular Sensor Array *)

Record CircularSensorArray : Type := mkCircularSensorArray {
  collection : SensorCollection;
  start_angle : Q;
  elem_dim : dim_arg;
  Nelem : Nelem_arg;
  Rs : Q
}.

Module Circular.

Section Trig.
Variable angleAxisRotationV : list vec -> list Q -> list vec -> list vec -> list vec.
(** [np.deg2rad], [np.cos] and [np.sin]. *)
Variable np_deg2rad : Q -> Q.
Variable np_cos : Q -> Q.
Variable np_sin : Q -> Q.

(** The body of the loop of [initialize] over [zip(self.sensors, theta)]. *)
Fixpoint place (radius : Q) (dim : dim_arg) (Ne : Nelem_arg)
         (sens : list pyobj) (theta : list Q) : result (list pyobj) :=
  match sens, theta with
  | s :: sens', t :: theta' =>
      match s with
      | SurfSensor i ss =>
          ss' <- Surface.update angleAxisRotationV ss
                   (Some (radius * np_cos t, radius * np_sin t, 0))
                   (Some 0) (Some (0, 0, 1)) (Some dim) (Some Ne) ;;
          rest <- place radius dim Ne sens' theta' ;;
          Ok (SurfSensor i ss' :: rest)
      | _ => Raise AttributeError
      end
  | _, _ => Ok sens
  end.

(** [np.deg2rad(np.linspace(start, start+360, n+1))[:-1]] *)
Definition theta_of (start : Q) (n : nat) : list Q :=
  removelast (map np_deg2rad (linspace start (start + 360) (n + 1))).

(** [self.initialize(Rs, start_angle, elem_dim, Nelem)] *)
Definition initialize (self : CircularSensorArray)
           (radius : option Q) (start : option Q)
           (dim : option dim_arg) (Ne : option Nelem_arg)
  : result CircularSensorArray :=
  let radius := Surface.or_else radius (Rs self) in
  let start := Surface.or_else start (start_angle self) in
  let dim := Surface.or_else dim (elem_dim self) in
  let Ne := Surface.or_else Ne (Nelem self) in
  let sens := sensors (collection self) in
  let theta := theta_of start (length sens) in
  sens' <- place radius dim Ne sens theta ;;
  Ok (mkCircularSensorArray
        (mkSensorCollection (rcs (collection self)) sens')
        start dim Ne radius).

(** The list [S] of the constructor; the new objects get the
    identifiers [fresh], [fresh + 1], ... *)
Fixpoint new_sensors (fresh : nat) (dim : dim_arg) (Ne : Nelem_arg)
         (i : nat) (count : nat) : result (list pyobj) :=
  match count with
  | O => Ok []
  | S count' =>
      ss <- Surface.__init__ angleAxisRotationV Ne dim (Qnat i, 0, 0) 0 (0, 0, 1) ;;
      rest <- new_sensors fresh dim Ne (S i) count' ;;
      Ok (SurfSensor (fresh + i) ss :: rest)
  end.

(** [CircularSensorArray(Rs, elem_dim, Nelem, num_of_sensors, start_angle)] *)
Definition __init__ (fresh : nat) (radius : Q) (dim : dim_arg) (Ne : Nelem_arg)
           (num_of_sensors : nat) (start : Q) : result CircularSensorArray :=
  S <- new_sensors fresh dim Ne 0 num_of_sensors ;;
  let super := Collection.__init__ S Collection.default_pos 0 Collection.default_axis in
  initialize (mkCircularSensorArray super start dim Ne radius)
             (Some radius) (Some start) (Some dim) None.
End Trig.

End Circular.

(** ** Discrete Source Box *)

(** A row [x,y,z,Bx,By,Bz] of the data table. *)
Record Row : Type := mkRow {
  rx : Q; ry : Q; rz : Q;
  rBx : Q; rBy : Q; rBz : Q
}.

Definition row_pos (r : Row) : vec := (rx r, ry r, rz r).
Definition row_B (r : Row) : vec := (rBx r, rBy r, rBz r).

(** The value that [getB] returns: one vector of shape [(3,)], a batch
    of shape [(n,3)], or [np.array([])], of shape [(0,)]. *)
Inductive ndarray : Type :=
| Single (v : vec)
| Batch (rows : list vec)
| EmptyArray.

(** [scipy.interpolate.RegularGridInterpolator]: three grid axes, the
    values in C order with their shape, and the out-of-domain policy. *)
Record RegularGridInterpolator : Type := mkRGI {
  gridX : list Q;
  gridY : list Q;
  gridZ : list Q;
  values : list Q;
  bounds_error : option bool;
  fill_value : option Q
}.

Module Discrete.

(** *** Sorting and column helpers *)

(** Order of [df.sort_values(['x','y','z'])]. *)
Definition key_compare (a b : Row) : comparison :=
  match rx a ?= rx b with
  | Eq => match ry a ?= ry b with
          | Eq => rz a ?= rz b
          | c => c
          end
  | c => c
  end.

Fixpoint insert_row (r : Row) (l : list Row) : list Row :=
  match l with
  | [] => [r]
  | h :: t =>
      match key_compare r h with
      | Gt => h :: insert_row r t
      | _ => r :: l
      end
  end.

(** A stable sort of the rows by [(x,y,z)]. *)
Fixpoint sort_values (l : list Row) : list Row :=
  match l with
  | [] => []
  | r :: l' => insert_row r (sort_values l')
  end.

Fixpoint insertQ (a : Q) (l : list Q) : list Q :=
  match l with
  | [] => [a]
  | h :: t =>
      match a ?= h with
      | Gt => h :: insertQ a t
      | _ => a :: l
      end
  end.

Fixpoint sortQ (l : list Q) : list Q :=
  match l with
  | [] => []
  | a :: l' => insertQ a (sortQ l')
  end.

(** Removal of repeated neighbours. *)
Fixpoint dedup (l : list Q) : list Q :=
  match l with
  | [] => []
  | a :: t =>
      match t with
      | [] => [a]
      | b :: _ => if Qeq_bool a b then dedup t else a :: dedup t
      end
  end.

(** [np.unique(col)]: the sorted distinct values. *)
Definition np_unique (col : list Q) : list Q := dedup (sortQ col).

(** [np.min(col)] and [np.max(col)]; an empty array is an error. *)
Definition np_min (col : list Q) : result Q :=
  match col with
  | [] => Raise (ValueError "zero-size array to reduction operation minimum")
  | a :: t => Ok (fold_left Qmin t a)
  end.

Definition np_max (col : list Q) : result Q :=
  match col with
  | [] => Raise (ValueError "zero-size array to reduction operation maximum")
  | a :: t => Ok (fold_left Qmax t a)
  end.

(** *** The regular-grid interpolator *)

(** [np.searchsorted(grid, x)]: the number of nodes below [x]. *)
Fixpoint searchsorted (grid : list Q) (x : Q) : nat :=
  match grid with
  | [] => O
  | g :: t => if Qlt_le_dec g x then S (searchsorted t x) else O
  end.

(** Python indexing of a sequence of length [n]: a negative index counts
    from the end. *)
Definition py_index (n : nat) (i : Z) : nat :=
  Z.to_nat (if (i <? 0)%Z then (i + Z.of_nat n)%Z else i).

(** [grid[i]] *)
Definition py_nth (grid : list Q) (i : Z) : Q :=
  nth (py_index (length grid) i) grid 0.

(** [_find_indices] on one axis:
    [i = searchsorted(grid, x) - 1; i[i < 0] = 0;
     i[i > grid.size - 2] = grid.size - 2], and the normalised distance
    [(x - grid[i]) / (grid[i + 1] - grid[i])].  On an axis with one node
    [i] is [-1], the two ends [grid[-1]] and [grid[0]] of the cell are
    that node, and the distance is a division by zero: scipy's case for
    axes of length one takes it to be 0, which is also what the division
    of the rationals gives (older versions leave numpy's [nan] there,
    which the rationals do not have). *)
Definition find_index (grid : list Q) (x : Q) : Z * Q :=
  let i0 := (Z.of_nat (searchsorted grid x) - 1)%Z in
  let i1 := if (i0 <? 0)%Z then 0%Z else i0 in
  let top := (Z.of_nat (length grid) - 2)%Z in
  let i := if (top <? i1)%Z then top else i1 in
  (i, (x - py_nth grid i) / (py_nth grid (i + 1) - py_nth grid i)).

(** [x < grid[0]] or [x > grid[-1]] *)
Definition out_of_bounds_axis (grid : list Q) (x : Q) : bool :=
  negb (Qle_bool (nth 0 grid 0) x) || negb (Qle_bool x (last grid 0)).

Definition out_of_bounds (f : RegularGridInterpolator) (p : vec) : bool :=
  out_of_bounds_axis (gridX f) (vx p)
  || out_of_bounds_axis (gridY f) (vy p)
  || out_of_bounds_axis (gridZ f) (vz p).

(** [values[a, b, c]] *)
Definition value_at (f : RegularGridInterpolator) (e : Z * Z * Z) : Q :=
  let '(a, b, c) := e in
  nth ((py_index (length (gridX f)) a * length (gridY f)
        + py_index (length (gridY f)) b) * length (gridZ f)
       + py_index (length (gridZ f)) c) (values f) 0.

(** [product([ix, ix+1], [iy, iy+1], [iz, iz+1])] *)
Definition edges (ix iy iz : Z) : list (Z * Z * Z) :=
  flat_map (fun a =>
    flat_map (fun b =>
      map (fun c => (a, b, c)) [iz; (iz + 1)%Z])
      [iy; (iy + 1)%Z])
    [ix; (ix + 1)%Z].

(** [np.where(ei == i, 1 - yi, yi)] *)
Definition edge_weight (ei i : Z) (yi : Q) : Q :=
  if Z.eqb ei i then 1 - yi else yi.

(** [_evaluate_linear] at one point. *)
Definition evaluate_linear (f : RegularGridInterpolator)
           (ix iy iz : Z) (yx yy yz : Q) : Q :=
  fold_left
    (fun acc e =>
       let '(a, b, c) := e in
       acc + value_at f e
             * (1 * edge_weight a ix yx * edge_weight b iy yy * edge_weight c iz yz))
    (edges ix iy iz) 0.

(** The interpolator called at one point. *)
Definition interp_point (f : RegularGridInterpolator) (p : vec) : result Q :=
  let oob := out_of_bounds f p in
  let '(ix, yx) := find_index (gridX f) (vx p) in
  let '(iy, yy) := find_index (gridY f) (vy p) in
  let '(iz, yz) := find_index (gridZ f) (vz p) in
  let v := evaluate_linear f ix iy iz yx yy yz in
  match bounds_error f with
  | Some true =>
      if oob then Raise (ValueError "One of the requested xi is out of bounds")
      else Ok v
  | _ =>
      match fill_value f with
      | Some fv => Ok (if oob then fv else v)
      | None => Ok v
      end
  end.

(** *** The source *)

Record DiscreteSourceBox : Type := mkDiscreteSourceBox {
  dimension : vec;
  _center : vec;
  position : vec;
  magnetization : vec;
  angle : Q;
  axis : vec;
  interpFunc : RegularGridInterpolator * RegularGridInterpolator
               * RegularGridInterpolator;
  dataframe : list Row
}.

(** [_interpolate_data(data, bounds_error, fill_value)]; [reshape] fails
    unless the table has [nx*ny*nz] rows. *)
Definition _interpolate_data (data : list Row)
           (be : option bool) (fv : option Q)
  : result (RegularGridInterpolator * RegularGridInterpolator
            * RegularGridInterpolator) :=
  let x := map rx data in
  let y := map ry data in
  let z := map rz data in
  let nx := length (np_unique x) in
  let ny := length (np_unique y) in
  let nz := length (np_unique z) in
  xmin <- np_min x ;; xmax <- np_max x ;;
  ymin <- np_min y ;; ymax <- np_max y ;;
  zmin <- np_min z ;; zmax <- np_max z ;;
  let X := linspace xmin xmax nx in
  let Y := linspace ymin ymax ny in
  let Z := linspace zmin zmax nz in
  if Nat.eqb (length data) (nx * ny * nz) then
    Ok (mkRGI X Y Z (map rBx data) be fv,
        mkRGI X Y Z (map rBy data) be fv,
        mkRGI X Y Z (map rBz data) be fv)
  else Raise (ValueError "cannot reshape array").

(** [DiscreteSourceBox(data, bounds_error, fill_value, pos, angle, axis)],
    for a table that has been loaded already.  The downsampled copy of the
    table, which only serves the display, is left out. *)
Definition __init__ (data : list Row) (be : option bool) (fv : option Q)
           (pos : vec) (ang : Q) (ax : vec) : result DiscreteSourceBox :=
  let df := sort_values data in
  mx <- np_min (map rx df) ;; Mx <- np_max (map rx df) ;;
  my <- np_min (map ry df) ;; My <- np_max (map ry df) ;;
  mz <- np_min (map rz df) ;; Mz <- np_max (map rz df) ;;
  let center := ((1 # 2) * (Mx + mx), (1 # 2) * (My + my), (1 # 2) * (Mz + mz)) in
  f <- _interpolate_data df be fv ;;
  Ok (mkDiscreteSourceBox (Mx - mx, My - my, Mz - mz) center (vadd center pos)
        (0, 0, 0) ang ax f df).

(** [lambda x: np.array([BX_interp(x), BY_interp(x), BZ_interp(x)]).T] *)
Definition call_interpFunc (self : DiscreteSourceBox) (pos : list vec)
  : result (list vec) :=
  let '(BX, BY, BZ) := interpFunc self in
  bx <- mapM (interp_point BX) pos ;;
  by_ <- mapM (interp_point BY) pos ;;
  bz <- mapM (interp_point BZ) pos ;;
  Ok (map (fun t => (fst (fst t), snd (fst t), snd t)) (combine (combine bx by_) bz)).

Section GetB.
(** [angleAxisRotation(position, angle, axis)] of magpylib, anchored at
    the origin. *)
Variable angleAxisRotation : vec -> Q -> vec -> vec.

(** [self.getB(pos)].  The array [pos] is updated in place, so the
    model returns its new contents together with the field.  For a
    rotated source the result is [np.array] of a list of vectors, which
    is [np.array([])] when there is no query point. *)
Definition getB (self : DiscreteSourceBox) (pos : list vec)
  : list vec * result ndarray :=
  let pos' := map (fun p => vadd p (vsub (_center self) (position self))) pos in
  (pos',
   B <- call_interpFunc self pos' ;;
   if negb (Qeq_bool (angle self) 0) then
     match B with
     | [] => Ok EmptyArray
     | _ => Ok (Batch (map (fun b => angleAxisRotation b (angle self) (axis self)) B))
     end
   else
     match B with
     | [b] => Ok (Single b)
     | _ => Ok (Batch B)
     end).
End GetB.

End Discrete.

(** ** Batched field aggregation *)

(** A field source: a [DiscreteSourceBox], or an analytic source of
    magpylib, whose [getB] computes one field vector per position and
    leaves the positions as they are. *)
Inductive source : Type :=
| DiscreteSource (d : Discrete.DiscreteSourceBox)
| MagpylibSource (field : list vec -> list vec).

(** An array of positions or fields: the leading shape and the rows of
    its [reshape(-1,3)]. *)
Record posarray : Type := mkPosarray {
  lead : list nat;
  rows : list vec
}.

Inductive ANG_arg : Type :=
| ANG_scalar (a : Q)
| ANG_array (l : list Q).

Module Aggregate.

Section GetBarray.
Variable angleAxisRotation : vec -> Q -> vec -> vec.
Variable angleAxisRotationV : list vec -> list Q -> list vec -> list vec -> list vec.

(** [s.getB(POS)] *)
Definition source_getB (s : source) (POS : list vec) : list vec * result ndarray :=
  match s with
  | DiscreteSource d => Discrete.getB angleAxisRotation d POS
  | MagpylibSource field => (POS, Ok (Batch (field POS)))
  end.

(** [[s.getB(POS) for s in sources]]: every call receives the same
    array object, with whatever the earlier calls did to it. *)
Fixpoint getB_each (sources : list source) (POS : list vec)
  : list vec * result (list ndarray) :=
  match sources with
  | [] => (POS, Ok [])
  | s :: rest =>
      let '(POS1, b) := source_getB s POS in
      match b with
      | Raise e => (POS1, Raise e)
      | Ok b =>
          let '(POS2, bs) := getB_each rest POS1 in
          (POS2, bs <- bs ;; Ok (b :: bs))
      end
  end.

Definition same_shape (a b : ndarray) : bool :=
  match a, b with
  | Single _, Single _ => true
  | Batch l, Batch l' => Nat.eqb (length l) (length l')
  | EmptyArray, EmptyArray => true
  | _, _ => false
  end.

Definition ndarray_rows (a : ndarray) : list vec :=
  match a with
  | Single v => [v]
  | Batch l => l
  | EmptyArray => []
  end.

Fixpoint add_rows (a b : list vec) : list vec :=
  match a, b with
  | u :: a', v :: b' => vadd u v :: add_rows a' b'
  | _, _ => []
  end.

(** [np.array(results).sum(axis=0)]; results of different shapes do not
    stack. *)
Definition stack_sum (results : list ndarray) : result (list vec) :=
  match results with
  | [] => Ok []
  | r :: rest =>
      if forallb (same_shape r) rest
      then Ok (fold_left (fun acc b => add_rows acc (ndarray_rows b)) rest
                         (ndarray_rows r))
      else Raise (ValueError "inhomogeneous shape")
  end.

(** [getBarray( *sources, POS, ANG, AXIS)].  The rotation primitive is
    taken to return one row per row of [B], so the final
    [reshape(shape)] succeeds. *)
Definition getBarray (sources : list source) (POS : posarray)
           (ANG : ANG_arg) (AXIS : list vec)
  : list warning * result posarray :=
  if (0 <? length sources)%nat then
    let pts := rows POS in
    let n := length pts in
    let '(w1, ANG1) :=
      match ANG with
      | ANG_scalar a => ([ANG_length_warning n], repeat a n)
      | ANG_array l => ([], l)
      end in
    let '(w2, AXIS1) :=
      if negb (Nat.eqb (length AXIS) n) then
        (w1 ++ [AXIS_length_warning (length AXIS) n],
         match AXIS with
         | [] => Raise IndexError
         | a0 :: _ => Ok (repeat a0 n)
         end)
      else (w1, Ok AXIS) in
    (w2,
     AXIS2 <- AXIS1 ;;
     let ANCHOR := map (vscale 0) pts in
     bs <- snd (getB_each sources pts) ;;
     B <- stack_sum bs ;;
     let Brot := angleAxisRotationV B (map Qopp ANG1) AXIS2 ANCHOR in
     Ok (mkPosarray (lead POS) Brot))
  else
    ([no_source_warning], Ok (mkPosarray [1%nat] [(0, 0, 0)])).
End GetBarray.

End Aggregate.

(** ** Tables on a rectilinear grid, and two example sources *)

(** The complete table over the axes [xs], [ys], [zs]: one row for every
    combination of coordinates, with the field [B a b c] stored at the
    node of indices [(a, b, c)]. *)
Definition grid_row (xs ys zs : list Q) (B : nat -> nat -> nat -> vec)
           (a b c : nat) : Row :=
  mkRow (nth a xs 0) (nth b ys 0) (nth c zs 0)
        (vx (B a b c)) (vy (B a b c)) (vz (B a b c)).

Definition grid_table (xs ys zs : list Q) (B : nat -> nat -> nat -> vec) : list Row :=
  flat_map (fun a =>
    flat_map (fun b =>
      map (fun c => grid_row xs ys zs B a b c) (seq 0 (length zs)))
      (seq 0 (length ys)))
    (seq 0 (length xs)).

Definition rmap {A B : Type} (f : A -> B) (r : result A) : result B :=
  match r with
  | Ok a => Ok (f a)
  | Raise e => Raise e
  end.

(** Shape of the value returned by [getB]. *)
Definition shape (a : ndarray) : list nat :=
  match a with
  | Single _ => [3%nat]
  | Batch l => [length l; 3%nat]
  | EmptyArray => [0%nat]
  end.

(** Numerical equality of two batches, as a test. *)
Fixpoint batch_eqb (a b : list vec) : bool :=
  match a, b with
  | [], [] => true
  | u :: a', v :: b' => veqb u v && batch_eqb a' b'
  | _, _ => false
  end.

Module Examples.

(** The unit cube [{0,1}^3] with no field at all, and with the field
    [(x, 0, 0)]. *)
Definition table_zero : list Row :=
  grid_table [0; 1] [0; 1] [0; 1] (fun _ _ _ => (0, 0, 0)).

Definition table_Bx : list Row :=
  grid_table [0; 1] [0; 1] [0; 1] (fun a _ _ => (Qnat a, 0, 0)).

(** A table whose [x] coordinates [0, 1, 3] are not equally spaced; the
    field is [(1, 0, 0)] on the plane [x = 1] and zero elsewhere. *)
Definition table_uneven : list Row :=
  grid_table [0; 1; 3] [0; 1] [0; 1]
             (fun a _ _ => (if Nat.eqb a 1 then 1 else 0, 0, 0)).

Definition no_box : Discrete.DiscreteSourceBox :=
  let f := mkRGI [] [] [] [] None None in
  Discrete.mkDiscreteSourceBox vzero vzero vzero vzero 0 vzero (f, f, f) [].

(** [DiscreteSourceBox(data, pos=pos, angle=ang)], once constructed. *)
Definition box (data : list Row) (pos : vec) (ang : Q) : Discrete.DiscreteSourceBox :=
  match Discrete.__init__ data None None pos ang (0, 0, 1) with
  | Ok d => d
  | Raise _ => no_box
  end.

(** Two sources on the unit cube: [source_A] has no field and is placed
    at [pos = (1,0,0)]; [source_B] has the field [(x,0,0)] and the
    default placement.  [query] is a batch of two points. *)
Definition source_A : source := DiscreteSource (box table_zero (1, 0, 0) 0).
Definition source_B : source := DiscreteSource (box table_Bx (0, 0, 0) 0).
Definition query : posarray := mkPosarray [2%nat] [(0, 0, 0); (1, 0, 0)].
Definition query_axes : list vec := [(0, 0, 1); (0, 0, 1)].

(** A rotation primitive that leaves every vector where it is. *)
Definition no_rotation : vec -> Q -> vec -> vec := fun p _ _ => p.
Definition no_rotationV : list vec -> list Q -> list vec -> list vec -> list vec :=
  fun POS _ _ _ => POS.

End Examples.

(** * Further operations of the code *)

(** ** Removal from a collection, and the operator [-] *)

Module Removal.
Import Collection.

(** [sensors.remove(s)]: the first occurrence of the object is dropped. *)
Fixpoint list_remove (s : pyobj) (l : list pyobj) : list pyobj :=
  match l with
  | [] => []
  | h :: t => if same_object s h then t else h :: list_remove s t
  end.

(** One iteration of the loop of [removeSensor]. *)
Fixpoint removeSensor1 (sens : list pyobj) (s : pyobj) {struct s} : list pyobj :=
  match s with
  | PointSensor _ _ | SurfSensor _ _ =>
      if py_in s sens then list_remove s sens else sens
  | Collection _ _ children => fold_left removeSensor1 children sens
  | PyList _ | Other _ => sens
  end.

(** [self.removeSensor( *items )]: the new value of [self.sensors]. *)
Definition removeSensor (sens : list pyobj) (items : list pyobj) : list pyobj :=
  fold_left removeSensor1 items sens.

Section Str.
Variable py_str : pyobj -> string.

(** [self - other]: the list [sens] is handed to the constructor and to
    [removeSensor] as one argument. *)
Definition __sub__ (self : SensorCollection) (other : pyobj)
  : result SensorCollection :=
  match other with
  | Collection _ _ sens =>
      let col := __init__ [PyList (sensors self)] default_pos 0 default_axis in
      Ok (mkSensorCollection (rcs col) (removeSensor (sensors col) [PyList sens]))
  | PointSensor _ _ =>
      let col := __init__ [PyList (sensors self)] default_pos 0 default_axis in
      Ok (mkSensorCollection (rcs col) (removeSensor (sensors col) [PyList [other]]))
  | _ =>
      Raise (AssertionError
               (String.append (py_str other)
                  " item must be a SensorCollection or a sensor"))
  end.
End Str.

End Removal.

(** ** Moving a collection, and its [position] and [axis] setters *)

Module Placement.
Import Collection.

Section Move.
(** [RCS.move(displacement)] of magpylib. *)
Variable RCS_move : RCS -> vec -> RCS.

(** [s.move(displacement)] for a child [s]; a surface sensor keeps its
    stored sample arrays until its next [update]. *)
Fixpoint move_child (d : vec) (s : pyobj) {struct s} : result pyobj :=
  match s with
  | PointSensor i r => Ok (PointSensor i (RCS_move r d))
  | SurfSensor i ss =>
      Ok (SurfSensor i (mkSurfaceSensor (RCS_move (ss_rcs ss) d)
                          (_dimension ss) (_Nelem ss)
                          (_positions ss) (_angles ss) (_axes ss)))
  | Collection i r children =>
      let r' := RCS_move r d in
      children' <- mapM (move_child d) children ;;
      Ok (Collection i r' children')
  | PyList _ | Other _ => Raise AttributeError
  end.

(** [self.move(displacement)] *)
Definition move (self : SensorCollection) (d : vec) : result SensorCollection :=
  let r' := RCS_move (rcs self) d in
  children' <- mapM (move_child d) (sensors self) ;;
  Ok (mkSensorCollection r' children').

(** [self.position = value] *)
Definition set_position (self : SensorCollection) (value : vec)
  : result SensorCollection :=
  move self (vsub value (position (rcs self))).
End Move.

Section Turn.
Variable RCS_rotate : RCS -> Q -> vec -> anchor_arg -> RCS.

(** [self.angle = value] *)
Definition set_angle (self : SensorCollection) (value : Q)
  : result SensorCollection :=
  rotate RCS_rotate self (value - angle (rcs self)) (axis (rcs self))
         (AnchorAt (position (rcs self))).

(** [self.axis = value] *)
Definition set_axis (self : SensorCollection) (value : vec)
  : result SensorCollection :=
  let a := angle (rcs self) in
  self1 <- rotate RCS_rotate self (- a) (axis (rcs self))
                  (AnchorAt (position (rcs self))) ;;
  rotate RCS_rotate self1 a value (AnchorAt (position (rcs self1))).
End Turn.

End Placement.

(** ** The downsampled table *)

Module Downsample.

(** [df[k].unique()]: the distinct values in the order in which they
    first appear. *)
Definition pd_unique (col : list Q) : list Q :=
  fold_left (fun seen a => if existsb (Qeq_bool a) seen then seen else seen ++ [a])
            col [].

(** [u[::dsf]]: the entries of index [0], [dsf], [2*dsf], ... *)
Definition stride (dsf : nat) (u : list Q) : list Q :=
  map (fun j => nth (j * dsf) u 0) (seq 0 ((length u + dsf - 1) / dsf)).

(** The values of one coordinate that the downsampling selects: [u[::dsf]]
    with [dsf = int(len(u)/N)], raised to [1] when it is less.  The
    method calls it with [N >= 1] only. *)
Definition selected (col : list Q) (N : Z) : list Q :=
  let u := pd_unique col in
  let dsf := (length u / Z.to_nat N)%nat in
  let dsf := if (dsf <? 1)%nat then 1%nat else dsf in
  stride dsf u.

(** [df[k].isin(sel)] at one entry. *)
Definition isin (sel : list Q) (v : Q) : bool := existsb (Qeq_bool v) sel.

Section Sqrt.
(** [x ** 0.5] *)
Variable np_sqrt : Q -> Q.

(** A row of the result: [x, y, z, Bmag]. *)
Definition magnitude_row (r : Row) : Q * Q * Q * Q :=
  (rx r, ry r, rz r, np_sqrt (rBx r ^ 2 + rBy r ^ 2 + rBz r ^ 2)).

(** [self.get_downsampled_array(df, N)] *)
Definition get_downsampled_array (df : list Row) (N : Z) : list (Q * Q * Q * Q) :=
  let N := if (N <? 1)%Z then 1%Z else N in
  let sx := selected (map rx df) N in
  let sy := selected (map ry df) N in
  let sz := selected (map rz df) N in
  map magnitude_row
      (filter (fun r => isin sx (rx r) && isin sy (ry r) && isin sz (rz r)) df).
End Sqrt.

End Downsample.

(** ** The field seen by a surface sensor *)

Module SurfaceField.
Section Field.
Variable angleAxisRotation : vec -> Q -> vec -> vec.
Variable angleAxisRotationV : list vec -> list Q -> list vec -> list vec -> list vec.

(** [self.getBarray( *sources )]: reading [self.positions] runs [update],
    so the sensor comes back with its sample arrays recomputed; the angle
    and the axis of the sensor are passed as they are, a scalar and one
    row. *)
Definition getBarray (self : SurfaceSensor) (sources : list source)
  : result (SurfaceSensor * (list warning * result posarray)) :=
  s1 <- Surface.update angleAxisRotationV self None None None None None ;;
  let P := _positions s1 in
  Ok (s1,
      Aggregate.getBarray angleAxisRotation angleAxisRotationV sources
        (mkPosarray [length P] P)
        (ANG_scalar (angle (ss_rcs s1))) [axis (ss_rcs s1)]).
End Field.
End SurfaceField.

(** * Properties *)

(** ** Induction on nested objects *)

Section PyobjInd.
Variable P : pyobj -> Prop.
Hypothesis HPoint : forall i r, P (PointSensor i r).
Hypothesis HSurf : forall i ss, P (SurfSensor i ss).
Hypothesis HColl : forall i r l, Forall P l -> P (Collection i r l).
Hypothesis HList : forall l, Forall P l -> P (PyList l).
Hypothesis HOther : forall s, P (Other s).

Fixpoint pyobj_nested_ind (s : pyobj) : P s :=
  let all := fix all (l : list pyobj) : Forall P l :=
               match l with
               | [] => Forall_nil P
               | a :: t => Forall_cons a (pyobj_nested_ind a) (all t)
               end in
  match s with
  | PointSensor i r => HPoint i r
  | SurfSensor i ss => HSurf i ss
  | Collection i r l => HColl i r (all l)
  | PyList l => HList (all l)
  | Other s => HOther s
  end.
End PyobjInd.

(** ** Membership of a sensor collection *)

Module CollectionFacts.
Import Collection.

(** The sensors below an item, in the order in which [addSensor] meets
    them. *)
Fixpoint leaves (s : pyobj) : list pyobj :=
  match s with
  | PointSensor _ _ | SurfSensor _ _ => [s]
  | Collection _ _ children => flat_map leaves children
  | PyList _ | Other _ => []
  end.

Lemma addSensor_app sens items items' :
  addSensor sens (items ++ items') = addSensor (addSensor sens items) items'.
Proof. unfold addSensor. apply fold_left_app. Qed.

Lemma addSensor_cons sens s items :
  addSensor sens (s :: items) = addSensor (addSensor1 sens s) items.
Proof. reflexivity. Qed.

Lemma same_object_point i r : same_object (PointSensor i r) (PointSensor i r) = true.
Proof. unfold same_object. simpl. apply Nat.eqb_refl. Qed.

Lemma py_in_app s l l' : py_in s (l ++ l') = py_in s l || py_in s l'.
Proof. unfold py_in. apply existsb_app. Qed.

Lemma addSensor1_present sens i r :
  addSensor1 (addSensor1 sens (PointSensor i r)) (PointSensor i r)
  = addSensor1 sens (PointSensor i r).
Proof.
  simpl. destruct (py_in (PointSensor i r) sens) eqn:E; simpl.
  - now rewrite E.
  - rewrite py_in_app, E. unfold py_in. simpl.
    now rewrite same_object_point.
Qed.

Lemma addSensor1_leaves s : forall sens,
  addSensor1 sens s = addSensor sens (leaves s).
Proof.
  induction s using pyobj_nested_ind; intros sens; try reflexivity.
  simpl. revert sens.
  induction H as [|c l Hc _ IH]; intros sens; [reflexivity|].
  simpl. rewrite addSensor_app, <- Hc. apply IH.
Qed.

Lemma addSensor_leaves items : forall sens,
  addSensor sens items = addSensor sens (flat_map leaves items).
Proof.
  induction items as [|s items IH]; intros sens; [reflexivity|].
  simpl. rewrite addSensor_app, <- addSensor1_leaves. apply IH.
Qed.

Lemma addSensor1_collections s : forall sens,
  filter is_collection (addSensor1 sens s) = filter is_collection sens.
Proof.
  induction s using pyobj_nested_ind; intros sens; try reflexivity.
  - simpl. destruct (py_in _ sens); simpl; [reflexivity|].
    rewrite filter_app. simpl. apply app_nil_r.
  - simpl. destruct (py_in _ sens); simpl; [reflexivity|].
    rewrite filter_app. simpl. apply app_nil_r.
  - simpl. revert sens.
    induction H as [|c l Hc _ IH]; intros sens; [reflexivity|].
    simpl. rewrite IH. apply Hc.
Qed.

Lemma addSensor_collections items : forall sens,
  filter is_collection (addSensor sens items) = filter is_collection sens.
Proof.
  induction items as [|s items IH]; intros sens; [reflexivity|].
  rewrite addSensor_cons, IH. apply addSensor1_collections.
Qed.

(** What a call does to the child list: it keeps the list and appends
    sensors of [L] that were not in it, after which every sensor of [L]
    is in the list. *)
Definition grows (f : list pyobj -> list pyobj) (L : list pyobj) : Prop :=
  forall sens, exists new,
    f sens = sens ++ new
    /\ incl new L
    /\ Forall (fun x => py_in x sens = false) new
    /\ (forall x, In x L -> py_in x (sens ++ new) = true).

Lemma grows_fold (l : list pyobj) :
  Forall (fun s => grows (fun sens => addSensor1 sens s) (leaves s)) l ->
  grows (fun sens => addSensor sens l) (flat_map leaves l).
Proof.
  induction 1 as [|c l Hc _ IH]; intros sens.
  - exists []. simpl. rewrite app_nil_r.
    repeat split; [intros x [] | constructor | intros x []].
  - destruct (Hc sens) as [n1 [E1 [I1 [F1 M1]]]].
    destruct (IH (sens ++ n1)) as [n2 [E2 [I2 [F2 M2]]]].
    exists (n1 ++ n2). rewrite addSensor_cons, E1, E2, app_assoc.
    split; [reflexivity|]. split; [|split].
    + simpl. intros x Hx. apply in_or_app. apply in_app_or in Hx.
      destruct Hx as [Hx | Hx]; [left; now apply I1 | right; now apply I2].
    + apply Forall_app. split; [exact F1|].
      eapply Forall_impl; [|exact F2]. intros x Hx. cbn beta in Hx.
      rewrite py_in_app in Hx. now apply orb_false_elim in Hx.
    + simpl. intros x Hx. apply in_app_or in Hx. destruct Hx as [Hx | Hx].
      * rewrite py_in_app, (M1 x Hx). reflexivity.
      * now apply M2.
Qed.

Lemma append_new_grows (x : pyobj) (f : list pyobj -> list pyobj) :
  same_object x x = true ->
  (forall sens, f sens = if negb (py_in x sens) then sens ++ [x] else sens) ->
  grows f [x].
Proof.
  intros Hxx Hf sens. rewrite Hf.
  destruct (py_in x sens) eqn:E; cbn [negb].
  - exists []. rewrite app_nil_r.
    repeat split; [intros y [] | constructor |].
    intros y [<- | []]. exact E.
  - exists [x]. repeat split; [intros y Hy; exact Hy | now constructor |].
    intros y [<- | []]. rewrite py_in_app, E. unfold py_in. simpl.
    now rewrite Hxx.
Qed.

Lemma addSensor1_grows s : grows (fun sens => addSensor1 sens s) (leaves s).
Proof.
  induction s using pyobj_nested_ind.
  - apply append_new_grows; [apply same_object_point | reflexivity].
  - apply append_new_grows; [|reflexivity].
    unfold same_object. simpl. apply Nat.eqb_refl.
  - apply (grows_fold H).
  - intros sens. exists []. simpl. rewrite app_nil_r.
    repeat split; [intros x [] | constructor | intros x []].
  - intros sens. exists []. simpl. rewrite app_nil_r.
    repeat split; [intros x [] | constructor | intros x []].
Qed.

Lemma addSensor_grows items :
  grows (fun sens => addSensor sens items) (flat_map leaves items).
Proof. apply grows_fold. apply Forall_forall. intros s _. apply addSensor1_grows. Qed.

End CollectionFacts.

(** C6.  Adding a point sensor that has just been added, in a second call
    or as a repeated argument of one call, leaves the child list as it
    was after the first add, so its size does not change;  adding a
    collection adds, recursively, the sensors below it, and never the
    collection itself.  The sensor is a child after it was added: it is
    appended when it was not a child, and the list is left as it was when
    it was.  Adding a collection is adding its children; after any add
    every sensor below the added items is a child, and the list is the
    old list followed by sensors from below the items that were not
    children before. *)
Theorem addSensor_idempotent_and_flattening :
  forall (sens : list pyobj) (i : nat) (r : RCS),
    Collection.addSensor (Collection.addSensor sens [PointSensor i r]) [PointSensor i r]
    = Collection.addSensor sens [PointSensor i r]
    /\ Collection.addSensor sens [PointSensor i r; PointSensor i r]
       = Collection.addSensor sens [PointSensor i r]
    /\ length (Collection.addSensor (Collection.addSensor sens [PointSensor i r])
                 [PointSensor i r])
       = length (Collection.addSensor sens [PointSensor i r])
    /\ (forall items,
          Collection.addSensor sens items
          = Collection.addSensor sens (flat_map CollectionFacts.leaves items))
    /\ (forall items,
          filter is_collection (Collection.addSensor sens items)
          = filter is_collection sens)
    /\ py_in (PointSensor i r) (Collection.addSensor sens [PointSensor i r]) = true
    /\ Collection.addSensor sens [PointSensor i r]
       = (if py_in (PointSensor i r) sens then sens else sens ++ [PointSensor i r])
    /\ (forall j rc children,
          Collection.addSensor sens [Collection j rc children]
          = Collection.addSensor sens children)
    /\ (forall items s,
          In s (flat_map CollectionFacts.leaves items) ->
          py_in s (Collection.addSensor sens items) = true)
    /\ (forall items, exists new,
          Collection.addSensor sens items = sens ++ new
          /\ incl new (flat_map CollectionFacts.leaves items)
          /\ Forall (fun s => py_in s sens = false) new).
Proof.
  intros sens i r.
  assert (E : Collection.addSensor (Collection.addSensor sens [PointSensor i r])
                [PointSensor i r]
              = Collection.addSensor sens [PointSensor i r])
    by apply CollectionFacts.addSensor1_present.
  repeat split.
  - exact E.
  - exact E.
  - now rewrite E.
  - intros items. apply CollectionFacts.addSensor_leaves.
  - intros items. apply CollectionFacts.addSensor_collections.
  - destruct (CollectionFacts.addSensor_grows [PointSensor i r] sens)
      as [new [-> [_ [_ M]]]].
    apply M. now left.
  - unfold Collection.addSensor. simpl.
    now destruct (py_in (PointSensor i r) sens).
  - intros items s Hs.
    destruct (CollectionFacts.addSensor_grows items sens) as [new [-> [_ [_ M]]]].
    now apply M.
  - intros items.
    destruct (CollectionFacts.addSensor_grows items sens) as [new [-> [I [F _]]]].
    exists new. repeat split; assumption.
Qed.

(** An instance of C6: adding a collection that holds the sensor 1 and an
    inner collection with the surface sensor 2 and sensor 1 again to the
    list that holds sensor 3 gives the sensors 3, 1 and 2. *)
Lemma addSensor_idempotent_and_flattening_witness :
  let r := mkRCS (0, 0, 0) 0 (0, 0, 1) in
  let ss := mkSurfaceSensor r (1, 1) (1%nat, 1%nat) [] [] [] in
  let inner := Collection 8 r [SurfSensor 2 ss; PointSensor 1 r] in
  let outer := Collection 9 r [PointSensor 1 r; inner] in
  Collection.addSensor [PointSensor 3 r] [outer]
  = [PointSensor 3 r; PointSensor 1 r; SurfSensor 2 ss]
  /\ py_in (SurfSensor 2 ss) (Collection.addSensor [PointSensor 3 r] [outer]) = true
  /\ py_in (PointSensor 1 r)
       (Collection.addSensor [PointSensor 3 r] [PointSensor 1 r]) = true.
Proof.
  intros r ss inner outer.
  destruct (addSensor_idempotent_and_flattening [PointSensor 3 r] 1 r)
    as [_ [_ [_ [L [_ [M [_ [A [I _]]]]]]]]].
  split; [|split].
  - unfold outer. rewrite (A 9%nat r [PointSensor 1 r; inner]). reflexivity.
  - apply I. simpl. tauto.
  - exact M.
Defined.

(** C3.  [addSensor] does not reject an item that is neither a sensor nor
    a collection: the child list is returned unchanged and nothing is
    raised.  The operator [+] is the path that rejects such an item, with
    an [AssertionError] whose message starts with the printed value. *)
Theorem addSensor_skips_invalid_item :
  forall (py_str : pyobj -> string) (self : SensorCollection)
         (repr : string) (items : list pyobj),
    Collection.addSensor (sensors self) [Other repr] = sensors self
    /\ Collection.addSensor (sensors self) [PyList items] = sensors self
    /\ Collection.__add__ py_str self (Other repr)
       = Raise (AssertionError
                  (String.append (py_str (Other repr))
                     " item must be a SensorCollection or a sensor")).
Proof. intros. repeat split. Qed.

(** ** Batched field aggregation *)

Module AggregateFacts.
Import Aggregate.





End AggregateFacts.

(** C9.  With no source, [getBarray] emits the "no magnetic source"
    warning and returns the array [[[0,0,0]]], whatever positions, angles
    and axes it was given. *)
Theorem getBarray_no_source :
  forall (rot : vec -> Q -> vec -> vec)
         (rotV : list vec -> list Q -> list vec -> list vec -> list vec)
         (POS : posarray) (ANG : ANG_arg) (AXIS : list vec),
    Aggregate.getBarray rot rotV [] POS ANG AXIS
    = ([no_source_warning], Ok (mkPosarray [1%nat] [(0, 0, 0)])).
Proof. reflexivity. Qed.



(** C1 (evaluation at a failing input).  With [source_A] before
    [source_B], the field that [getBarray] hands to the final rotation is
    [[(-1,0,0), (0,0,0)]]: [source_B] has been queried at the positions
    that [source_A] translated.  Taken one at a time the two sources give
    [[(0,0,0), (0,0,0)]] and [[(0,0,0), (1,0,0)]], and the same rotation
    (angles, axes and anchors) is applied in the three calls.  The field
    of the pair is not the sum of the two fields. *)
Theorem getBarray_superposition_fails :
  forall (rot : vec -> Q -> vec -> vec)
         (rotV : list vec -> list Q -> list vec -> list vec -> list vec),
  exists S_AB S_A S_B : list vec,
    Discrete.__init__ Examples.table_zero None None (1, 0, 0) 0 (0, 0, 1)
    = Ok (Examples.box Examples.table_zero (1, 0, 0) 0)
    /\ Discrete.__init__ Examples.table_Bx None None (0, 0, 0) 0 (0, 0, 1)
       = Ok (Examples.box Examples.table_Bx (0, 0, 0) 0)
    /\ Aggregate.getBarray rot rotV [Examples.source_A; Examples.source_B]
         Examples.query (ANG_array [0; 0]) Examples.query_axes
       = ([], Ok (mkPosarray [2%nat]
                    (rotV S_AB [0; 0] Examples.query_axes [(0, 0, 0); (0, 0, 0)])))
    /\ Aggregate.getBarray rot rotV [Examples.source_A]
         Examples.query (ANG_array [0; 0]) Examples.query_axes
       = ([], Ok (mkPosarray [2%nat]
                    (rotV S_A [0; 0] Examples.query_axes [(0, 0, 0); (0, 0, 0)])))
    /\ Aggregate.getBarray rot rotV [Examples.source_B]
         Examples.query (ANG_array [0; 0]) Examples.query_axes
       = ([], Ok (mkPosarray [2%nat]
                    (rotV S_B [0; 0] Examples.query_axes [(0, 0, 0); (0, 0, 0)])))
    /\ batch_eqb S_AB [(- (1), 0, 0); (0, 0, 0)] = true
    /\ batch_eqb S_A [(0, 0, 0); (0, 0, 0)] = true
    /\ batch_eqb S_B [(0, 0, 0); (1, 0, 0)] = true
    /\ batch_eqb S_AB (Aggregate.add_rows S_A S_B) = false.
Proof.
  intros rot rotV. do 3 eexists.
  split; [vm_compute; reflexivity|].
  split; [vm_compute; reflexivity|].
  split; [lazy; reflexivity|].
  split; [lazy; reflexivity|].
  split; [lazy; reflexivity|].
  repeat split; vm_compute; reflexivity.
Qed.

(** C4 (evaluation at a failing input).  On the single point [(1,0,0)] a
    source with [angle = 90] returns a batch of shape [(1,3)], where the
    same source with [angle = 0] returns a vector of shape [(3,)];  on two
    points both return a batch of shape [(2,3)]. *)
Theorem getB_single_point_shape :
  forall rot : vec -> Q -> vec -> vec,
    Discrete.__init__ Examples.table_Bx None None (0, 0, 0) 90 (0, 0, 1)
    = Ok (Examples.box Examples.table_Bx (0, 0, 0) 90)
    /\ rmap shape (snd (Discrete.getB rot (Examples.box Examples.table_Bx (0, 0, 0) 90)
                          [(1, 0, 0)]))
       = Ok [1%nat; 3%nat]
    /\ rmap shape (snd (Discrete.getB rot (Examples.box Examples.table_Bx (0, 0, 0) 0)
                          [(1, 0, 0)]))
       = Ok [3%nat]
    /\ rmap shape (snd (Discrete.getB rot (Examples.box Examples.table_Bx (0, 0, 0) 90)
                          [(1, 0, 0); (0, 0, 0)]))
       = Ok [2%nat; 3%nat]
    /\ rmap shape (snd (Discrete.getB rot (Examples.box Examples.table_Bx (0, 0, 0) 0)
                          [(1, 0, 0); (0, 0, 0)]))
       = Ok [2%nat; 3%nat].
Proof. intros rot. repeat split; vm_compute; reflexivity. Qed.

(** ** Surface sensor *)

Definition sensor_rcs (s : pyobj) : option RCS :=
  match s with
  | PointSensor _ r => Some r
  | SurfSensor _ ss => Some (ss_rcs ss)
  | Collection _ r _ => Some r
  | PyList _ | Other _ => None
  end.

Lemma length_flat_map_const {A B : Type} (g : A -> list B) (m : nat) (l : list A) :
  (forall a, length (g a) = m) -> length (flat_map g l) = (length l * m)%nat.
Proof.
  intros Hg. induction l as [|a l IH]; [reflexivity|].
  simpl. rewrite length_app, Hg, IH. reflexivity.
Qed.

Lemma mgrid_axis_length a b n : length (mgrid_axis a b n) = n.
Proof. unfold mgrid_axis. now rewrite length_map, length_seq. Qed.

Lemma mgrid3_length a0 b0 n0 a1 b1 n1 :
  length (mgrid3 a0 b0 n0 a1 b1 n1) = (n0 * n1)%nat.
Proof.
  unfold mgrid3.
  rewrite length_flat_map_const with (m := n1).
  - now rewrite mgrid_axis_length.
  - intros x. rewrite length_flat_map_const with (m := 1%nat).
    + rewrite mgrid_axis_length. lia.
    + intros y. reflexivity.
Qed.

(** With a zero extent every node of an axis is at zero. *)
Lemma mgrid_axis_zero n : Forall (fun q => q == 0) (mgrid_axis (- 0 / 2) (0 / 2) n).
Proof.
  unfold mgrid_axis. apply Forall_map, Forall_forall. intros i Hi.
  apply in_seq in Hi.
  destruct (Nat.eqb n 1) eqn:E.
  - apply Nat.eqb_eq in E. assert (i = 0%nat) as -> by lia. reflexivity.
  - unfold Qdiv. setoid_replace (0 * / 2 - - 0 * / 2) with 0 by reflexivity.
    rewrite Qmult_0_l, Qmult_0_r. reflexivity.
Qed.

Lemma mgrid3_zero n0 n1 :
  Forall (fun p => veq p (0, 0, 0))
         (mgrid3 (- 0 / 2) (0 / 2) n0 (- 0 / 2) (0 / 2) n1).
Proof.
  unfold mgrid3. apply Forall_flat_map.
  eapply Forall_impl; [|apply mgrid_axis_zero]. intros x Hx.
  apply Forall_flat_map.
  eapply Forall_impl; [|apply mgrid_axis_zero]. intros y Hy.
  repeat constructor; simpl; [exact Hx | exact Hy].
Qed.

Lemma Forall2_repeat_r {A B : Type} (R : A -> B -> Prop) (b : B) (l : list A) :
  Forall (fun a => R a b) l -> Forall2 R l (repeat b (length l)).
Proof. induction 1; simpl; constructor; assumption. Qed.

Lemma Forall2_repeat_inv {A B : Type} (R : A -> B -> Prop) (b : B) (n : nat) (l : list A) :
  Forall2 R l (repeat b n) -> Forall (fun a => R a b) l /\ length l = n.
Proof.
  revert l. induction n as [|n IH]; intros l H; simpl in H; inversion H; subst.
  - split; [constructor | reflexivity].
  - destruct (IH _ H4) as [Hf Hl]. split; [constructor; assumption | simpl; now rewrite Hl].
Qed.

Section SurfaceDegenerate.
Variable angleAxisRotationV : list vec -> list Q -> list vec -> list vec -> list vec.

(** Points that lie on their anchors stay there, whatever the angles and
    axes (one of each per point). *)
Hypothesis rotation_fixes_anchor :
  forall POS ANG AXIS ANCHOR,
    length ANG = length POS -> length AXIS = length POS ->
    Forall2 veq POS ANCHOR ->
    Forall2 veq (angleAxisRotationV POS ANG AXIS ANCHOR) ANCHOR.

(** C7.  A surface sensor constructed with a grid shape [(n1, n2)] one of
    whose dimensions is 1 (for instance [(1,5)]) has the extent [(0,0)],
    and its [n1 * n2] sample positions all coincide with the position of
    the sensor, whatever extent was asked for and whatever the other
    dimension is. *)
Theorem surface_sensor_degenerate :
  forall (Ne : Nelem_arg) (dim : dim_arg) (pos : vec) (ang : Q) (ax : vec)
         (n1 n2 : nat),
    Surface.Nelem_pair Ne = Ok (n1, n2) ->
    n1 = 1%nat \/ n2 = 1%nat ->
    (0 < n1)%nat -> (0 < n2)%nat ->
    exists ss,
      Surface.__init__ angleAxisRotationV Ne dim pos ang ax = Ok ss
      /\ ss_rcs ss = mkRCS pos ang ax
      /\ _dimension ss = (0, 0)
      /\ _Nelem ss = (n1, n2)
      /\ length (_positions ss) = (n1 * n2)%nat
      /\ _positions ss <> []
      /\ Forall (fun p => veq p pos) (_positions ss).
Proof.
  intros Ne dim pos ang ax n1 n2 HNe Hone H1 H2.
  unfold Surface.__init__, Surface.update. rewrite HNe. simpl.
  assert (Hdeg : Nat.eqb n1 1 || Nat.eqb n2 1 = true).
  { destruct Hone as [-> | ->]; simpl; [reflexivity | apply orb_true_r]. }
  rewrite Hdeg. simpl.
  set (POS := mgrid3 (- 0 / 2) (0 / 2) n1 (- 0 / 2) (0 / 2) n2).
  assert (HPOS : Forall2 veq POS (repeat (0, 0, 0) (length POS)))
    by (apply Forall2_repeat_r, mgrid3_zero).
  apply (rotation_fixes_anchor (repeat ang (length POS)) (repeat ax (length POS)))
    in HPOS; [| apply repeat_length | apply repeat_length].
  apply Forall2_repeat_inv in HPOS. destruct HPOS as [Hrot Hlen].
  assert (HlenPOS : length POS = (n1 * n2)%nat) by apply mgrid3_length.
  eexists. split; [reflexivity|]. simpl.
  repeat split.
  - rewrite length_map, Hlen. exact HlenPOS.
  - intros Hnil. apply (f_equal (@length vec)) in Hnil.
    rewrite length_map, Hlen, HlenPOS in Hnil. simpl in Hnil. nia.
  - apply Forall_map. eapply Forall_impl; [|exact Hrot].
    intros [[px py] pz] [Hx [Hy Hz]]. destruct pos as [[ox oy] oz].
    unfold veq, vadd, vx, vy, vz in *. cbn [fst snd] in *.
    repeat split; lra.
Qed.

End SurfaceDegenerate.

(** Witness of C7: the grid shape [(1,5)]. *)
Lemma surface_sensor_degenerate_witness :
  exists ss,
    Surface.__init__ Examples.no_rotationV (NelemPair 1 5) (DimPair (1 # 5) (1 # 5))
                     (1, 2, 3) 30 (0, 0, 1) = Ok ss
    /\ ss_rcs ss = mkRCS (1, 2, 3) 30 (0, 0, 1)
    /\ _dimension ss = (0, 0)
    /\ _Nelem ss = (1%nat, 5%nat)
    /\ length (_positions ss) = (1 * 5)%nat
    /\ _positions ss <> []
    /\ Forall (fun p => veq p (1, 2, 3)) (_positions ss).
Proof.
  apply (@surface_sensor_degenerate Examples.no_rotationV
           (fun POS _ _ ANCHOR _ _ H => H)
           (NelemPair 1 5) (DimPair (1 # 5) (1 # 5)) (1, 2, 3) 30 (0, 0, 1) 1%nat 5%nat).
  - reflexivity.
  - left. reflexivity.
  - lia.
  - lia.
Defined.

(** ** Circular sensor array *)

Definition is_surface (s : pyobj) : bool :=
  match s with
  | SurfSensor _ _ => true
  | _ => false
  end.

(** Objects that are not yet in the list are appended, in order. *)
Lemma addSensor_fresh (l : list pyobj) : forall (acc : list pyobj) (ids : list nat),
  map object_id l = map Some ids ->
  NoDup ids ->
  (forall a i, In a acc -> In i ids -> object_id a <> Some i) ->
  Forall (fun s => is_surface s = true) l ->
  Collection.addSensor acc l = acc ++ l.
Proof.
  induction l as [|s l IH]; intros acc ids Hids Hnd Hacc Hsurf.
  - simpl. now rewrite app_nil_r.
  - destruct ids as [|i ids]; [discriminate|].
    simpl in Hids. injection Hids as Hs Hids.
    inversion Hnd as [|? ? Hni Hnd']; subst.
    inversion Hsurf as [|? ? Hss Hsurf']; subst.
    destruct s as [ | j ss | | | ]; try discriminate.
    simpl in Hs. injection Hs as ->.
    rewrite CollectionFacts.addSensor_cons. simpl Collection.addSensor1.
    assert (Hin : py_in (SurfSensor i ss) acc = false).
    { unfold py_in. apply not_true_is_false. intros Hex.
      apply existsb_exists in Hex. destruct Hex as [a [Ha Hsame]].
      unfold same_object in Hsame. simpl in Hsame.
      destruct (object_id a) as [k|] eqn:Ek; [|discriminate].
      apply Nat.eqb_eq in Hsame. subst k.
      apply (Hacc a i Ha (or_introl eq_refl) Ek). }
    rewrite Hin. simpl.
    rewrite (IH (acc ++ [SurfSensor i ss]) ids Hids Hnd'); [|  | exact Hsurf'].
    + now rewrite <- app_assoc.
    + intros a k Ha Hk. apply in_app_or in Ha. destruct Ha as [Ha | [<- | []]].
      * apply Hacc; [exact Ha | now right].
      * simpl. intros E. injection E as ->. contradiction.
Qed.

(** The angles of [initialize], in degrees:
    [np.linspace(start, start+360, n+1)[:-1]]. *)
Definition degrees (start : Q) (n : nat) : list Q :=
  removelast (linspace start (start + 360) (n + 1)).

Lemma removelast_map {A B : Type} (f : A -> B) (l : list A) :
  removelast (map f l) = map f (removelast l).
Proof.
  induction l as [|a [|b t] IH]; try reflexivity.
  change (removelast (map f (a :: b :: t))) with (f a :: removelast (map f (b :: t))).
  now rewrite IH.
Qed.

Lemma degrees_eq (start : Q) (n : nat) :
  degrees start n
  = map (fun i => Qnat i * ((start + 360 - start) / Qnat n) + start) (seq 0 n).
Proof.
  unfold degrees. destruct n as [|n]; [reflexivity|].
  rewrite Nat.add_1_r.
  change (linspace start (start + 360) (S (S n)))
    with (map (fun i => Qnat i * ((start + 360 - start) / Qnat (S n)) + start)
              (seq 0 (S n)) ++ [start + 360]).
  apply removelast_last.
Qed.

Lemma degrees_length (start : Q) (n : nat) : length (degrees start n) = n.
Proof. rewrite degrees_eq. now rewrite length_map, length_seq. Qed.

Lemma degrees_spacing (start : Q) (n : nat) :
  Forall2 Qeq (degrees start n)
          (map (fun k => start + Qnat k * (360 / Qnat n)) (seq 0 n)).
Proof.
  rewrite degrees_eq. generalize (seq 0 n) as l.
  induction l as [|i l IH]; simpl; constructor; [|exact IH].
  unfold Qdiv. ring.
Qed.

Section CircularPlacement.
Variable angleAxisRotationV : list vec -> list Q -> list vec -> list vec -> list vec.
Variable np_deg2rad : Q -> Q.
Variable np_cos : Q -> Q.
Variable np_sin : Q -> Q.

(** The state of a child placed at the angle of [d] degrees. *)
Definition placed (radius : Q) (d : Q) : option RCS :=
  Some (mkRCS (radius * np_cos (np_deg2rad d), radius * np_sin (np_deg2rad d), 0)
              0 (0, 0, 1)).

Lemma new_sensors_ok fresh dim n1 n2 : forall count i,
  exists l,
    Circular.new_sensors angleAxisRotationV fresh dim (NelemPair n1 n2) i count = Ok l
    /\ map object_id l = map Some (map (fun j => (fresh + j)%nat) (seq i count))
    /\ Forall (fun s => is_surface s = true) l.
Proof.
  induction count as [|count IH]; intros i.
  - exists []. repeat split. constructor.
  - destruct (IH (S i)) as [l [Hl [Hid Hs]]].
    simpl. rewrite Hl. simpl. eexists. split; [reflexivity|].
    split; [simpl; now rewrite Hid | constructor; [reflexivity | exact Hs]].
Qed.

Lemma place_ok radius dim n1 n2 : forall sens theta,
  Forall (fun s => is_surface s = true) sens ->
  length theta = length sens ->
  exists sens',
    Circular.place angleAxisRotationV np_cos np_sin radius dim (NelemPair n1 n2)
                   sens theta = Ok sens'
    /\ map sensor_rcs sens'
       = map (fun t => Some (mkRCS (radius * np_cos t, radius * np_sin t, 0)
                                   0 (0, 0, 1))) theta.
Proof.
  induction sens as [|s sens IH]; intros theta Hs Hlen.
  - destruct theta; [|discriminate]. exists []. split; reflexivity.
  - destruct theta as [|t theta]; [discriminate|].
    inversion Hs as [|? ? Hsurf Hs']; subst.
    destruct s as [ | j ss | | | ]; try discriminate.
    destruct (IH theta Hs') as [sens' [Hp Hr]]; [simpl in Hlen; lia|].
    simpl. rewrite Hp. simpl. eexists. split; [reflexivity|].
    simpl. now rewrite Hr.
Qed.

(** C8.  The constructor places child [k] of the array at
    [(Rs cos t, Rs sin t, 0)] for [t] the radian measure of the [k]-th
    angle of [degrees start n], with angle 0 and axis [(0,0,1)], around
    the array centre [(0,0,0)];  these [n] angles are
    [start + k * 360/n] for [k < n];  for [n = 4], [Rs = 2] and
    [start = 0] they are 0, 90, 180 and 270 degrees. *)
Theorem circular_array_placement :
  forall (fresh : nat) (radius : Q) (dim : dim_arg) (n1 n2 n : nat) (start : Q),
    (exists csa,
        Circular.__init__ angleAxisRotationV np_deg2rad np_cos np_sin
                          fresh radius dim (NelemPair n1 n2) n start = Ok csa
        /\ rcs (collection csa) = mkRCS (0, 0, 0) 0 (0, 0, 1)
        /\ map sensor_rcs (sensors (collection csa))
           = map (placed radius) (degrees start n))
    /\ length (degrees start n) = n
    /\ Forall2 Qeq (degrees start n)
               (map (fun k => start + Qnat k * (360 / Qnat n)) (seq 0 n))
    /\ (exists csa d0 d1 d2 d3,
           Circular.__init__ angleAxisRotationV np_deg2rad np_cos np_sin
                             fresh 2 dim (NelemPair n1 n2) 4 0 = Ok csa
           /\ d0 == 0 /\ d1 == 90 /\ d2 == 180 /\ d3 == 270
           /\ map sensor_rcs (sensors (collection csa))
              = [placed 2 d0; placed 2 d1; placed 2 d2; placed 2 d3]).
Proof.
  intros fresh radius dim n1 n2 n start.
  assert (General : forall radius n start,
    exists csa,
      Circular.__init__ angleAxisRotationV np_deg2rad np_cos np_sin
                        fresh radius dim (NelemPair n1 n2) n start = Ok csa
      /\ rcs (collection csa) = mkRCS (0, 0, 0) 0 (0, 0, 1)
      /\ map sensor_rcs (sensors (collection csa))
         = map (placed radius) (degrees start n)).
  { clear radius n start. intros radius n start.
    unfold Circular.__init__.
    destruct (new_sensors_ok fresh dim n1 n2 n 0) as [S [HS [Hid Hsurf]]].
    rewrite HS. simpl bind.
    unfold Circular.initialize, Collection.__init__. simpl.
    assert (Hadd : Collection.addSensor [] S = S).
    { rewrite (@addSensor_fresh S [] _ Hid); [reflexivity | | | exact Hsurf].
      - apply Finite.Injective_map_NoDup; [|apply seq_NoDup].
        intros a b Hab. lia.
      - intros a i []. }
    rewrite Hadd.
    assert (HlenS : length S = n).
    { apply (f_equal (@length _)) in Hid.
      now rewrite !length_map, length_seq in Hid. }
    unfold Circular.theta_of. rewrite removelast_map. fold (degrees start (length S)).
    destruct (@place_ok radius dim n1 n2 S
                (map np_deg2rad (degrees start (length S))))
      as [sens' [Hp Hr]]; [exact Hsurf | |].
    { now rewrite length_map, degrees_length. }
    rewrite Hp. simpl. eexists. split; [reflexivity|]. simpl.
    split; [reflexivity|].
    rewrite Hr, HlenS, map_map. reflexivity. }
  split; [apply General|].
  split; [apply degrees_length|].
  split; [apply degrees_spacing|].
  destruct (General 2 4%nat 0) as [csa [Hc [_ Hr]]].
  exists csa. rewrite Hr. rewrite degrees_eq. simpl map.
  do 4 eexists. split; [exact Hc|].
  split; [|split; [|split; [|split; [|reflexivity]]]]; vm_compute; reflexivity.
Qed.

End CircularPlacement.

(** ** Rotation of a collection and back *)

Section RotateBack.
Variable RCS_rotate : RCS -> Q -> vec -> anchor_arg -> RCS.

(** Agreement of two coordinate systems within the tolerance of the
    rotation primitive. *)
Variable close : RCS -> RCS -> Prop.

(** The contract of [RCS.rotate]: rotating back about the same point
    undoes a rotation; the sentinel stands for the current position; and
    a rotation about the current position does not move it. *)
Hypothesis rotate_back :
  forall r theta ax a,
    close (RCS_rotate (RCS_rotate r theta ax (AnchorAt a)) (- theta) ax (AnchorAt a)) r.
Hypothesis rotate_sentinel :
  forall r theta ax,
    RCS_rotate r theta ax SelfPosition = RCS_rotate r theta ax (AnchorAt (position r)).
Hypothesis rotate_pivot :
  forall r theta ax,
    position (RCS_rotate r theta ax (AnchorAt (position r))) = position r.

(** Two objects agree when they are the same object with coordinate
    systems that agree, and, for collections, children that agree. *)
Inductive close_obj : pyobj -> pyobj -> Prop :=
| close_point i r r' :
    close r r' -> close_obj (PointSensor i r) (PointSensor i r')
| close_surf i ss ss' :
    close (ss_rcs ss) (ss_rcs ss') ->
    _dimension ss = _dimension ss' -> _Nelem ss = _Nelem ss' ->
    close_obj (SurfSensor i ss) (SurfSensor i ss')
| close_coll i r r' l l' :
    close r r' -> Forall2 close_obj l l' ->
    close_obj (Collection i r l) (Collection i r' l').

(** What "there and back" means for one object, under two loops bodies
    [f] and [g]. *)
Definition comes_back (f g : pyobj -> result pyobj) (s : pyobj) : Prop :=
  has_rotate s = true ->
  exists s1 s2, f s = Ok s1 /\ g s1 = Ok s2 /\ close_obj s2 s.

Lemma mapM_back (f g : pyobj -> result pyobj) (l : list pyobj) :
  Forall (comes_back f g) l ->
  forallb has_rotate l = true ->
  exists l1 l2, mapM f l = Ok l1 /\ mapM g l1 = Ok l2 /\ Forall2 close_obj l2 l.
Proof.
  induction 1 as [|s l Hs _ IH]; intros Hb.
  - exists [], []. repeat split. constructor.
  - simpl in Hb. apply andb_prop in Hb. destruct Hb as [Hb1 Hb2].
    destruct (Hs Hb1) as [s1 [s2 [E1 [E2 Hc]]]].
    destruct (IH Hb2) as [l1 [l2 [F1 [F2 HF]]]].
    exists (s1 :: l1), (s2 :: l2). simpl.
    rewrite E1, F1. simpl. rewrite E2, F2. simpl.
    repeat split. constructor; assumption.
Qed.

Lemma rotate_child_back theta ax a (s : pyobj) :
  comes_back (Collection.rotate_child RCS_rotate theta ax (AnchorAt a))
             (Collection.rotate_child RCS_rotate (- theta) ax (AnchorAt a)) s.
Proof.
  induction s using pyobj_nested_ind; intros Hr; simpl in Hr; try discriminate.
  - do 2 eexists. repeat split. constructor. apply rotate_back.
  - do 2 eexists. repeat split. constructor; [apply rotate_back | reflexivity..].
  - destruct (mapM_back H Hr) as [l1 [l2 [F1 [F2 HF]]]].
    exists (Collection i (RCS_rotate r theta ax (AnchorAt a)) l1).
    eexists. simpl. rewrite F1. simpl. rewrite F2. simpl.
    repeat split. constructor; [apply rotate_back | exact HF].
Qed.

Lemma rotate_children_back theta ax a (l : list pyobj) :
  forallb has_rotate l = true ->
  exists l1 l2,
    mapM (Collection.rotate_child RCS_rotate theta ax (AnchorAt a)) l = Ok l1
    /\ mapM (Collection.rotate_child RCS_rotate (- theta) ax (AnchorAt a)) l1 = Ok l2
    /\ Forall2 close_obj l2 l.
Proof.
  apply mapM_back. apply Forall_forall. intros s _. apply rotate_child_back.
Qed.

(** C5.  On a collection whose descendants all have a [rotate] method,
    [rotate(theta, axis)] followed by [rotate(-theta, axis)] with the
    same anchor argument succeeds and brings the coordinate system of the
    collection and of every descendant back to where it was, within the
    tolerance of the rotation primitive. *)
Theorem rotate_then_rotate_back :
  forall (self : SensorCollection) (theta : Q) (ax : vec) (anchor : anchor_arg),
    forallb has_rotate (sensors self) = true ->
    exists self1 self2,
      Collection.rotate RCS_rotate self theta ax anchor = Ok self1
      /\ Collection.rotate RCS_rotate self1 (- theta) ax anchor = Ok self2
      /\ close (rcs self2) (rcs self)
      /\ Forall2 close_obj (sensors self2) (sensors self).
Proof.
  intros [r l] theta ax [|a] Hl; unfold Collection.rotate; cbn [rcs sensors].
  - rewrite (rotate_sentinel r).
    set (r1 := RCS_rotate r theta ax (AnchorAt (position r))).
    assert (H1 : position r1 = position r) by apply rotate_pivot.
    cbn [Collection.resolve_anchor]. rewrite H1.
    destruct (rotate_children_back theta ax (position r) l Hl)
      as [l1 [l2 [F1 [F2 HF]]]].
    rewrite F1. cbn [bind].
    exists (mkSensorCollection r1 l1). eexists.
    split; [reflexivity|]. cbn [rcs sensors].
    rewrite (rotate_sentinel r1).
    assert (H2 : position (RCS_rotate r1 (- theta) ax (AnchorAt (position r1)))
                 = position r) by (rewrite rotate_pivot; exact H1).
    rewrite H2, H1, F2. cbn [bind].
    split; [reflexivity|]. cbn [rcs sensors].
    split; [apply rotate_back | exact HF].
  - cbn [Collection.resolve_anchor].
    destruct (rotate_children_back theta ax a l Hl) as [l1 [l2 [F1 [F2 HF]]]].
    rewrite F1. cbn [bind].
    exists (mkSensorCollection (RCS_rotate r theta ax (AnchorAt a)) l1). eexists.
    split; [reflexivity|]. cbn [rcs sensors]. rewrite F2. cbn [bind].
    split; [reflexivity|]. cbn [rcs sensors].
    split; [apply rotate_back | exact HF].
Qed.

End RotateBack.

(** Witness of C5: a primitive that turns a coordinate system in place,
    and agreement of positions, angles and axes as numbers. *)
Lemma rotate_then_rotate_back_witness :
  let turn := fun (r : RCS) (theta : Q) (_ : vec) (_ : anchor_arg) =>
                mkRCS (position r) (angle r + theta) (axis r) in
  let agree := fun r r' : RCS =>
                 veq (position r) (position r') /\ angle r == angle r'
                 /\ veq (axis r) (axis r') in
  let self := mkSensorCollection (mkRCS (0, 0, 0) 0 (0, 0, 1))
                [PointSensor 1 (mkRCS (1, 0, 0) 0 (0, 0, 1));
                 PointSensor 2 (mkRCS (0, 1, 0) 30 (0, 0, 1))] in
  exists self1 self2,
    Collection.rotate turn self 90 (0, 0, 1) SelfPosition = Ok self1
    /\ Collection.rotate turn self1 (- (90)) (0, 0, 1) SelfPosition = Ok self2
    /\ agree (rcs self2) (rcs self)
    /\ Forall2 (close_obj agree) (sensors self2) (sensors self).
Proof.
  intros turn agree self.
  apply (@rotate_then_rotate_back turn agree).
  - intros r theta ax a. unfold agree, turn, veq. simpl.
    repeat split; try reflexivity. ring.
  - reflexivity.
  - reflexivity.
  - reflexivity.
Defined.

(** ** The discrete source on a complete grid *)

Module DiscreteFacts.
Import Discrete.

(** *** The order of [sort_values] *)

Ltac compare_spec H :=
  match type of H with
  | (_ ?= _) = Eq => apply Qeq_alt in H
  | (_ ?= _) = Lt => apply Qlt_alt in H
  | (_ ?= _) = Gt => apply Qgt_alt in H
  end.

Definition key_lt (a b : Row) : Prop := key_compare a b = Lt.
Definition key_le (a b : Row) : Prop := key_compare a b <> Gt.

Lemma key_lt_iff a b :
  key_lt a b <->
  rx a < rx b \/ (rx a == rx b /\ (ry a < ry b \/ (ry a == ry b /\ rz a < rz b))).
Proof.
  unfold key_lt, key_compare.
  destruct (rx a ?= rx b) eqn:Ex; destruct (ry a ?= ry b) eqn:Ey;
    destruct (rz a ?= rz b) eqn:Ez;
    compare_spec Ex; compare_spec Ey; compare_spec Ez;
    split; intros H; try discriminate; try reflexivity;
    try (exfalso; lra); try lra.
Qed.

Lemma key_le_iff a b :
  key_le a b <->
  rx a < rx b \/ (rx a == rx b /\ (ry a < ry b \/ (ry a == ry b /\ rz a <= rz b))).
Proof.
  unfold key_le, key_compare.
  destruct (rx a ?= rx b) eqn:Ex; destruct (ry a ?= ry b) eqn:Ey;
    destruct (rz a ?= rz b) eqn:Ez;
    compare_spec Ex; compare_spec Ey; compare_spec Ez;
    split; intros H; try discriminate; try congruence;
    try (exfalso; lra); try lra.
Qed.

Lemma key_le_trans : Transitive key_le.
Proof.
  intros a b c Hab Hbc. apply key_le_iff in Hab, Hbc. apply key_le_iff. lra.
Qed.

Lemma key_le_total a b : key_compare a b = Gt -> key_le b a.
Proof.
  intros H. apply key_le_iff.
  assert (Hn : ~ key_le a b) by (unfold key_le; intros Hc; apply Hc; exact H).
  rewrite key_le_iff in Hn. lra.
Qed.

Lemma key_lt_not_ge a b : key_lt a b -> key_le b a -> False.
Proof. rewrite key_lt_iff, key_le_iff. lra. Qed.

Lemma insert_row_perm r l : Permutation (insert_row r l) (r :: l).
Proof.
  induction l as [|h t IH]; simpl; [reflexivity|].
  destruct (key_compare r h); try reflexivity.
  rewrite IH. apply perm_swap.
Qed.

Lemma sort_values_perm l : Permutation (sort_values l) l.
Proof.
  induction l as [|r l IH]; simpl; [reflexivity|].
  rewrite insert_row_perm. now constructor.
Qed.

Lemma insert_row_sorted r l : Sorted key_le l -> Sorted key_le (insert_row r l).
Proof.
  induction l as [|h t IH]; intros Hs; simpl.
  - repeat constructor.
  - destruct (key_compare r h) eqn:E.
    + constructor; [exact Hs|]. constructor. unfold key_le. now rewrite E.
    + constructor; [exact Hs|]. constructor. unfold key_le. now rewrite E.
    + inversion Hs as [|? ? Ht Hh]; subst.
      constructor; [apply IH; exact Ht|].
      destruct t as [|h' t']; simpl.
      * constructor. now apply key_le_total.
      * destruct (key_compare r h') eqn:E'; constructor;
          solve [now apply key_le_total | inversion Hh; assumption].
Qed.

Lemma sort_values_sorted l : StronglySorted key_le (sort_values l).
Proof.
  apply Sorted_StronglySorted; [exact key_le_trans|].
  induction l as [|r l IH]; simpl; [constructor | now apply insert_row_sorted].
Qed.

(** A sorted permutation of a strictly sorted list is that list. *)
Lemma sorted_perm_unique (T : list Row) : forall l,
  StronglySorted key_lt T -> StronglySorted key_le l -> Permutation l T -> l = T.
Proof.
  induction T as [|t T IH]; intros l HT Hl Hp.
  - now apply Permutation_nil, Permutation_sym.
  - destruct l as [|h l]; [apply Permutation_nil in Hp; discriminate|].
    inversion HT as [|? ? HT' Ht]; subst.
    inversion Hl as [|? ? Hl' Hh]; subst.
    assert (E : h = t).
    { assert (Hin : In h (t :: T)) by (eapply Permutation_in; [exact Hp | now left]).
      destruct Hin as [-> | Hin]; [reflexivity|].
      assert (Hin' : In t (h :: l))
        by (eapply Permutation_in; [apply Permutation_sym; exact Hp | now left]).
      destruct Hin' as [-> | Hin']; [reflexivity|].
      exfalso. rewrite Forall_forall in Ht, Hh.
      exact (key_lt_not_ge (Ht h Hin) (Hh t Hin')). }
    subst h. f_equal. apply IH; [exact HT' | exact Hl' |].
    eapply Permutation_cons_inv. exact Hp.
Qed.

Lemma sort_values_grid (T data : list Row) :
  StronglySorted key_lt T -> Permutation data T -> sort_values data = T.
Proof.
  intros HT Hp. apply sorted_perm_unique; [exact HT | apply sort_values_sorted |].
  rewrite sort_values_perm. exact Hp.
Qed.

(** *** Columns: distinct values, minimum and maximum *)

Lemma insertQ_perm a l : Permutation (insertQ a l) (a :: l).
Proof.
  induction l as [|h t IH]; simpl; [reflexivity|].
  destruct (a ?= h); try reflexivity.
  rewrite IH. apply perm_swap.
Qed.

Lemma sortQ_perm l : Permutation (sortQ l) l.
Proof.
  induction l as [|a l IH]; simpl; [reflexivity|].
  rewrite insertQ_perm. now constructor.
Qed.

Lemma insertQ_sorted a l : Sorted Qle l -> Sorted Qle (insertQ a l).
Proof.
  induction l as [|h t IH]; intros Hs; simpl.
  - repeat constructor.
  - destruct (a ?= h) eqn:E; compare_spec E.
    + constructor; [exact Hs|]. constructor. lra.
    + constructor; [exact Hs|]. constructor. lra.
    + inversion Hs as [|? ? Ht Hh]; subst.
      constructor; [apply IH; exact Ht|].
      destruct t as [|h' t']; simpl.
      * constructor. lra.
      * destruct (a ?= h') eqn:E'; constructor;
          solve [lra | inversion Hh; assumption].
Qed.

Lemma sortQ_sorted l : StronglySorted Qle (sortQ l).
Proof.
  apply Sorted_StronglySorted; [exact Qle_trans|].
  induction l as [|a l IH]; simpl; [constructor | now apply insertQ_sorted].
Qed.

Lemma dedup_cons2 a b t :
  dedup (a :: b :: t) = if Qeq_bool a b then dedup (b :: t) else a :: dedup (b :: t).
Proof. reflexivity. Qed.

Lemma dedup_spec l :
  StronglySorted Qle l ->
  StronglySorted Qlt (dedup l)
  /\ (forall a, In a (dedup l) -> In a l)
  /\ (forall a, In a l -> exists b, In b (dedup l) /\ a == b).
Proof.
  induction l as [|a t IH]; intros Hs.
  - simpl. repeat split; [constructor | tauto | intros a []].
  - inversion Hs as [|? ? Ht Ha]; subst.
    destruct (IH Ht) as [IH1 [IH2 IH3]].
    destruct t as [|b t].
    + simpl. repeat split.
      * repeat constructor.
      * tauto.
      * intros x [<- | []]. exists a. split; [now left | reflexivity].
    + rewrite dedup_cons2.
      destruct (Qeq_bool a b) eqn:E.
      * apply Qeq_bool_eq in E. repeat split.
        -- exact IH1.
        -- intros x Hx. right. now apply IH2.
        -- intros x [<- | Hx]; [|now apply IH3].
           destruct (IH3 b (or_introl eq_refl)) as [y [Hy Hby]].
           exists y. split; [exact Hy | now rewrite E].
      * apply Qeq_bool_neq in E. repeat split.
        -- constructor; [exact IH1|]. apply Forall_forall. intros x Hx.
           apply IH2 in Hx. rewrite Forall_forall in Ha.
           assert (Hab : a <= b) by (apply Ha; now left).
           inversion Ht as [|? ? _ Hb]; subst. rewrite Forall_forall in Hb.
           destruct Hx as [<- | Hx]; [lra|].
           specialize (Hb x Hx). lra.
        -- intros x [<- | Hx]; [now left | right; now apply IH2].
        -- intros x [<- | Hx].
           ++ exists a. split; [now left | reflexivity].
           ++ destruct (IH3 x Hx) as [y [Hy Hxy]]. exists y. split; [now right | exact Hxy].
Qed.

(** Two increasing lists with the same values are equal term by term. *)
Lemma increasing_lists_agree (W : list Q) : forall U,
  StronglySorted Qlt W -> StronglySorted Qlt U ->
  (forall a, In a W -> exists b, In b U /\ a == b) ->
  (forall b, In b U -> exists a, In a W /\ a == b) ->
  Forall2 Qeq W U.
Proof.
  induction W as [|w W IH]; intros U HW HU HWU HUW.
  - destruct U as [|u U]; [constructor|].
    destruct (HUW u (or_introl eq_refl)) as [a [[] _]].
  - destruct U as [|u U].
    { destruct (HWU w (or_introl eq_refl)) as [b [[] _]]. }
    inversion HW as [|? ? HW' Hw]; subst.
    inversion HU as [|? ? HU' Hu]; subst.
    rewrite Forall_forall in Hw, Hu.
    assert (E : w == u).
    { destruct (HWU w (or_introl eq_refl)) as [b [[<- | Hb] Hwb]]; [exact Hwb|].
      destruct (HUW u (or_introl eq_refl)) as [a [[<- | Ha] Hau]]; [exact Hau|].
      specialize (Hu b Hb). specialize (Hw a Ha). lra. }
    constructor; [exact E|].
    apply IH; [exact HW' | exact HU' | |].
    + intros a Ha. destruct (HWU a (or_intror Ha)) as [b [[<- | Hb] Hab]].
      * specialize (Hw a Ha). lra.
      * exists b. split; assumption.
    + intros b Hb. destruct (HUW b (or_intror Hb)) as [a [[<- | Ha] Hab]].
      * specialize (Hu b Hb). lra.
      * exists a. split; assumption.
Qed.

Lemma np_unique_values (col u : list Q) :
  StronglySorted Qlt u ->
  (forall a, In a col -> exists b, In b u /\ a == b) ->
  (forall b, In b u -> exists a, In a col /\ a == b) ->
  Forall2 Qeq (np_unique col) u.
Proof.
  intros Hu Hcu Huc. unfold np_unique.
  destruct (dedup_spec (sortQ_sorted col)) as [H1 [H2 H3]].
  apply increasing_lists_agree; [exact H1 | exact Hu | |].
  - intros a Ha. apply Hcu.
    eapply Permutation_in; [apply sortQ_perm | now apply H2].
  - intros b Hb. destruct (Huc b Hb) as [a [Ha Hab]].
    destruct (H3 a) as [c [Hc Hac]].
    { eapply Permutation_in; [apply Permutation_sym, sortQ_perm | exact Ha]. }
    exists c. split; [exact Hc | lra].
Qed.

Lemma fold_min_spec t : forall a,
  (forall x, In x (a :: t) -> fold_left Qmin t a <= x)
  /\ exists x, In x (a :: t) /\ fold_left Qmin t a == x.
Proof.
  induction t as [|b t IH]; intros a; simpl.
  - split; [intros x [<- | []]; lra | exists a; split; [now left | reflexivity]].
  - destruct (IH (Qmin a b)) as [Hle [x [Hx Hmx]]]. split.
    + intros y Hy.
      assert (H0 : fold_left Qmin t (Qmin a b) <= Qmin a b) by (apply Hle; now left).
      pose proof (Q.le_min_l a b). pose proof (Q.le_min_r a b).
      destruct Hy as [<- | [<- | Hy]]; [lra | lra | apply Hle; now right].
    + destruct Hx as [<- | Hx].
      * destruct (Q.min_dec a b) as [E | E].
        -- exists a. split; [now left | lra].
        -- exists b. split; [right; now left | lra].
      * exists x. split; [right; now right | exact Hmx].
Qed.

Lemma fold_max_spec t : forall a,
  (forall x, In x (a :: t) -> x <= fold_left Qmax t a)
  /\ exists x, In x (a :: t) /\ fold_left Qmax t a == x.
Proof.
  induction t as [|b t IH]; intros a; simpl.
  - split; [intros x [<- | []]; lra | exists a; split; [now left | reflexivity]].
  - destruct (IH (Qmax a b)) as [Hle [x [Hx Hmx]]]. split.
    + intros y Hy.
      assert (H0 : Qmax a b <= fold_left Qmax t (Qmax a b)) by (apply Hle; now left).
      pose proof (Q.le_max_l a b). pose proof (Q.le_max_r a b).
      destruct Hy as [<- | [<- | Hy]]; [lra | lra | apply Hle; now right].
    + destruct Hx as [<- | Hx].
      * destruct (Q.max_dec a b) as [E | E].
        -- exists a. split; [now left | lra].
        -- exists b. split; [right; now left | lra].
      * exists x. split; [right; now right | exact Hmx].
Qed.

Lemma np_min_spec (col : list Q) (lo : Q) :
  (forall x, In x col -> lo <= x) ->
  (exists x, In x col /\ x == lo) ->
  exists m, np_min col = Ok m /\ m == lo.
Proof.
  intros Hlo [x0 [Hx0 E0]]. destruct col as [|a t]; [destruct Hx0|].
  simpl. eexists. split; [reflexivity|].
  destruct (fold_min_spec t a) as [Hle [x [Hx Hmx]]].
  specialize (Hle x0 Hx0). specialize (Hlo x Hx). lra.
Qed.

Lemma np_max_spec (col : list Q) (hi : Q) :
  (forall x, In x col -> x <= hi) ->
  (exists x, In x col /\ x == hi) ->
  exists m, np_max col = Ok m /\ m == hi.
Proof.
  intros Hhi [x0 [Hx0 E0]]. destruct col as [|a t]; [destruct Hx0|].
  simpl. eexists. split; [reflexivity|].
  destruct (fold_max_spec t a) as [Hle [x [Hx Hmx]]].
  specialize (Hle x0 Hx0). specialize (Hhi x Hx). lra.
Qed.

(** *** The table of a complete grid *)

(** The nodes of an axis are in increasing order. *)
Definition increasing (l : list Q) : Prop :=
  forall a b, (a < b < length l)%nat -> nth a l 0 < nth b l 0.

Lemma increasing_tail h t : increasing (h :: t) -> increasing t.
Proof.
  intros H a b Hab. apply (H (S a) (S b)). simpl. lia.
Qed.

Lemma increasing_sorted l : increasing l -> StronglySorted Qlt l.
Proof.
  induction l as [|h t IH]; intros H; [constructor|].
  constructor; [apply IH; eapply increasing_tail; exact H|].
  apply Forall_forall. intros x Hx.
  destruct (In_nth _ _ 0 Hx) as [i [Hi <-]].
  apply (H 0%nat (S i)). simpl. lia.
Qed.

Lemma StronglySorted_app {A : Type} (R : A -> A -> Prop) (l1 l2 : list A) :
  StronglySorted R l1 -> StronglySorted R l2 ->
  (forall u v, In u l1 -> In v l2 -> R u v) ->
  StronglySorted R (l1 ++ l2).
Proof.
  induction l1 as [|h t IH]; intros H1 H2 H12; simpl; [exact H2|].
  inversion H1 as [|? ? Ht Hh]; subst.
  constructor.
  - apply IH; [exact Ht | exact H2 |]. intros u v Hu Hv. apply H12; [now right | exact Hv].
  - apply Forall_app. split; [exact Hh|].
    apply Forall_forall. intros v Hv. apply H12; [now left | exact Hv].
Qed.

Lemma StronglySorted_flat_map_seq {B : Type} (R : B -> B -> Prop)
      (g : nat -> list B) (n : nat) : forall s,
  (forall a, (s <= a < s + n)%nat -> StronglySorted R (g a)) ->
  (forall a a' u v, (s <= a < a')%nat -> (a' < s + n)%nat ->
                    In u (g a) -> In v (g a') -> R u v) ->
  StronglySorted R (flat_map g (seq s n)).
Proof.
  induction n as [|n IH]; intros s Hg Hc; simpl; [constructor|].
  apply StronglySorted_app.
  - apply Hg. lia.
  - apply IH.
    + intros a Ha. apply Hg. lia.
    + intros a a' u v Ha Ha'. apply Hc; lia.
  - intros u v Hu Hv. apply in_flat_map in Hv. destruct Hv as [a' [Ha' Hv]].
    apply in_seq in Ha'. apply (Hc s a'); [lia | lia | exact Hu | exact Hv].
Qed.

Lemma StronglySorted_map_seq {B : Type} (R : B -> B -> Prop)
      (g : nat -> B) (n : nat) : forall s,
  (forall a a', (s <= a < a')%nat -> (a' < s + n)%nat -> R (g a) (g a')) ->
  StronglySorted R (map g (seq s n)).
Proof.
  induction n as [|n IH]; intros s Hc; simpl; constructor.
  - apply IH. intros a a' Ha Ha'. apply Hc; lia.
  - apply Forall_forall. intros v Hv. apply in_map_iff in Hv.
    destruct Hv as [a' [<- Ha']]. apply in_seq in Ha'. apply Hc; lia.
Qed.

Lemma nth_flat_map_seq {B : Type} (g : nat -> list B) (m : nat) (d : B) (n : nat) :
  forall s a b,
    (forall x, length (g x) = m) -> (a < n)%nat -> (b < m)%nat ->
    nth (a * m + b) (flat_map g (seq s n)) d = nth b (g (s + a)%nat) d.
Proof.
  induction n as [|n IH]; intros s a b Hg Ha Hb; [lia|].
  simpl. destruct a as [|a].
  - simpl. rewrite app_nth1 by (rewrite Hg; exact Hb). now rewrite Nat.add_0_r.
  - rewrite app_nth2 by (rewrite Hg; simpl; lia).
    rewrite Hg. replace (S a * m + b - m)%nat with (a * m + b)%nat by (simpl; lia).
    rewrite IH by (try assumption; lia). f_equal. f_equal. lia.
Qed.

Section Grid.
Variables xs ys zs : list Q.
Variable B : nat -> nat -> nat -> vec.

Let nx := length xs.
Let ny := length ys.
Let nz := length zs.
Let T := grid_table xs ys zs B.

Lemma grid_table_length : length T = (nx * ny * nz)%nat.
Proof.
  unfold T, grid_table.
  rewrite length_flat_map_const with (m := (ny * nz)%nat).
  - rewrite length_seq. fold nx. lia.
  - intros a. rewrite length_flat_map_const with (m := nz).
    + now rewrite length_seq.
    + intros b. now rewrite length_map, length_seq.
Qed.

Lemma in_grid_table r :
  In r T <->
  exists a b c, (a < nx)%nat /\ (b < ny)%nat /\ (c < nz)%nat
                /\ r = grid_row xs ys zs B a b c.
Proof.
  unfold T, grid_table. rewrite in_flat_map. split.
  - intros [a [Ha Hr]]. apply in_flat_map in Hr. destruct Hr as [b [Hb Hr]].
    apply in_map_iff in Hr. destruct Hr as [c [<- Hc]].
    apply in_seq in Ha, Hb, Hc. exists a, b, c. repeat split; lia.
  - intros [a [b [c [Ha [Hb [Hc ->]]]]]].
    exists a. split; [apply in_seq; lia|].
    apply in_flat_map. exists b. split; [apply in_seq; lia|].
    apply in_map_iff. exists c. split; [reflexivity | apply in_seq; lia].
Qed.

Lemma grid_table_nth a b c d :
  (a < nx)%nat -> (b < ny)%nat -> (c < nz)%nat ->
  nth ((a * ny + b) * nz + c) T d = grid_row xs ys zs B a b c.
Proof.
  intros Ha Hb Hc. unfold T, grid_table.
  replace ((a * ny + b) * nz + c)%nat with (a * (ny * nz) + (b * nz + c))%nat by lia.
  rewrite nth_flat_map_seq; [| | exact Ha | nia].
  - simpl. rewrite nth_flat_map_seq; [| | exact Hb | exact Hc].
    + simpl. rewrite nth_indep with (d' := grid_row xs ys zs B a b 0)
        by (rewrite length_map, length_seq; exact Hc).
      rewrite map_nth. now rewrite seq_nth.
    + intros y. now rewrite length_map, length_seq.
  - intros x. rewrite length_flat_map_const with (m := nz).
    + now rewrite length_seq.
    + intros y. now rewrite length_map, length_seq.
Qed.

Hypothesis xs_increasing : increasing xs.
Hypothesis ys_increasing : increasing ys.
Hypothesis zs_increasing : increasing zs.

Lemma grid_table_sorted : StronglySorted key_lt T.
Proof.
  unfold T, grid_table.
  apply StronglySorted_flat_map_seq.
  - intros a Ha. apply StronglySorted_flat_map_seq.
    + intros b Hb. apply StronglySorted_map_seq.
      intros c c' Hc Hc'. apply key_lt_iff. simpl.
      right. split; [reflexivity|]. right. split; [reflexivity|].
      apply zs_increasing. lia.
    + intros b b' u v Hb Hb' Hu Hv.
      apply in_map_iff in Hu, Hv.
      destruct Hu as [c [<- _]]. destruct Hv as [c' [<- _]].
      apply key_lt_iff. simpl. right. split; [reflexivity|]. left.
      apply ys_increasing. lia.
  - intros a a' u v Ha Ha' Hu Hv.
    apply in_flat_map in Hu, Hv.
    destruct Hu as [b [_ Hu]]. destruct Hv as [b' [_ Hv]].
    apply in_map_iff in Hu, Hv.
    destruct Hu as [c [<- _]]. destruct Hv as [c' [<- _]].
    apply key_lt_iff. simpl. left. apply xs_increasing. lia.
Qed.

End Grid.

(** *** Equally spaced axes and [np.linspace] *)

Definition equally_spaced (l : list Q) : Prop :=
  exists x0 h, 0 < h /\ forall i, (i < length l)%nat -> nth i l 0 == x0 + Qnat i * h.

Lemma Qnat_lt a b : (a < b)%nat -> Qnat a < Qnat b.
Proof. intros H. unfold Qnat. rewrite <- Zlt_Qlt. lia. Qed.

Lemma Qnat_S_nonzero k : ~ Qnat (S k) == 0.
Proof.
  intros H. assert (Qnat 0 < Qnat (S k)) by (apply Qnat_lt; lia).
  change (Qnat 0) with 0 in *. lra.
Qed.

Lemma equally_spaced_increasing l : equally_spaced l -> increasing l.
Proof.
  intros [x0 [h [Hh Hl]]] a b Hab.
  rewrite (Hl a), (Hl b) by lia.
  assert (Qnat a < Qnat b) by (apply Qnat_lt; lia). nra.
Qed.

Lemma nth_map_seq {B : Type} (g : nat -> B) (d : B) (n : nat) : forall s i,
  (i < n)%nat -> nth i (map g (seq s n)) d = g (s + i)%nat.
Proof.
  induction n as [|n IH]; intros s i Hi; [lia|].
  simpl. destruct i as [|i]; [f_equal; lia|].
  rewrite IH by lia. f_equal. lia.
Qed.

Lemma linspace_length a b n : length (linspace a b n) = n.
Proof.
  destruct n as [|[|n]]; try reflexivity.
  unfold linspace. rewrite length_app, length_map, length_seq. simpl. lia.
Qed.

Lemma linspace_nth (xs : list Q) (m M : Q) :
  equally_spaced xs -> (2 <= length xs)%nat ->
  m == nth 0 xs 0 -> M == nth (length xs - 1) xs 0 ->
  forall i, (i < length xs)%nat -> nth i (linspace m M (length xs)) 0 == nth i xs 0.
Proof.
  intros [x0 [h [Hh Hl]]] Hlen Hm HM i Hi.
  destruct (length xs) as [|[|k]] eqn:E; try lia.
  unfold linspace.
  rewrite (Hl 0%nat) in Hm by lia. rewrite (Hl (S k - 0)%nat) in HM by lia.
  replace (S (S k) - 1)%nat with (S k) in HM by lia.
  replace (S k - 0)%nat with (S k) in HM by lia.
  change (Qnat 0) with 0 in Hm.
  destruct (Nat.eq_dec i (S k)) as [-> | Hne].
  - rewrite app_nth2 by (rewrite length_map, length_seq; lia).
    rewrite length_map, length_seq, Nat.sub_diag. simpl nth.
    rewrite (Hl (S k)) by lia. exact HM.
  - rewrite app_nth1 by (rewrite length_map, length_seq; lia).
    rewrite nth_map_seq by lia. simpl plus.
    rewrite (Hl i) by lia. rewrite HM, Hm.
    field. apply Qnat_S_nonzero.
Qed.

Lemma last_nth (l : list Q) : l <> [] -> last l 0 = nth (length l - 1) l 0.
Proof.
  induction l as [|a [|b t] IH]; intros H; [congruence | reflexivity |].
  change (last (a :: b :: t) 0) with (last (b :: t) 0).
  rewrite IH by discriminate. simpl. now rewrite Nat.sub_0_r.
Qed.

(** *** The interpolator at a node of its grid *)

Lemma searchsorted_spec (G : list Q) (q : Q) : forall i,
  (i < length G)%nat ->
  (forall j, (j < i)%nat -> nth j G 0 < q) ->
  ~ nth i G 0 < q ->
  searchsorted G q = i.
Proof.
  induction G as [|g t IH]; intros i Hi Hlt Hge; [simpl in Hi; lia|].
  simpl. destruct (Qlt_le_dec g q) as [Hg | Hg].
  - destruct i as [|i]; [simpl in Hge; contradiction|].
    f_equal. apply IH.
    + simpl in Hi. lia.
    + intros j Hj. apply (Hlt (S j)). lia.
    + exact Hge.
  - destruct i as [|i]; [reflexivity|].
    specialize (Hlt 0%nat). simpl in Hlt. assert (g < q) by (apply Hlt; lia). lra.
Qed.

(** Python indices that are not negative are the positions themselves,
    and [-1] is the last one. *)
Lemma py_index_nonneg (n : nat) (i : Z) : (0 <= i)%Z -> py_index n i = Z.to_nat i.
Proof.
  intros H. unfold py_index. destruct (Z.ltb_spec i 0); [lia | reflexivity].
Qed.

Lemma py_index_last (n : nat) : py_index n (-1) = (n - 1)%nat.
Proof. unfold py_index. cbn [Z.ltb Z.compare]. lia. Qed.

Lemma py_nth_nonneg (G : list Q) (i : Z) :
  (0 <= i)%Z -> py_nth G i = nth (Z.to_nat i) G 0.
Proof. intros H. unfold py_nth. now rewrite py_index_nonneg. Qed.

Lemma Qdiv_by_zero (a b : Q) : b == 0 -> a / b == 0.
Proof. intros H. unfold Qdiv. rewrite H. unfold Qinv. simpl. ring. Qed.

(** The index that [find_index] returns, in closed form. *)
Lemma find_index_fst (G : list Q) (q : Q) :
  fst (find_index G q)
  = Z.min (Z.max (Z.of_nat (searchsorted G q) - 1) 0) (Z.of_nat (length G) - 2).
Proof.
  unfold find_index. cbn [fst].
  destruct (Z.ltb_spec (Z.of_nat (searchsorted G q) - 1) 0);
    destruct (Z.ltb_spec (Z.of_nat (length G) - 2) 0);
    destruct (Z.ltb_spec (Z.of_nat (length G) - 2)
                         (Z.of_nat (searchsorted G q) - 1)); lia.
Qed.

Lemma find_index_snd (G : list Q) (q : Q) :
  snd (find_index G q)
  = (q - py_nth G (fst (find_index G q)))
    / (py_nth G (fst (find_index G q) + 1) - py_nth G (fst (find_index G q))).
Proof. reflexivity. Qed.

(** On an axis with one node the cell is that node, at distance 0. *)
Lemma find_index_one_node (G : list Q) (q : Q) :
  length G = 1%nat ->
  fst (find_index G q) = (-1)%Z /\ snd (find_index G q) == 0.
Proof.
  intros HL.
  assert (Hi : fst (find_index G q) = (-1)%Z).
  { rewrite find_index_fst, HL. lia. }
  split; [exact Hi|].
  rewrite find_index_snd, Hi. apply Qdiv_by_zero.
  unfold py_nth. rewrite HL. cbn. ring.
Qed.

(** The cell found for [q] has the node [i] as one of its ends, with
    weight one. *)
Definition node_hit (G : list Q) (q : Q) (i : nat) : Prop :=
  (py_index (length G) (fst (find_index G q)) = i /\ snd (find_index G q) == 0)
  \/ (py_index (length G) (fst (find_index G q) + 1) = i
      /\ snd (find_index G q) == 1).

Lemma find_index_node (G : list Q) (q : Q) (i : nat) :
  increasing G -> (i < length G)%nat ->
  q == nth i G 0 -> node_hit G q i.
Proof.
  intros HG Hi Hq. unfold node_hit.
  destruct (Nat.eq_dec (length G) 1) as [L1 | L1].
  - destruct (find_index_one_node G q L1) as [E1 E2].
    left. rewrite E1, py_index_last. split; [lia | exact E2].
  - assert (Hs : searchsorted G q = i).
    { apply searchsorted_spec; [exact Hi | |].
      - intros j Hj. rewrite Hq. apply HG. lia.
      - rewrite Hq. lra. }
    rewrite find_index_snd, find_index_fst, Hs.
    destruct i as [|i].
    + left.
      replace (Z.min (Z.max (Z.of_nat 0 - 1) 0) (Z.of_nat (length G) - 2))
        with 0%Z by lia.
      split; [reflexivity|].
      rewrite !py_nth_nonneg by lia. cbn [Z.to_nat Z.add Pos.to_nat].
      rewrite Hq. unfold Qdiv. ring.
    + right.
      replace (Z.min (Z.max (Z.of_nat (S i) - 1) 0) (Z.of_nat (length G) - 2))
        with (Z.of_nat i) by lia.
      split; [rewrite py_index_nonneg by lia; lia|].
      rewrite !py_nth_nonneg by lia.
      replace (Z.to_nat (Z.of_nat i + 1)) with (S i) by lia.
      replace (Z.to_nat (Z.of_nat i)) with i by lia.
      rewrite Hq. assert (nth i G 0 < nth (S i) G 0) by (apply HG; lia).
      field. lra.
Qed.

Lemma in_bounds_node (G : list Q) (q : Q) (i : nat) :
  increasing G -> (i < length G)%nat ->
  q == nth i G 0 -> out_of_bounds_axis G q = false.
Proof.
  intros HG Hi Hq. unfold out_of_bounds_axis.
  assert (H0 : nth 0 G 0 <= q).
  { rewrite Hq. destruct i as [|i]; [lra|].
    apply Qlt_le_weak, HG. lia. }
  assert (H1 : q <= last G 0).
  { rewrite last_nth by (intros ->; simpl in Hi; lia). rewrite Hq.
    destruct (Nat.eq_dec i (length G - 1)) as [-> | Hne]; [lra|].
    apply Qlt_le_weak, HG. lia. }
  apply Qle_bool_iff in H0, H1. now rewrite H0, H1.
Qed.

Lemma edge_weight_lo i y : edge_weight i i y = 1 - y.
Proof. unfold edge_weight. now rewrite Z.eqb_refl. Qed.

Lemma edge_weight_hi i y : edge_weight (i + 1) i y = y.
Proof.
  unfold edge_weight. destruct (Z.eqb_spec (i + 1) i); [lia | reflexivity].
Qed.

Lemma evaluate_linear_node (f : RegularGridInterpolator)
      (ix iy iz : Z) (yx yy yz : Q) (ex ey ez : Z) :
  (ex = ix /\ yx == 0) \/ (ex = (ix + 1)%Z /\ yx == 1) ->
  (ey = iy /\ yy == 0) \/ (ey = (iy + 1)%Z /\ yy == 1) ->
  (ez = iz /\ yz == 0) \/ (ez = (iz + 1)%Z /\ yz == 1) ->
  evaluate_linear f ix iy iz yx yy yz == value_at f (ex, ey, ez).
Proof.
  intros Hx Hy Hz. unfold evaluate_linear, edges.
  cbn [flat_map map app fold_left].
  rewrite !edge_weight_lo, !edge_weight_hi.
  destruct Hx as [[-> Ex] | [-> Ex]]; destruct Hy as [[-> Ey] | [-> Ey]];
    destruct Hz as [[-> Ez] | [-> Ez]]; rewrite Ex, Ey, Ez; ring.
Qed.

(** A node hit, as an end of the cell. *)
Lemma node_hit_end (G : list Q) (q : Q) (i : nat) :
  node_hit G q i ->
  exists e,
    py_index (length G) e = i
    /\ ((e = fst (find_index G q) /\ snd (find_index G q) == 0)
        \/ (e = (fst (find_index G q) + 1)%Z /\ snd (find_index G q) == 1)).
Proof.
  intros [[H1 H2] | [H1 H2]]; eexists; (split; [exact H1|]);
    [left | right]; (split; [reflexivity | exact H2]).
Qed.

Lemma interp_point_node (f : RegularGridInterpolator) (p : vec) (i j k : nat) :
  increasing (gridX f) -> increasing (gridY f) -> increasing (gridZ f) ->
  (i < length (gridX f))%nat -> (j < length (gridY f))%nat ->
  (k < length (gridZ f))%nat ->
  vx p == nth i (gridX f) 0 -> vy p == nth j (gridY f) 0 ->
  vz p == nth k (gridZ f) 0 ->
  exists v, interp_point f p = Ok v
            /\ v == nth ((i * length (gridY f) + j) * length (gridZ f) + k)
                        (values f) 0.
Proof.
  intros HX HY HZ Hi Hj Hk Ex Ey Ez.
  unfold interp_point.
  assert (Hoob : out_of_bounds f p = false).
  { unfold out_of_bounds.
    rewrite (in_bounds_node HX Hi Ex), (in_bounds_node HY Hj Ey),
      (in_bounds_node HZ Hk Ez). reflexivity. }
  rewrite Hoob.
  destruct (node_hit_end (find_index_node HX Hi Ex)) as [ex [Px Nx]].
  destruct (node_hit_end (find_index_node HY Hj Ey)) as [ey [Py Ny]].
  destruct (node_hit_end (find_index_node HZ Hk Ez)) as [ez [Pz Nz]].
  destruct (find_index (gridX f) (vx p)) as [ix yx].
  destruct (find_index (gridY f) (vy p)) as [iy yy].
  destruct (find_index (gridZ f) (vz p)) as [iz yz].
  cbn [fst snd] in *.
  pose proof (@evaluate_linear_node f ix iy iz yx yy yz ex ey ez Nx Ny Nz) as Hv.
  unfold value_at in Hv. rewrite Px, Py, Pz in Hv.
  destruct (bounds_error f) as [[|]|]; destruct (fill_value f) as [fv|];
    eexists; (split; [reflexivity | exact Hv]).
Qed.

(** *** Construction and query on a complete grid *)

Lemma Forall2_nth_Qeq (l l' : list Q) :
  length l = length l' ->
  (forall i, (i < length l')%nat -> nth i l 0 == nth i l' 0) ->
  Forall2 Qeq l l'.
Proof.
  revert l'. induction l as [|a l IH]; intros [|b l'] Hlen Hn; try discriminate.
  - constructor.
  - constructor.
    + apply (Hn 0%nat). simpl. lia.
    + apply IH; [simpl in Hlen; lia|].
      intros i Hi. apply (Hn (S i)). simpl. lia.
Qed.

(** The grid that [_interpolate_data] builds for one coordinate column:
    [np.linspace(np.min(col), np.max(col), len(np.unique(col)))]. *)
Definition axis_grid (col : list Q) : result (list Q) :=
  m <- np_min col ;; M <- np_max col ;;
  Ok (linspace m M (length (np_unique col))).

(** A column whose values are those of an increasing list [us]: its
    minimum and maximum are the ends of [us], and it has as many distinct
    values as [us] has entries. *)
Lemma axis_column (col us : list Q) :
  increasing us -> (1 <= length us)%nat ->
  (forall a, In a col <-> In a us) ->
  exists m M,
    np_min col = Ok m /\ np_max col = Ok M
    /\ length (np_unique col) = length us
    /\ m == nth 0 us 0 /\ M == nth (length us - 1) us 0.
Proof.
  intros Hinc Hlen Hin.
  destruct (@np_min_spec col (nth 0 us 0)) as [m [Hm Em]].
  { intros x Hx. apply Hin in Hx. destruct (In_nth _ _ 0 Hx) as [i [Hi <-]].
    destruct i as [|i]; [lra|]. apply Qlt_le_weak, Hinc. lia. }
  { exists (nth 0 us 0). split; [|reflexivity]. apply Hin, nth_In. lia. }
  destruct (@np_max_spec col (nth (length us - 1) us 0)) as [M [HM EM]].
  { intros x Hx. apply Hin in Hx. destruct (In_nth _ _ 0 Hx) as [i [Hi <-]].
    destruct (Nat.eq_dec i (length us - 1)) as [-> | Hne]; [lra|].
    apply Qlt_le_weak, Hinc. lia. }
  { exists (nth (length us - 1) us 0). split; [|reflexivity]. apply Hin, nth_In. lia. }
  exists m, M. repeat split; try assumption.
  apply (Forall2_length (R := Qeq)).
  apply np_unique_values.
  - now apply increasing_sorted.
  - intros a Ha. exists a. split; [now apply Hin | reflexivity].
  - intros b Hb. exists b. split; [now apply Hin | reflexivity].
Qed.

(** On equally spaced values, one or more, [np.linspace] between the
    ends gives the values back. *)
Lemma linspace_nth_any (xs : list Q) (m M : Q) :
  equally_spaced xs -> (1 <= length xs)%nat ->
  m == nth 0 xs 0 -> M == nth (length xs - 1) xs 0 ->
  forall i, (i < length xs)%nat -> nth i (linspace m M (length xs)) 0 == nth i xs 0.
Proof.
  intros Hes Hlen Hm HM i Hi.
  destruct (Nat.eq_dec (length xs) 1) as [L1 | L1].
  - rewrite L1 in *. assert (i = 0%nat) as -> by lia.
    cbn [linspace nth]. rewrite Hm. ring.
  - apply linspace_nth; try assumption. lia.
Qed.

Section RoundTrip.
Variables xs ys zs : list Q.
Variable B : nat -> nat -> nat -> vec.
Hypothesis xs_increasing : increasing xs.
Hypothesis ys_increasing : increasing ys.
Hypothesis zs_increasing : increasing zs.
Hypothesis xs_one : (1 <= length xs)%nat.
Hypothesis ys_one : (1 <= length ys)%nat.
Hypothesis zs_one : (1 <= length zs)%nat.

Let T := grid_table xs ys zs B.

Lemma column_x a : In a (map rx T) <-> In a xs.
Proof.
  rewrite in_map_iff. split.
  - intros [r [<- Hr]]. apply in_grid_table in Hr.
    destruct Hr as [i [j [k [Hi [_ [_ ->]]]]]]. simpl. now apply nth_In.
  - intros Ha. destruct (In_nth _ _ 0 Ha) as [i [Hi <-]].
    exists (grid_row xs ys zs B i 0 0). split; [reflexivity|].
    apply in_grid_table. exists i, 0%nat, 0%nat. repeat split; lia.
Qed.

Lemma column_y a : In a (map ry T) <-> In a ys.
Proof.
  rewrite in_map_iff. split.
  - intros [r [<- Hr]]. apply in_grid_table in Hr.
    destruct Hr as [i [j [k [_ [Hj [_ ->]]]]]]. simpl. now apply nth_In.
  - intros Ha. destruct (In_nth _ _ 0 Ha) as [j [Hj <-]].
    exists (grid_row xs ys zs B 0 j 0). split; [reflexivity|].
    apply in_grid_table. exists 0%nat, j, 0%nat. repeat split; lia.
Qed.

Lemma column_z a : In a (map rz T) <-> In a zs.
Proof.
  rewrite in_map_iff. split.
  - intros [r [<- Hr]]. apply in_grid_table in Hr.
    destruct Hr as [i [j [k [_ [_ [Hk ->]]]]]]. simpl. now apply nth_In.
  - intros Ha. destruct (In_nth _ _ 0 Ha) as [k [Hk <-]].
    exists (grid_row xs ys zs B 0 0 k). split; [reflexivity|].
    apply in_grid_table. exists 0%nat, 0%nat, k. repeat split; lia.
Qed.

(** The source that the constructor builds from any arrangement of the
    rows of the table: its grids are [np.linspace] between the ends of
    the axes, with as many nodes as the axes have values; they are the
    axes themselves when these are equally spaced. *)
Lemma init_on_grid (data : list Row) (be : option bool) (fv : option Q)
      (pos : vec) (ang : Q) (ax : vec) :
  Permutation data T ->
  exists dim center X Y Z,
    __init__ data be fv pos ang ax
    = Ok (mkDiscreteSourceBox dim center (vadd center pos) (0, 0, 0) ang ax
            (mkRGI X Y Z (map rBx T) be fv,
             mkRGI X Y Z (map rBy T) be fv,
             mkRGI X Y Z (map rBz T) be fv) T)
    /\ axis_grid (map rx T) = Ok X
    /\ axis_grid (map ry T) = Ok Y
    /\ axis_grid (map rz T) = Ok Z
    /\ length X = length xs /\ length Y = length ys /\ length Z = length zs
    /\ (equally_spaced xs ->
        forall i, (i < length xs)%nat -> nth i X 0 == nth i xs 0)
    /\ (equally_spaced ys ->
        forall i, (i < length ys)%nat -> nth i Y 0 == nth i ys 0)
    /\ (equally_spaced zs ->
        forall i, (i < length zs)%nat -> nth i Z 0 == nth i zs 0).
Proof.
  intros Hp. unfold __init__.
  rewrite (@sort_values_grid T data); [| | exact Hp].
  2: { apply grid_table_sorted; assumption. }
  destruct (@axis_column (map rx T) xs xs_increasing xs_one column_x)
    as [mx [Mx [Hmx [HMx [Ux [Ex0 Ex1]]]]]].
  destruct (@axis_column (map ry T) ys ys_increasing ys_one column_y)
    as [my [My [Hmy [HMy [Uy [Ey0 Ey1]]]]]].
  destruct (@axis_column (map rz T) zs zs_increasing zs_one column_z)
    as [mz [Mz [Hmz [HMz [Uz [Ez0 Ez1]]]]]].
  fold T. rewrite Hmx, HMx, Hmy, HMy, Hmz, HMz. cbn [bind].
  unfold _interpolate_data.
  rewrite Hmx, HMx, Hmy, HMy, Hmz, HMz. cbn [bind].
  rewrite Ux, Uy, Uz.
  unfold T at 1. rewrite grid_table_length, Nat.eqb_refl. fold T. cbn [bind].
  do 5 eexists. split; [reflexivity|].
  unfold axis_grid. rewrite Hmx, HMx, Hmy, HMy, Hmz, HMz. cbn [bind].
  rewrite Ux, Uy, Uz.
  repeat split; try apply linspace_length.
  - intros Hes. now apply linspace_nth_any.
  - intros Hes. now apply linspace_nth_any.
  - intros Hes. now apply linspace_nth_any.
Qed.

End RoundTrip.

End DiscreteFacts.

(** C2 (as amended).  For a complete rectilinear table, given in any
    order of its rows, and the default placement: the constructor builds
    the three interpolators over the grids [np.linspace(min, max, n)] of
    the three coordinate columns, [n] being the number of distinct values
    of the column.  When the coordinate values are equally spaced along
    each axis these grids agree with the sorted distinct coordinate
    values, and [getB] at the coordinates of any row returns the field
    stored in that row. *)
Theorem getB_at_grid_node :
  forall (rot : vec -> Q -> vec -> vec)
         (xs ys zs : list Q) (B : nat -> nat -> nat -> vec)
         (data : list Row) (be : option bool) (fv : option Q) (ax : vec),
    DiscreteFacts.increasing xs ->
    DiscreteFacts.increasing ys ->
    DiscreteFacts.increasing zs ->
    (1 <= length xs)%nat -> (1 <= length ys)%nat -> (1 <= length zs)%nat ->
    Permutation data (grid_table xs ys zs B) ->
    exists d X Y Z,
      Discrete.__init__ data be fv (0, 0, 0) 0 ax = Ok d
      /\ Discrete.interpFunc d
         = (mkRGI X Y Z (map rBx (Discrete.dataframe d)) be fv,
            mkRGI X Y Z (map rBy (Discrete.dataframe d)) be fv,
            mkRGI X Y Z (map rBz (Discrete.dataframe d)) be fv)
      /\ DiscreteFacts.axis_grid (map rx (Discrete.dataframe d)) = Ok X
      /\ DiscreteFacts.axis_grid (map ry (Discrete.dataframe d)) = Ok Y
      /\ DiscreteFacts.axis_grid (map rz (Discrete.dataframe d)) = Ok Z
      /\ length X = length xs /\ length Y = length ys /\ length Z = length zs
      /\ (DiscreteFacts.equally_spaced xs ->
          DiscreteFacts.equally_spaced ys ->
          DiscreteFacts.equally_spaced zs ->
          Forall2 Qeq X xs /\ Forall2 Qeq Y ys /\ Forall2 Qeq Z zs
          /\ forall r, In r data ->
               exists v,
                 snd (Discrete.getB rot d [row_pos r]) = Ok (Single v)
                 /\ veq v (row_B r)).
Proof.
  intros rot xs ys zs B data be fv ax Ixs Iys Izs Lxs Lys Lzs Hp.
  destruct (@DiscreteFacts.init_on_grid xs ys zs B Ixs Iys Izs Lxs Lys Lzs
              data be fv (0, 0, 0) 0 ax Hp)
    as [dim [center [X [Y [Z [Hinit [GX [GY [GZ [LX [LY [LZ [NX [NY NZ]]]]]]]]]]]]]].
  set (T := grid_table xs ys zs B) in *.
  eexists. exists X, Y, Z.
  split; [exact Hinit|].
  split; [reflexivity|].
  split; [exact GX|]. split; [exact GY|]. split; [exact GZ|].
  split; [exact LX|]. split; [exact LY|]. split; [exact LZ|].
  intros Hxs Hys Hzs.
  specialize (NX Hxs). specialize (NY Hys). specialize (NZ Hzs).
  split; [apply DiscreteFacts.Forall2_nth_Qeq; assumption|].
  split; [apply DiscreteFacts.Forall2_nth_Qeq; assumption|].
  split; [apply DiscreteFacts.Forall2_nth_Qeq; assumption|].
  intros r Hr.
  assert (HrT : In r T) by (eapply Permutation_in; [exact Hp | exact Hr]).
  apply DiscreteFacts.in_grid_table in HrT.
  destruct HrT as [a [b [c [Ha [Hb [Hc Er]]]]]].
  assert (IX : DiscreteFacts.increasing X).
  { intros i j Hij. rewrite NX, NX by lia. apply Ixs. lia. }
  assert (IY : DiscreteFacts.increasing Y).
  { intros i j Hij. rewrite NY, NY by lia. apply Iys. lia. }
  assert (IZ : DiscreteFacts.increasing Z).
  { intros i j Hij. rewrite NZ, NZ by lia. apply Izs. lia. }
  set (q := vadd (row_pos r) (vsub center (vadd center (0, 0, 0)))).
  assert (Qx : vx q == nth a X 0).
  { rewrite NX by exact Ha. subst q r. destruct center as [[cx cy] cz].
    unfold vadd, vsub, row_pos, vx, vy, vz. cbn [fst snd rx grid_row]. ring. }
  assert (Qy : vy q == nth b Y 0).
  { rewrite NY by exact Hb. subst q r. destruct center as [[cx cy] cz].
    unfold vadd, vsub, row_pos, vx, vy, vz. cbn [fst snd ry grid_row]. ring. }
  assert (Qz : vz q == nth c Z 0).
  { rewrite NZ by exact Hc. subst q r. destruct center as [[cx cy] cz].
    unfold vadd, vsub, row_pos, vx, vy, vz. cbn [fst snd rz grid_row]. ring. }
  assert (Node : forall (col : Row -> Q) (comp : vec -> Q),
             col (mkRow 0 0 0 0 0 0) = 0 ->
             (forall i j k, col (grid_row xs ys zs B i j k) = comp (B i j k)) ->
             exists v, Discrete.interp_point (mkRGI X Y Z (map col T) be fv) q = Ok v
                       /\ v == comp (B a b c)).
  { intros col comp Hd Hcol.
    destruct (@DiscreteFacts.interp_point_node (mkRGI X Y Z (map col T) be fv) q a b c)
      as [v [Hv Ev]]; cbn [gridX gridY gridZ]; try assumption; try lia.
    exists v. split; [exact Hv|]. rewrite Ev.
    cbn [gridY gridZ values]. rewrite LY, LZ.
    rewrite <- Hd, map_nth. unfold T.
    rewrite DiscreteFacts.grid_table_nth by assumption.
    rewrite Hcol. reflexivity. }
  destruct (Node rBx vx eq_refl (fun _ _ _ => eq_refl)) as [v1 [H1 E1]].
  destruct (Node rBy vy eq_refl (fun _ _ _ => eq_refl)) as [v2 [H2 E2]].
  destruct (Node rBz vz eq_refl (fun _ _ _ => eq_refl)) as [v3 [H3 E3]].
  exists (v1, v2, v3). split.
  - unfold Discrete.getB, Discrete.call_interpFunc.
    cbn [snd Discrete.interpFunc Discrete._center Discrete.position Discrete.angle
         Discrete.axis map mapM].
    fold q. rewrite H1, H2, H3. reflexivity.
  - subst r. unfold veq, row_B. cbn [vx vy vz fst snd rBx rBy rBz grid_row].
    repeat split; assumption.
Qed.

(** Witness of C2: a planar table, the unit square [{0,1}^2] at [z = 0]
    with the field [(x,0,0)], its rows in reverse order. *)
Lemma getB_at_grid_node_witness :
  let T := grid_table [0; 1] [0; 1] [0] (fun a _ _ => (Qnat a, 0, 0)) in
  exists d X Y Z,
    Discrete.__init__ (rev T) None None (0, 0, 0) 0 (0, 0, 1) = Ok d
    /\ Discrete.interpFunc d
       = (mkRGI X Y Z (map rBx (Discrete.dataframe d)) None None,
          mkRGI X Y Z (map rBy (Discrete.dataframe d)) None None,
          mkRGI X Y Z (map rBz (Discrete.dataframe d)) None None)
    /\ DiscreteFacts.axis_grid (map rx (Discrete.dataframe d)) = Ok X
    /\ DiscreteFacts.axis_grid (map ry (Discrete.dataframe d)) = Ok Y
    /\ DiscreteFacts.axis_grid (map rz (Discrete.dataframe d)) = Ok Z
    /\ length X = 2%nat /\ length Y = 2%nat /\ length Z = 1%nat
    /\ (DiscreteFacts.equally_spaced [0; 1] ->
        DiscreteFacts.equally_spaced [0; 1] ->
        DiscreteFacts.equally_spaced [0] ->
        Forall2 Qeq X [0; 1] /\ Forall2 Qeq Y [0; 1] /\ Forall2 Qeq Z [0]
        /\ forall r, In r (rev T) ->
             exists v,
               snd (Discrete.getB Examples.no_rotation d [row_pos r]) = Ok (Single v)
               /\ veq v (row_B r)).
Proof.
  intros T.
  assert (I2 : DiscreteFacts.increasing [0; 1]).
  { intros [|[|a]] [|[|b]] H; simpl in H; try lia. reflexivity. }
  assert (I1 : DiscreteFacts.increasing [0]).
  { intros a b H. simpl in H. lia. }
  apply (@getB_at_grid_node Examples.no_rotation [0; 1] [0; 1] [0]
           (fun a _ _ => (Qnat a, 0, 0)) (rev T) None None (0, 0, 1) I2 I2 I1).
  - simpl. lia.
  - simpl. lia.
  - simpl. lia.
  - apply Permutation_sym, Permutation_rev.
Defined.

(** C2 (counterexample).  On the table whose [x] coordinates are 0, 1 and
    3 the grid of the interpolators along [x] is [0, 3/2, 3], not
    [0, 1, 3];  the field stored at the node [(1,0,0)] is [(1,0,0)], and
    [getB] returns [(2/3, 0, 0)] there. *)
Lemma getB_uneven_grid_counterexample :
  Discrete.__init__ Examples.table_uneven None None (0, 0, 0) 0 (0, 0, 1)
  = Ok (Examples.box Examples.table_uneven (0, 0, 0) 0)
  /\ In (mkRow 1 0 0 1 0 0) Examples.table_uneven
  /\ Forall2 Qeq
       (gridX (fst (fst (Discrete.interpFunc
                           (Examples.box Examples.table_uneven (0, 0, 0) 0)))))
       [0; 3 # 2; 3]
  /\ ~ Forall2 Qeq
       (gridX (fst (fst (Discrete.interpFunc
                           (Examples.box Examples.table_uneven (0, 0, 0) 0)))))
       [0; 1; 3]
  /\ (forall rot : vec -> Q -> vec -> vec,
        exists v,
          snd (Discrete.getB rot (Examples.box Examples.table_uneven (0, 0, 0) 0)
                 [row_pos (mkRow 1 0 0 1 0 0)]) = Ok (Single v)
          /\ veqb v (2 # 3, 0, 0) = true
          /\ veqb v (row_B (mkRow 1 0 0 1 0 0)) = false).
Proof.
  assert (E : gridX (fst (fst (Discrete.interpFunc
                                 (Examples.box Examples.table_uneven (0, 0, 0) 0))))
              = [0 # 2; 3 # 2; 3]) by (vm_compute; reflexivity).
  rewrite E.
  split; [vm_compute; reflexivity|].
  split; [vm_compute; tauto|].
  split; [repeat constructor|].
  split.
  - intros H. inversion H as [|? ? ? ? _ H']; subst.
    inversion H' as [|? ? ? ? E1 _]; subst. vm_compute in E1. discriminate.
  - intros rot. eexists. split; [lazy; reflexivity|].
    split; vm_compute; reflexivity.
Qed.

(** * Further properties of the code *)

(** ** Membership in a collection *)

Module RemovalFacts.
Import Collection Removal.

(** No object occurs twice in the list. *)
Fixpoint distinct (l : list pyobj) : bool :=
  match l with
  | [] => true
  | a :: t => negb (py_in a t) && distinct t
  end.

(** [isinstance(s, (Sensor, SurfaceSensor))] *)
Definition is_leaf (s : pyobj) : bool :=
  match s with
  | PointSensor _ _ | SurfSensor _ _ => true
  | _ => false
  end.

Lemma same_object_sym a b : same_object a b = same_object b a.
Proof.
  unfold same_object. destruct (object_id a), (object_id b); try reflexivity.
  apply Nat.eqb_sym.
Qed.

Lemma same_object_leaf s : is_leaf s = true -> same_object s s = true.
Proof.
  destruct s; try discriminate; intros _; unfold same_object; simpl; apply Nat.eqb_refl.
Qed.

Lemma same_object_trans a b c :
  same_object a b = true -> same_object b c = true -> same_object a c = true.
Proof.
  unfold same_object.
  destruct (object_id a), (object_id b), (object_id c); try discriminate.
  rewrite !Nat.eqb_eq. congruence.
Qed.

Lemma py_in_same a b l : same_object a b = true -> py_in a l = py_in b l.
Proof.
  intros H. unfold py_in. induction l as [|h t IH]; [reflexivity|].
  simpl. rewrite IH. f_equal.
  destruct (same_object a h) eqn:Ea, (same_object b h) eqn:Eb; try reflexivity.
  - rewrite same_object_sym in H.
    now rewrite (@same_object_trans _ _ _ H Ea) in Eb.
  - now rewrite (@same_object_trans _ _ _ H Eb) in Ea.
Qed.

Lemma distinct_app_one sens s :
  distinct sens = true -> py_in s sens = false -> distinct (sens ++ [s]) = true.
Proof.
  induction sens as [|a t IH]; intros Hd Hs; [reflexivity|].
  simpl in *. apply andb_prop in Hd. destruct Hd as [Ha Hd].
  unfold py_in in Hs. simpl in Hs. apply orb_false_elim in Hs. destruct Hs as [Hsa Hst].
  rewrite CollectionFacts.py_in_app. apply negb_true_iff in Ha. rewrite Ha.
  unfold py_in at 1. simpl. rewrite same_object_sym, Hsa. simpl.
  apply IH; assumption.
Qed.

Lemma addSensor1_distinct s : forall sens,
  distinct sens = true -> distinct (addSensor1 sens s) = true.
Proof.
  induction s using pyobj_nested_ind; intros sens Hd; try exact Hd.
  - simpl. destruct (py_in _ sens) eqn:E; simpl; [exact Hd|].
    now apply distinct_app_one.
  - simpl. destruct (py_in _ sens) eqn:E; simpl; [exact Hd|].
    now apply distinct_app_one.
  - simpl. revert sens Hd.
    induction H as [|c l Hc _ IH]; intros sens Hd; [exact Hd|].
    simpl. apply IH. now apply Hc.
Qed.

Lemma list_remove_absent s l : py_in s l = false -> list_remove s l = l.
Proof.
  induction l as [|h t IH]; intros H; [reflexivity|].
  unfold py_in in H. simpl in H. apply orb_false_elim in H. destruct H as [H1 H2].
  simpl. rewrite H1. f_equal. now apply IH.
Qed.

Lemma list_remove_last s l :
  is_leaf s = true -> py_in s l = false -> list_remove s (l ++ [s]) = l.
Proof.
  intros Hs. induction l as [|h t IH]; intros H.
  - simpl. now rewrite same_object_leaf.
  - unfold py_in in H. simpl in H. apply orb_false_elim in H. destruct H as [H1 H2].
    simpl. rewrite H1. f_equal. now apply IH.
Qed.

Lemma py_in_list_remove s x l :
  py_in x (list_remove s l) = true -> py_in x l = true.
Proof.
  induction l as [|h t IH]; [trivial|].
  simpl. destruct (same_object s h).
  - intros H. unfold py_in in *. simpl. rewrite H. apply orb_true_r.
  - unfold py_in in *. simpl. intros H. apply orb_prop in H.
    destruct H as [H | H]; [now rewrite H | rewrite (IH H); apply orb_true_r].
Qed.

Lemma list_remove_distinct s l :
  distinct l = true ->
  distinct (list_remove s l) = true /\ py_in s (list_remove s l) = false.
Proof.
  induction l as [|h t IH]; intros Hd; [split; reflexivity|].
  simpl in Hd. apply andb_prop in Hd. destruct Hd as [Hh Hd].
  apply negb_true_iff in Hh.
  simpl. destruct (same_object s h) eqn:E.
  - split; [exact Hd|]. now rewrite (@py_in_same _ _ t E).
  - destruct (IH Hd) as [IH1 IH2]. split.
    + simpl. rewrite IH1, andb_true_r. apply negb_true_iff.
      destruct (py_in h (list_remove s t)) eqn:F; [|reflexivity].
      apply py_in_list_remove in F. congruence.
    + unfold py_in in *. simpl. now rewrite E, IH2.
Qed.

Lemma removeSensor_app sens items items' :
  removeSensor sens (items ++ items') = removeSensor (removeSensor sens items) items'.
Proof. unfold removeSensor. apply fold_left_app. Qed.

Lemma removeSensor1_leaves s : forall sens,
  removeSensor1 sens s = removeSensor sens (CollectionFacts.leaves s).
Proof.
  induction s using pyobj_nested_ind; intros sens; try reflexivity.
  simpl. revert sens.
  induction H as [|c l Hc _ IH]; intros sens; [reflexivity|].
  simpl. rewrite removeSensor_app, <- Hc. apply IH.
Qed.

End RemovalFacts.


(** X1.  [addSensor] keeps the child list free of repeated objects: if no
    object occurs twice before the call, none does after it, whatever
    the items; so the list built by the constructor never holds an object
    twice. *)
Theorem addSensor_keeps_distinct :
  forall (sens items : list pyobj) (pos : vec) (ang : Q) (ax : vec),
    (RemovalFacts.distinct sens = true ->
     RemovalFacts.distinct (Collection.addSensor sens items) = true)
    /\ RemovalFacts.distinct (sensors (Collection.__init__ items pos ang ax)) = true.
Proof.
  intros sens items pos ang ax.
  assert (H : forall l acc, RemovalFacts.distinct acc = true ->
                            RemovalFacts.distinct (Collection.addSensor acc l) = true).
  { induction l as [|s l IH]; intros acc Hd; [exact Hd|].
    rewrite CollectionFacts.addSensor_cons. apply IH.
    now apply RemovalFacts.addSensor1_distinct. }
  split; [apply H | apply H; reflexivity].
Qed.

(** X2.  Removing a sensor right after adding it gives back the list as
    it was, when the sensor was not in it;  removing a sensor that is not
    in the list changes nothing;  and [removeSensor] takes a collection
    for the sensors below it, as [addSensor] does. *)
Theorem removeSensor_undoes_addSensor :
  forall (sens : list pyobj) (s : pyobj),
    RemovalFacts.is_leaf s = true ->
    py_in s sens = false ->
    Removal.removeSensor (Collection.addSensor sens [s]) [s] = sens
    /\ Removal.removeSensor sens [s] = sens
    /\ (forall items,
          Removal.removeSensor sens items
          = Removal.removeSensor sens (flat_map CollectionFacts.leaves items)).
Proof.
  intros sens s Hs Hin. repeat split.
  - destruct s; try discriminate; simpl; rewrite Hin; simpl;
      rewrite CollectionFacts.py_in_app, Hin; unfold py_in at 1; simpl;
      unfold same_object at 1; simpl; rewrite Nat.eqb_refl;
      apply RemovalFacts.list_remove_last; auto.
  - destruct s; try discriminate; simpl; now rewrite Hin.
  - intros items. revert sens Hin.
    induction items as [|c items IH]; intros sens Hin; [reflexivity|].
    simpl. rewrite RemovalFacts.removeSensor_app, <- RemovalFacts.removeSensor1_leaves.
    clear IH Hin.
    generalize (Removal.removeSensor1 sens c) as acc.
    induction items as [|c' items IH]; intros acc; [reflexivity|].
    simpl. rewrite RemovalFacts.removeSensor_app, <- RemovalFacts.removeSensor1_leaves.
    apply IH.
Qed.

(** Witness of X2: a sensor added to, and removed from, a list of one. *)
Lemma removeSensor_undoes_addSensor_witness :
  let sens := [PointSensor 1 (mkRCS (0, 0, 0) 0 (0, 0, 1))] in
  let s := SurfSensor 2 (mkSurfaceSensor (mkRCS (1, 0, 0) 0 (0, 0, 1))
                           (0, 0) (1%nat, 1%nat) [] [] []) in
  Removal.removeSensor (Collection.addSensor sens [s]) [s] = sens
  /\ Removal.removeSensor sens [s] = sens
  /\ (forall items,
        Removal.removeSensor sens items
        = Removal.removeSensor sens (flat_map CollectionFacts.leaves items)).
Proof.
  intros sens s.
  apply (@removeSensor_undoes_addSensor sens s); reflexivity.
Defined.

Module RemovalMore.
Import Removal RemovalFacts.

Lemma leaves_are_leaf (s : pyobj) :
  Forall (fun x => is_leaf x = true) (CollectionFacts.leaves s).
Proof.
  induction s using pyobj_nested_ind; simpl; try (repeat constructor).
  induction H as [|c l Hc _ IH]; simpl; [constructor|].
  apply Forall_app. split; assumption.
Qed.

Lemma remove_leaves (L : list pyobj) : forall acc,
  Forall (fun x => is_leaf x = true) L ->
  distinct acc = true ->
  distinct (removeSensor acc L) = true
  /\ (forall s, In s L -> py_in s (removeSensor acc L) = false)
  /\ (forall x, py_in x (removeSensor acc L) = true -> py_in x acc = true).
Proof.
  induction L as [|s L IH]; intros acc HL Hd.
  - repeat split; [exact Hd | intros s [] | trivial].
  - inversion HL as [|? ? Hs HL']; subst.
    assert (Hstep : distinct (removeSensor1 acc s) = true
                    /\ py_in s (removeSensor1 acc s) = false
                    /\ (forall x, py_in x (removeSensor1 acc s) = true ->
                                  py_in x acc = true)).
    { assert (G : removeSensor1 acc s
                  = if py_in s acc then list_remove s acc else acc)
        by (destruct s; try discriminate; reflexivity).
      rewrite G. destruct (py_in s acc) eqn:E.
      - destruct (@list_remove_distinct s acc Hd) as [D1 D2].
        repeat split; [exact D1 | exact D2 | intros x; apply py_in_list_remove].
      - repeat split; [exact Hd | exact E | trivial]. }
    destruct Hstep as [S1 [S2 S3]].
    destruct (IH (removeSensor1 acc s) HL' S1) as [I1 [I2 I3]].
    change (removeSensor acc (s :: L)) with (removeSensor (removeSensor1 acc s) L).
    repeat split; [exact I1 | | ].
    + intros x [<- | Hx]; [|now apply I2].
      destruct (py_in s (removeSensor (removeSensor1 acc s) L)) eqn:E;
        [|reflexivity].
      apply I3 in E. congruence.
    + intros x Hx. apply S3, I3, Hx.
Qed.

End RemovalMore.

(** X3.  On a list that holds no object twice, [removeSensor] leaves
    none of the sensors it was given, directly or inside a collection, and
    adds nothing: the objects that remain were there before, and none
    occurs twice. *)
Theorem removeSensor_removes_every_item :
  forall (sens items : list pyobj),
    RemovalFacts.distinct sens = true ->
    RemovalFacts.distinct (Removal.removeSensor sens items) = true
    /\ (forall s, In s (flat_map CollectionFacts.leaves items) ->
                  py_in s (Removal.removeSensor sens items) = false)
    /\ (forall x, py_in x (Removal.removeSensor sens items) = true ->
                  py_in x sens = true).
Proof.
  intros sens items Hd.
  assert (E : Removal.removeSensor sens items
              = Removal.removeSensor sens (flat_map CollectionFacts.leaves items)).
  { clear Hd. revert sens.
    induction items as [|c items IH]; intros sens; [reflexivity|].
    simpl. rewrite RemovalFacts.removeSensor_app, <- RemovalFacts.removeSensor1_leaves.
    apply IH. }
  rewrite E. apply RemovalMore.remove_leaves; [|exact Hd].
  apply Forall_flat_map. apply Forall_forall. intros c _.
  apply RemovalMore.leaves_are_leaf.
Qed.

(** Witness of X3: a nested collection removed from a list of three. *)
Lemma removeSensor_removes_every_item_witness :
  let p := fun i : nat => PointSensor i (mkRCS (0, 0, 0) 0 (0, 0, 1)) in
  let sens := [p 1%nat; p 2%nat; p 3%nat] in
  let items := [Collection 9 (mkRCS (0, 0, 0) 0 (0, 0, 1)) [p 3%nat; p 1%nat]] in
  RemovalFacts.distinct (Removal.removeSensor sens items) = true
  /\ (forall s, In s (flat_map CollectionFacts.leaves items) ->
                py_in s (Removal.removeSensor sens items) = false)
  /\ (forall x, py_in x (Removal.removeSensor sens items) = true ->
                py_in x sens = true).
Proof.
  intros p sens items.
  apply (@removeSensor_removes_every_item sens items). reflexivity.
Defined.

(** X4.  The operators [+] and [-] hand a Python list to the constructor
    as a single item, which [addSensor] passes over: for a sensor or a
    collection as right operand both return a collection with no children
    at the default placement, whatever the operands hold; for any other
    right operand, a surface sensor included, both raise the
    [AssertionError]. *)
Theorem operators_return_no_children :
  forall (py_str : pyobj -> string) (self : SensorCollection) (other : pyobj),
    let empty := mkSensorCollection (mkRCS (0, 0, 0) 0 (0, 0, 1)) [] in
    let refused :=
      Raise (AssertionError
               (String.append (py_str other)
                  " item must be a SensorCollection or a sensor")) in
    match other with
    | PointSensor _ _ | Collection _ _ _ =>
        Collection.__add__ py_str self other = Ok empty
        /\ Removal.__sub__ py_str self other = Ok empty
    | SurfSensor _ _ | PyList _ | Other _ =>
        Collection.__add__ py_str self other = refused
        /\ Removal.__sub__ py_str self other = refused
    end.
Proof.
  intros py_str self other. destruct other; split; reflexivity.
Qed.

(** ** Moving a collection *)

Module MoveFacts.
Import Collection Placement.

(** The coordinate systems of an object and of everything below it. *)
Fixpoint systems (s : pyobj) : list RCS :=
  match s with
  | PointSensor _ r => [r]
  | SurfSensor _ ss => [ss_rcs ss]
  | Collection _ r children => r :: flat_map systems children
  | PyList _ | Other _ => []
  end.

Lemma Forall2_app_both {A B : Type} (R : A -> B -> Prop) l1 l1' l2 l2' :
  Forall2 R l1 l1' -> Forall2 R l2 l2' -> Forall2 R (l1 ++ l2) (l1' ++ l2').
Proof. induction 1; simpl; auto. Qed.

Section MoveFacts.
Variable RCS_move : RCS -> vec -> RCS.
Hypothesis RCS_move_spec :
  forall r d, RCS_move r d = mkRCS (vadd (position r) d) (angle r) (axis r).

(** [r'] is [r] displaced by [d]. *)
Definition displaced (d : vec) (r r' : RCS) : Prop :=
  position r' = vadd (position r) d /\ angle r' = angle r /\ axis r' = axis r.

Lemma move_child_displaces d (s : pyobj) :
  has_rotate s = true ->
  exists s', move_child RCS_move d s = Ok s'
             /\ object_id s' = object_id s
             /\ Forall2 (displaced d) (systems s) (systems s').
Proof.
  induction s using pyobj_nested_ind; intros Hr; simpl in Hr; try discriminate.
  - eexists. repeat split. simpl. constructor; [|constructor].
    rewrite RCS_move_spec. repeat split.
  - eexists. repeat split. simpl. constructor; [|constructor].
    rewrite RCS_move_spec. repeat split.
  - assert (HL : exists l', mapM (move_child RCS_move d) l = Ok l'
                            /\ Forall2 (displaced d) (flat_map systems l)
                                       (flat_map systems l')).
    { clear r i. induction H as [|c l Hc _ IH].
      - exists []. split; [reflexivity | constructor].
      - simpl in Hr. apply andb_prop in Hr. destruct Hr as [Hr1 Hr2].
        destruct (Hc Hr1) as [c' [E1 [_ F1]]].
        destruct (IH Hr2) as [l' [E2 F2]].
        exists (c' :: l'). simpl. rewrite E1, E2. split; [reflexivity|].
        now apply Forall2_app_both. }
    destruct HL as [l' [E F]].
    exists (Collection i (RCS_move r d) l'). simpl. rewrite E.
    repeat split. constructor; [|exact F].
    rewrite RCS_move_spec. repeat split.
Qed.

Lemma move_children_displaces d (l : list pyobj) :
  forallb has_rotate l = true ->
  exists l', mapM (move_child RCS_move d) l = Ok l'
             /\ map object_id l' = map object_id l
             /\ Forall2 (displaced d) (flat_map systems l) (flat_map systems l').
Proof.
  induction l as [|c l IH]; intros Hr.
  - exists []. repeat split. constructor.
  - simpl in Hr. apply andb_prop in Hr. destruct Hr as [Hr1 Hr2].
    destruct (move_child_displaces d c Hr1) as [c' [E1 [I1 F1]]].
    destruct (IH Hr2) as [l' [E2 [I2 F2]]].
    exists (c' :: l'). simpl. rewrite E1, E2, I1, I2. repeat split.
    now apply Forall2_app_both.
Qed.

End MoveFacts.

End MoveFacts.


(** X5.  With [RCS.move] adding the displacement to the position,
    assigning [P] to the [position] of a collection whose descendants are
    all sensors, surface sensors or collections succeeds; afterwards the
    collection reads [P] as a number, it keeps the same children, and each
    descendant has the place it had relative to the collection, with its
    angle and axis untouched. *)
Theorem position_setter_translates_rigidly :
  forall (RCS_move : RCS -> vec -> RCS) (self : SensorCollection) (P : vec),
    (forall r d, RCS_move r d = mkRCS (vadd (position r) d) (angle r) (axis r)) ->
    forallb has_rotate (sensors self) = true ->
    exists self',
      Placement.set_position RCS_move self P = Ok self'
      /\ veq (position (rcs self')) P
      /\ map object_id (sensors self') = map object_id (sensors self)
      /\ Forall2 (fun r r' =>
                    veq (vsub (position r') (position (rcs self')))
                        (vsub (position r) (position (rcs self)))
                    /\ angle r' = angle r /\ axis r' = axis r)
                 (flat_map MoveFacts.systems (sensors self))
                 (flat_map MoveFacts.systems (sensors self')).
Proof.
  intros RCS_move [r l] P Hm Hl. unfold Placement.set_position, Placement.move.
  cbn [rcs sensors] in *.
  destruct (@MoveFacts.move_children_displaces RCS_move Hm (vsub P (position r)) l Hl)
    as [l' [E [I F]]].
  rewrite E. cbn [bind]. eexists. split; [reflexivity|]. cbn [rcs sensors].
  rewrite Hm. cbn [position].
  assert (HP : veq (vadd (position r) (vsub P (position r))) P).
  { destruct (position r) as [[a b] c], P as [[x y] z].
    unfold veq, vadd, vsub, vx, vy, vz; cbn [fst snd]. repeat split; ring. }
  repeat split; [apply HP .. | exact I |].
  eapply Forall2_impl; [|exact F].
  intros a b [H1 [H2 H3]]. repeat split; [| | | exact H2 | exact H3];
    rewrite H1;
    destruct (position a) as [[a1 a2] a3], (position r) as [[r1 r2] r3],
             P as [[x y] z];
    unfold veq, vadd, vsub, vx, vy, vz; cbn [fst snd]; ring.
Qed.

(** Witness of X5: a collection at (1,0,0) holding a sensor at (2,0,0),
    sent to (5,5,5). *)
Lemma position_setter_translates_rigidly_witness :
  let RCS_move := fun (r : RCS) (d : vec) =>
                    mkRCS (vadd (position r) d) (angle r) (axis r) in
  let self := mkSensorCollection (mkRCS (1, 0, 0) 0 (0, 0, 1))
                [PointSensor 1%nat (mkRCS (2, 0, 0) 0 (0, 0, 1))] in
  exists self',
    Placement.set_position RCS_move self (5, 5, 5) = Ok self'
    /\ veq (position (rcs self')) (5, 5, 5)
    /\ map object_id (sensors self') = map object_id (sensors self)
    /\ Forall2 (fun r r' =>
                  veq (vsub (position r') (position (rcs self')))
                      (vsub (position r) (position (rcs self)))
                  /\ angle r' = angle r /\ axis r' = axis r)
               (flat_map MoveFacts.systems (sensors self))
               (flat_map MoveFacts.systems (sensors self')).
Proof.
  intros RCS_move self.
  apply (@position_setter_translates_rigidly RCS_move self (5, 5, 5)).
  - intros r d. reflexivity.
  - reflexivity.
Defined.

Lemma Qopp_opp_eq (q : Q) : - - q = q.
Proof. destruct q as [n d]. unfold Qopp. simpl. now rewrite Z.opp_involutive. Qed.

(** X6.  With [RCS.rotate] undone by the opposite rotation about the same
    point, and leaving its own pivot in place, assigning a collection's
    [axis] the value it already has succeeds and brings the collection
    and every descendant back to where it was, within the tolerance of the
    rotation primitive. *)
Theorem axis_setter_same_axis_restores :
  forall (RCS_rotate : RCS -> Q -> vec -> anchor_arg -> RCS)
         (close : RCS -> RCS -> Prop) (self : SensorCollection),
    (forall r theta ax a,
        close (RCS_rotate (RCS_rotate r theta ax (AnchorAt a)) (- theta) ax
                          (AnchorAt a)) r) ->
    (forall r theta ax,
        position (RCS_rotate r theta ax (AnchorAt (position r))) = position r) ->
    forallb has_rotate (sensors self) = true ->
    exists self',
      Placement.set_axis RCS_rotate self (axis (rcs self)) = Ok self'
      /\ close (rcs self') (rcs self)
      /\ Forall2 (close_obj close) (sensors self') (sensors self).
Proof.
  intros RCS_rotate close [r l] Hback Hpivot Hl.
  unfold Placement.set_axis, Collection.rotate. cbn [rcs sensors] in *.
  cbn [Collection.resolve_anchor].
  destruct (@rotate_children_back RCS_rotate close Hback (- angle r) (axis r)
              (position r) l Hl) as [l1 [l2 [F1 [F2 HF]]]].
  rewrite F1. cbn [bind rcs sensors]. rewrite Hpivot.
  rewrite Qopp_opp_eq in F2. rewrite F2. cbn [bind].
  eexists. split; [reflexivity|]. cbn [rcs sensors]. split; [|exact HF].
  pose proof (Hback r (- angle r) (axis r) (position r)) as H.
  now rewrite Qopp_opp_eq in H.
Qed.

(** Witness of X6: a primitive that turns a coordinate system in place. *)
Lemma axis_setter_same_axis_restores_witness :
  let turn := fun (r : RCS) (theta : Q) (_ : vec) (_ : anchor_arg) =>
                mkRCS (position r) (angle r + theta) (axis r) in
  let agree := fun r r' : RCS =>
                 veq (position r) (position r') /\ angle r == angle r'
                 /\ veq (axis r) (axis r') in
  let self := mkSensorCollection (mkRCS (0, 0, 0) 45 (0, 0, 1))
                [PointSensor 1 (mkRCS (1, 0, 0) 0 (0, 0, 1));
                 Collection 2 (mkRCS (0, 0, 0) 0 (0, 0, 1))
                   [PointSensor 3 (mkRCS (0, 1, 0) 30 (0, 0, 1))]] in
  exists self',
    Placement.set_axis turn self (axis (rcs self)) = Ok self'
    /\ agree (rcs self') (rcs self)
    /\ Forall2 (close_obj agree) (sensors self') (sensors self).
Proof.
  intros turn agree self.
  apply (@axis_setter_same_axis_restores turn agree self).
  - intros r theta ax a. unfold agree, turn, veq. simpl.
    repeat split; try reflexivity. ring.
  - reflexivity.
  - reflexivity.
Defined.

(** ** Broadcasting and superposition in [getBarray] *)

(** X7.  Broadcasting in [getBarray], for at least one source and [n]
    query points.  A scalar [ANG] gives the result of the call with the
    array of [n] copies of it, and one more warning in front.  An [AXIS]
    whose number of rows is not [n] gives the result of the call with [n]
    copies of its first row, and one more warning at the end; when it has
    no row at all the call raises [IndexError]. *)
Theorem getBarray_broadcasts :
  forall (rot : vec -> Q -> vec -> vec)
         (rotV : list vec -> list Q -> list vec -> list vec -> list vec)
         (s : source) (sources : list source) (POS : posarray),
    let n := length (rows POS) in
    let call := Aggregate.getBarray rot rotV (s :: sources) POS in
    (forall (a : Q) (AXIS : list vec),
        call (ANG_scalar a) AXIS
        = (ANG_length_warning n :: fst (call (ANG_array (repeat a n)) AXIS),
           snd (call (ANG_array (repeat a n)) AXIS)))
    /\ (forall (ANG : ANG_arg) (a0 : vec) (AXIS : list vec),
           length (a0 :: AXIS) <> n ->
           call ANG (a0 :: AXIS)
           = (fst (call ANG (repeat a0 n))
                ++ [AXIS_length_warning (length (a0 :: AXIS)) n],
              snd (call ANG (repeat a0 n))))
    /\ (forall (ANG : ANG_arg),
           n <> 0%nat -> snd (call ANG []) = Raise IndexError).
Proof.
  intros rot rotV s sources POS n call. unfold call, Aggregate.getBarray.
  cbn [length Nat.ltb Nat.leb]. fold n. repeat split.
  - intros a AXIS. destruct (negb (length AXIS =? n)%nat); reflexivity.
  - intros ANG a0 AXIS Hn.
    apply Nat.eqb_neq in Hn. cbn [length] in Hn. rewrite Hn. cbn [negb].
    rewrite repeat_length, Nat.eqb_refl. cbn [negb].
    destruct ANG; reflexivity.
  - intros ANG Hn. cbn [length].
    destruct n as [|m]; [congruence|]. cbn [Nat.eqb negb].
    destruct ANG; reflexivity.
Qed.

Lemma Forall2_veq_refl (l : list vec) : Forall2 veq l l.
Proof.
  induction l as [|v l IH]; constructor; [|exact IH].
  unfold veq. repeat split; reflexivity.
Qed.

(** X8.  Superposition, when the first of two sources leaves the query
    array alone (a magpylib source) and the rotation primitive, about
    anchors that are zero, is additive: if the two sources return batches
    of the same length, the field of the pair is, row by row, the sum of
    the fields of the two sources taken one at a time, with the shape of
    [POS].  The second source may be a [DiscreteSourceBox]. *)
Theorem getBarray_superposition_first_source_fixed :
  forall (rot : vec -> Q -> vec -> vec)
         (rotV : list vec -> list Q -> list vec -> list vec -> list vec)
         (fA : list vec -> list vec) (B : source) (POS : posarray)
         (ANG : ANG_arg) (AXIS : list vec) (b : list vec) (rA rB : posarray),
    (forall U V ANG1 AXIS1 ANCHOR,
        length U = length V ->
        Forall (fun a => veq a (0, 0, 0)) ANCHOR ->
        Forall2 veq (rotV (Aggregate.add_rows U V) ANG1 AXIS1 ANCHOR)
                (Aggregate.add_rows (rotV U ANG1 AXIS1 ANCHOR)
                                    (rotV V ANG1 AXIS1 ANCHOR))) ->
    snd (Aggregate.source_getB rot B (rows POS)) = Ok (Batch b) ->
    length (fA (rows POS)) = length b ->
    snd (Aggregate.getBarray rot rotV [MagpylibSource fA] POS ANG AXIS) = Ok rA ->
    snd (Aggregate.getBarray rot rotV [B] POS ANG AXIS) = Ok rB ->
    exists rAB,
      snd (Aggregate.getBarray rot rotV [MagpylibSource fA; B] POS ANG AXIS)
      = Ok rAB
      /\ lead rAB = lead POS
      /\ Forall2 veq (rows rAB) (Aggregate.add_rows (rows rA) (rows rB)).
Proof.
  intros rot rotV fA B POS ANG AXIS b rA rB Hadd HB Hlen HA HB'.
  unfold Aggregate.getBarray in *. cbn [length Nat.ltb Nat.leb] in *.
  destruct (match ANG with
            | ANG_scalar a => ([ANG_length_warning (length (rows POS))],
                               repeat a (length (rows POS)))
            | ANG_array l => ([], l)
            end) as [w1 ANG1].
  destruct (if negb (length AXIS =? length (rows POS))%nat
            then (w1 ++ [AXIS_length_warning (length AXIS) (length (rows POS))],
                  match AXIS with
                  | [] => Raise IndexError
                  | a0 :: _ => Ok (repeat a0 (length (rows POS)))
                  end)
            else (w1, Ok AXIS)) as [w2 [AXIS2|e]]; [|discriminate].
  cbn [snd bind] in *.
  cbn [Aggregate.getB_each Aggregate.source_getB] in *.
  destruct (Aggregate.source_getB rot B (rows POS)) as [P1 rb].
  cbn [snd] in HB. subst rb.
  cbn [snd bind Aggregate.stack_sum forallb Aggregate.same_shape
       Aggregate.ndarray_rows fold_left] in *.
  rewrite Hlen, Nat.eqb_refl. cbn [andb bind].
  injection HA as <-. injection HB' as <-.
  eexists. split; [reflexivity|]. cbn [lead rows]. split; [reflexivity|].
  apply Hadd; [exact Hlen|].
  apply Forall_forall. intros a Ha. apply in_map_iff in Ha.
  destruct Ha as [[[x y] z] [<- _]].
  unfold veq, vscale, vx, vy, vz; cbn [fst snd]. repeat split; ring.
Qed.

(** Witness of X8: a uniform magpylib field in front of the tabulated
    source [source_B], with a rotation primitive that leaves the field as
    it is. *)
Lemma getBarray_superposition_first_source_fixed_witness :
  let fA := fun P : list vec => map (fun _ => (0, 0, 1)) P in
  let alone := fun s : source =>
    match snd (Aggregate.getBarray Examples.no_rotation Examples.no_rotationV
                 [s] Examples.query (ANG_array [0; 0]) Examples.query_axes) with
    | Ok r => r
    | Raise _ => mkPosarray [] []
    end in
  exists rAB,
    snd (Aggregate.getBarray Examples.no_rotation Examples.no_rotationV
           [MagpylibSource fA; Examples.source_B]
           Examples.query (ANG_array [0; 0]) Examples.query_axes)
    = Ok rAB
    /\ lead rAB = lead Examples.query
    /\ Forall2 veq (rows rAB)
         (Aggregate.add_rows (rows (alone (MagpylibSource fA)))
                             (rows (alone Examples.source_B))).
Proof.
  intros fA alone.
  refine (@getBarray_superposition_first_source_fixed
            Examples.no_rotation Examples.no_rotationV fA Examples.source_B
            Examples.query (ANG_array [0; 0]) Examples.query_axes
            (match snd (Aggregate.source_getB Examples.no_rotation
                          Examples.source_B (rows Examples.query)) with
             | Ok (Batch b) => b
             | _ => []
             end) _ _ _ _ _ _ _).
  - intros U V ANG1 AXIS1 ANCHOR _ _. apply Forall2_veq_refl.
  - vm_compute. reflexivity.
  - vm_compute. reflexivity.
  - vm_compute. reflexivity.
  - vm_compute. reflexivity.
Defined.

(** ** The constructor of the discrete source on any table *)

Module SourceFacts.
Import Discrete DiscreteFacts.

Lemma interpolate_data_inv (df : list Row) (be : option bool) (fv : option Q) f :
  _interpolate_data df be fv = Ok f ->
  exists X Y Z,
    f = (mkRGI X Y Z (map rBx df) be fv,
         mkRGI X Y Z (map rBy df) be fv,
         mkRGI X Y Z (map rBz df) be fv)
    /\ axis_grid (map rx df) = Ok X
    /\ axis_grid (map ry df) = Ok Y
    /\ axis_grid (map rz df) = Ok Z
    /\ length X = length (np_unique (map rx df))
    /\ length Y = length (np_unique (map ry df))
    /\ length Z = length (np_unique (map rz df))
    /\ length df = (length X * length Y * length Z)%nat.
Proof.
  unfold _interpolate_data, axis_grid.
  destruct (np_min (map rx df)) as [xmin|]; [|discriminate].
  destruct (np_max (map rx df)) as [xmax|]; [|discriminate].
  destruct (np_min (map ry df)) as [ymin|]; [|discriminate].
  destruct (np_max (map ry df)) as [ymax|]; [|discriminate].
  destruct (np_min (map rz df)) as [zmin|]; [|discriminate].
  destruct (np_max (map rz df)) as [zmax|]; [|discriminate].
  cbn [bind].
  destruct (Nat.eqb _ _) eqn:E; [|discriminate].
  intros H. injection H as <-. apply Nat.eqb_eq in E.
  do 3 eexists. split; [reflexivity|].
  rewrite !linspace_length. repeat split. exact E.
Qed.

Lemma init_inv (data : list Row) (be : option bool) (fv : option Q)
      (pos : vec) (ang : Q) (ax : vec) (d : DiscreteSourceBox) :
  __init__ data be fv pos ang ax = Ok d ->
  exists mx Mx my My mz Mz f,
    np_min (map rx (sort_values data)) = Ok mx
    /\ np_max (map rx (sort_values data)) = Ok Mx
    /\ np_min (map ry (sort_values data)) = Ok my
    /\ np_max (map ry (sort_values data)) = Ok My
    /\ np_min (map rz (sort_values data)) = Ok mz
    /\ np_max (map rz (sort_values data)) = Ok Mz
    /\ _interpolate_data (sort_values data) be fv = Ok f
    /\ d = mkDiscreteSourceBox (Mx - mx, My - my, Mz - mz)
             ((1 # 2) * (Mx + mx), (1 # 2) * (My + my), (1 # 2) * (Mz + mz))
             (vadd ((1 # 2) * (Mx + mx), (1 # 2) * (My + my), (1 # 2) * (Mz + mz))
                   pos)
             (0, 0, 0) ang ax f (sort_values data).
Proof.
  unfold __init__.
  destruct (np_min (map rx _)) as [mx|]; [|discriminate].
  destruct (np_max (map rx _)) as [Mx|]; [|discriminate].
  destruct (np_min (map ry _)) as [my|]; [|discriminate].
  destruct (np_max (map ry _)) as [My|]; [|discriminate].
  destruct (np_min (map rz _)) as [mz|]; [|discriminate].
  destruct (np_max (map rz _)) as [Mz|]; [|discriminate].
  cbn [bind].
  destruct (_interpolate_data _ be fv) as [f|]; [|discriminate].
  cbn [bind]. intros H. injection H as <-.
  exists mx, Mx, my, My, mz, Mz, f. repeat split.
Qed.

Lemma np_min_bounds (col : list Q) (m : Q) :
  np_min col = Ok m ->
  (forall x, In x col -> m <= x) /\ exists x, In x col /\ m == x.
Proof.
  destruct col as [|a t]; [discriminate|]. simpl. intros H. injection H as <-.
  apply fold_min_spec.
Qed.

Lemma np_max_bounds (col : list Q) (M : Q) :
  np_max col = Ok M ->
  (forall x, In x col -> x <= M) /\ exists x, In x col /\ M == x.
Proof.
  destruct col as [|a t]; [discriminate|]. simpl. intros H. injection H as <-.
  apply fold_max_spec.
Qed.

Lemma in_sorted_column (c : Row -> Q) (data : list Row) (x : Q) :
  In x (map c (sort_values data)) <-> In x (map c data).
Proof.
  split; intros H; apply in_map_iff in H; destruct H as [r [<- Hr]];
    apply in_map; [apply (Permutation_in _ (sort_values_perm data)) |
                   apply (Permutation_in _ (Permutation_sym (sort_values_perm data)))];
    exact Hr.
Qed.

Lemma np_unique_spec (col : list Q) :
  StronglySorted Qlt (np_unique col)
  /\ (forall a, In a (np_unique col) -> In a col)
  /\ (forall a, In a col -> exists b, In b (np_unique col) /\ a == b).
Proof.
  unfold np_unique.
  destruct (dedup_spec (sortQ_sorted col)) as [H1 [H2 H3]].
  repeat split; [exact H1 | |].
  - intros a Ha. eapply Permutation_in; [apply sortQ_perm | now apply H2].
  - intros a Ha. apply H3.
    eapply Permutation_in; [apply Permutation_sym, sortQ_perm | exact Ha].
Qed.

(** The number of distinct values does not depend on the order of the
    column. *)
Lemma np_unique_perm_length (col col' : list Q) :
  Permutation col col' ->
  length (np_unique col) = length (np_unique col').
Proof.
  intros HP.
  destruct (np_unique_spec col') as [H1 [H2 H3]].
  apply (@Forall2_length _ _ Qeq).
  apply np_unique_values; [exact H1 | |].
  - intros a Ha. apply H3. eapply Permutation_in; [exact HP | exact Ha].
  - intros b Hb. exists b. split; [|reflexivity].
    eapply Permutation_in; [apply Permutation_sym, HP | now apply H2].
Qed.

Lemma unique_sorted_column (c : Row -> Q) (data : list Row) :
  length (np_unique (map c (sort_values data)))
  = length (np_unique (map c data)).
Proof. apply np_unique_perm_length, Permutation_map, sort_values_perm. Qed.

End SourceFacts.

(** X9.  What the constructor does with a table.  It fails on an empty
    table, in [np.min]; it fails in [reshape] on a table whose number of
    rows is not the product of the numbers of distinct [x], [y] and [z]
    values; on every other table it succeeds and keeps the sorted table, so
    it succeeds exactly on the non-empty tables with that many rows. *)
Theorem constructor_outcome :
  forall (data : list Row) (be : option bool) (fv : option Q)
         (pos : vec) (ang : Q) (ax : vec),
    let cells := (length (Discrete.np_unique (map rx data))
                  * length (Discrete.np_unique (map ry data))
                  * length (Discrete.np_unique (map rz data)))%nat in
    match Discrete.__init__ data be fv pos ang ax with
    | Ok d =>
        data <> [] /\ length data = cells
        /\ Discrete.dataframe d = Discrete.sort_values data
    | Raise e =>
        (data = []
         /\ e = ValueError "zero-size array to reduction operation minimum")
        \/ (data <> [] /\ length data <> cells
            /\ e = ValueError "cannot reshape array")
    end.
Proof.
  intros data be fv pos ang ax cells. subst cells.
  rewrite <- (SourceFacts.unique_sorted_column rx data),
    <- (SourceFacts.unique_sorted_column ry data),
    <- (SourceFacts.unique_sorted_column rz data).
  pose proof (Permutation_length (DiscreteFacts.sort_values_perm data)) as Hlen.
  destruct data as [|r data].
  - left. split; reflexivity.
  - assert (Hne : r :: data <> []) by discriminate.
    unfold Discrete.__init__, Discrete._interpolate_data.
    destruct (Discrete.sort_values (r :: data)) as [|r0 t] eqn:Edf;
      [discriminate|].
    cbn [map Discrete.np_min Discrete.np_max bind].
    rewrite <- Edf in *. clear Edf.
    destruct (Nat.eqb _ _) eqn:E; cbn [bind].
    + apply Nat.eqb_eq in E. repeat split; [exact Hne | congruence].
    + apply Nat.eqb_neq in E. right. repeat split; [exact Hne | congruence].
Qed.

(** X10.  The table that a constructed source keeps is the given table
    with its rows rearranged in the order of [(x, y, z)]: the given rows
    need not be sorted, none is lost and none is added. *)
Theorem constructor_sorts_rows :
  forall (data : list Row) (be : option bool) (fv : option Q)
         (pos : vec) (ang : Q) (ax : vec) (d : Discrete.DiscreteSourceBox),
    Discrete.__init__ data be fv pos ang ax = Ok d ->
    Permutation (Discrete.dataframe d) data
    /\ StronglySorted
         (fun a b =>
            rx a < rx b
            \/ (rx a == rx b
                /\ (ry a < ry b \/ (ry a == ry b /\ rz a <= rz b))))
         (Discrete.dataframe d).
Proof.
  intros data be fv pos ang ax d H.
  apply SourceFacts.init_inv in H.
  destruct H as [mx [Mx [my [My [mz [Mz [f [_ [_ [_ [_ [_ [_ [_ ->]]]]]]]]]]]]]].
  cbn [Discrete.dataframe]. split; [apply DiscreteFacts.sort_values_perm|].
  pose proof (DiscreteFacts.sort_values_sorted data) as HS.
  induction HS as [|a l _ IH Ha]; constructor; [exact IH|].
  eapply Forall_impl; [|exact Ha].
  intros b Hb. now apply DiscreteFacts.key_le_iff.
Qed.

(** Witness of X10: the unit cube given in reverse order. *)
Lemma constructor_sorts_rows_witness :
  let data := rev Examples.table_Bx in
  let d := Examples.box data (1, 0, 0) 0 in
  Permutation (Discrete.dataframe d) data
  /\ StronglySorted
       (fun a b =>
          rx a < rx b
          \/ (rx a == rx b
              /\ (ry a < ry b \/ (ry a == ry b /\ rz a <= rz b))))
       (Discrete.dataframe d).
Proof.
  intros data d.
  apply (@constructor_sorts_rows data None None (1, 0, 0) 0 (0, 0, 1) d).
  vm_compute. reflexivity.
Defined.

(** X11.  The box of a constructed source: every row of the table lies
    between the faces [_center - dimension/2] and [_center + dimension/2]
    on each axis, each face is met by some row, and [position] is
    [_center + pos]. *)
Theorem constructor_bounding_box :
  forall (data : list Row) (be : option bool) (fv : option Q)
         (pos : vec) (ang : Q) (ax : vec) (d : Discrete.DiscreteSourceBox),
    Discrete.__init__ data be fv pos ang ax = Ok d ->
    let lo := fun c : vec -> Q =>
                c (Discrete._center d) - (1 # 2) * c (Discrete.dimension d) in
    let hi := fun c : vec -> Q =>
                c (Discrete._center d) + (1 # 2) * c (Discrete.dimension d) in
    (forall r, In r data ->
               lo vx <= rx r <= hi vx /\ lo vy <= ry r <= hi vy
               /\ lo vz <= rz r <= hi vz)
    /\ (exists r, In r data /\ rx r == lo vx)
    /\ (exists r, In r data /\ rx r == hi vx)
    /\ (exists r, In r data /\ ry r == lo vy)
    /\ (exists r, In r data /\ ry r == hi vy)
    /\ (exists r, In r data /\ rz r == lo vz)
    /\ (exists r, In r data /\ rz r == hi vz)
    /\ Discrete.position d = vadd (Discrete._center d) pos.
Proof.
  intros data be fv pos ang ax d H lo hi.
  apply SourceFacts.init_inv in H.
  destruct H as [mx [Mx [my [My [mz [Mz [f
    [Hmx [HMx [Hmy [HMy [Hmz [HMz [_ ->]]]]]]]]]]]]]].
  subst lo hi.
  cbn [Discrete._center Discrete.dimension Discrete.position vx vy vz fst snd].
  apply SourceFacts.np_min_bounds in Hmx, Hmy, Hmz.
  apply SourceFacts.np_max_bounds in HMx, HMy, HMz.
  destruct Hmx as [Lx [ax0 [Ix Ex]]], HMx as [Ux [bx0 [Jx Fx]]].
  destruct Hmy as [Ly [ay0 [Iy Ey]]], HMy as [Uy [by0 [Jy Fy]]].
  destruct Hmz as [Lz [az0 [Iz Ez]]], HMz as [Uz [bz0 [Jz Fz]]].
  assert (Hin : forall (c : Row -> Q) r, In r data ->
                                         In (c r) (map c (Discrete.sort_values data))).
  { intros c r Hr. apply (proj2 (SourceFacts.in_sorted_column c data (c r))).
    now apply in_map. }
  assert (Hex : forall (c : Row -> Q) x (v : Q),
             In x (map c (Discrete.sort_values data)) -> x == v ->
             exists r, In r data /\ c r == v).
  { intros c x v Hx Hv.
    apply (proj1 (SourceFacts.in_sorted_column c data x)) in Hx.
    apply in_map_iff in Hx. destruct Hx as [r [E Hr]]. exists r.
    split; [exact Hr | now rewrite E]. }
  split.
  { intros r Hr.
    pose proof (Lx _ (Hin rx r Hr)). pose proof (Ux _ (Hin rx r Hr)).
    pose proof (Ly _ (Hin ry r Hr)). pose proof (Uy _ (Hin ry r Hr)).
    pose proof (Lz _ (Hin rz r Hr)). pose proof (Uz _ (Hin rz r Hr)).
    repeat split; lra. }
  split; [apply (Hex rx ax0); [exact Ix | lra]|].
  split; [apply (Hex rx bx0); [exact Jx | lra]|].
  split; [apply (Hex ry ay0); [exact Iy | lra]|].
  split; [apply (Hex ry by0); [exact Jy | lra]|].
  split; [apply (Hex rz az0); [exact Iz | lra]|].
  split; [apply (Hex rz bz0); [exact Jz | lra]|].
  reflexivity.
Qed.

(** Witness of X11: the unit cube, placed at (1,0,0). *)
Lemma constructor_bounding_box_witness :
  let data := Examples.table_Bx in
  let d := Examples.box data (1, 0, 0) 0 in
  let lo := fun c : vec -> Q =>
              c (Discrete._center d) - (1 # 2) * c (Discrete.dimension d) in
  let hi := fun c : vec -> Q =>
              c (Discrete._center d) + (1 # 2) * c (Discrete.dimension d) in
  (forall r, In r data ->
             lo vx <= rx r <= hi vx /\ lo vy <= ry r <= hi vy
             /\ lo vz <= rz r <= hi vz)
  /\ (exists r, In r data /\ rx r == lo vx)
  /\ (exists r, In r data /\ rx r == hi vx)
  /\ (exists r, In r data /\ ry r == lo vy)
  /\ (exists r, In r data /\ ry r == hi vy)
  /\ (exists r, In r data /\ rz r == lo vz)
  /\ (exists r, In r data /\ rz r == hi vz)
  /\ Discrete.position d = vadd (Discrete._center d) (1, 0, 0).
Proof.
  intros data d.
  apply (@constructor_bounding_box data None None (1, 0, 0) 0 (0, 0, 1) d).
  vm_compute. reflexivity.
Defined.

(** ** Interpolation away from the nodes *)

Module InterpFacts.
Import Discrete DiscreteFacts.

(** Both ends of the cell that [find_index] returns are nodes of the
    grid. *)
Lemma find_index_cell (G : list Q) (q : Q) :
  (1 <= length G)%nat ->
  (py_index (length G) (fst (find_index G q)) < length G)%nat
  /\ (py_index (length G) (fst (find_index G q) + 1) < length G)%nat.
Proof.
  intros HL. rewrite find_index_fst. unfold py_index.
  set (k := searchsorted G q).
  destruct (Z.ltb_spec (Z.min (Z.max (Z.of_nat k - 1) 0)
                              (Z.of_nat (length G) - 2)) 0);
    destruct (Z.ltb_spec (Z.min (Z.max (Z.of_nat k - 1) 0)
                                (Z.of_nat (length G) - 2) + 1) 0); lia.
Qed.

Lemma nth_Forall (P : Q -> Prop) (l : list Q) (i : nat) :
  Forall P l -> (i < length l)%nat -> P (nth i l 0).
Proof.
  intros H. revert i. induction H as [|a l Ha _ IH]; intros i Hi.
  - simpl in Hi. lia.
  - destruct i as [|i]; [exact Ha|]. apply IH. simpl in Hi. lia.
Qed.

Lemma value_at_const (f : RegularGridInterpolator) (c : Q) (a b k : Z) :
  Forall (fun v => v == c) (values f) ->
  length (values f)
  = (length (gridX f) * length (gridY f) * length (gridZ f))%nat ->
  (py_index (length (gridX f)) a < length (gridX f))%nat ->
  (py_index (length (gridY f)) b < length (gridY f))%nat ->
  (py_index (length (gridZ f)) k < length (gridZ f))%nat ->
  value_at f (a, b, k) == c.
Proof.
  intros HF HL Ha Hb Hk. unfold value_at.
  apply (@nth_Forall (fun v => v == c)); [exact HF|].
  rewrite HL.
  set (nx := length (gridX f)) in *. set (ny := length (gridY f)) in *.
  set (nz := length (gridZ f)) in *.
  set (a' := py_index nx a) in *. set (b' := py_index ny b) in *.
  set (k' := py_index nz k) in *.
  assert (H1 : (a' * ny + b' + 1 <= nx * ny)%nat) by nia.
  assert (H2 : ((a' * ny + b' + 1) * nz <= nx * ny * nz)%nat)
    by (apply Nat.mul_le_mono_r; exact H1).
  lia.
Qed.

Lemma evaluate_linear_const (f : RegularGridInterpolator)
      (ix iy iz : Z) (yx yy yz c : Q) :
  (forall a b k,
      (a = ix \/ a = (ix + 1)%Z) -> (b = iy \/ b = (iy + 1)%Z) ->
      (k = iz \/ k = (iz + 1)%Z) ->
      value_at f (a, b, k) == c) ->
  evaluate_linear f ix iy iz yx yy yz == c.
Proof.
  intros H. unfold evaluate_linear, edges.
  cbn [flat_map map app fold_left].
  rewrite !edge_weight_lo, !edge_weight_hi.
  rewrite (H ix iy iz), (H ix iy (iz + 1)%Z), (H ix (iy + 1)%Z iz),
    (H ix (iy + 1)%Z (iz + 1)%Z), (H (ix + 1)%Z iy iz),
    (H (ix + 1)%Z iy (iz + 1)%Z), (H (ix + 1)%Z (iy + 1)%Z iz),
    (H (ix + 1)%Z (iy + 1)%Z (iz + 1)%Z); auto.
  ring.
Qed.

(** The value at any point is the common value of the nodes: inside the
    grid under every policy, and outside it when the interpolator
    extrapolates. *)
Lemma interp_point_const (f : RegularGridInterpolator) (p : vec) (c : Q) :
  (1 <= length (gridX f))%nat -> (1 <= length (gridY f))%nat ->
  (1 <= length (gridZ f))%nat ->
  length (values f)
  = (length (gridX f) * length (gridY f) * length (gridZ f))%nat ->
  Forall (fun v => v == c) (values f) ->
  out_of_bounds f p = false
  \/ (bounds_error f <> Some true /\ fill_value f = None) ->
  exists v, interp_point f p = Ok v /\ v == c.
Proof.
  intros LX LY LZ HL HF Hpol. unfold interp_point.
  destruct (find_index_cell (gridX f) (vx p) LX) as [Bx Bx'].
  destruct (find_index_cell (gridY f) (vy p) LY) as [By By'].
  destruct (find_index_cell (gridZ f) (vz p) LZ) as [Bz Bz'].
  destruct (find_index (gridX f) (vx p)) as [ix yx].
  destruct (find_index (gridY f) (vy p)) as [iy yy].
  destruct (find_index (gridZ f) (vz p)) as [iz yz].
  cbn [fst] in *.
  assert (Hv : evaluate_linear f ix iy iz yx yy yz == c).
  { apply evaluate_linear_const. intros a b k Ha Hb Hk.
    apply value_at_const; [exact HF | exact HL | | |].
    - destruct Ha as [-> | ->]; assumption.
    - destruct Hb as [-> | ->]; assumption.
    - destruct Hk as [-> | ->]; assumption. }
  destruct Hpol as [Hin | [Hbe Hfv]].
  - rewrite Hin.
    destruct (bounds_error f) as [[|]|]; destruct (fill_value f) as [fv|];
      eexists; (split; [reflexivity | exact Hv]).
  - rewrite Hfv.
    destruct (bounds_error f) as [[|]|]; [congruence | |];
      eexists; (split; [reflexivity | exact Hv]).
Qed.

Lemma mapM_interp_const (f : RegularGridInterpolator) (c : Q) (P : list vec) :
  (forall p, In p P -> exists v, interp_point f p = Ok v /\ v == c) ->
  exists l, mapM (interp_point f) P = Ok l
            /\ length l = length P /\ Forall (fun v => v == c) l.
Proof.
  induction P as [|p P IH]; intros H.
  - exists []. repeat split. constructor.
  - destruct (H p (or_introl eq_refl)) as [v [Ev Hv]].
    destruct IH as [l [El [Hl HF]]]; [intros q Hq; apply H; now right|].
    exists (v :: l). simpl. rewrite Ev, El. simpl.
    repeat split; [now rewrite Hl | now constructor].
Qed.

Lemma combine3_const (bx by_ bz : list Q) (c : vec) (n : nat) :
  length bx = n -> length by_ = n -> length bz = n ->
  Forall (fun v => v == vx c) bx -> Forall (fun v => v == vy c) by_ ->
  Forall (fun v => v == vz c) bz ->
  let B := map (fun t : Q * Q * Q => (fst (fst t), snd (fst t), snd t))
               (combine (combine bx by_) bz) in
  length B = n /\ Forall (fun v => veq v c) B.
Proof.
  revert by_ bz n.
  induction bx as [|x bx IH]; intros [|y by_] [|z bz] n Lx Ly Lz Fx Fy Fz;
    simpl in *; subst n; try discriminate; [split; [reflexivity | constructor]|].
  inversion Fx; inversion Fy; inversion Fz; subst.
  destruct (IH by_ bz (length bx) eq_refl) as [IL IF]; try assumption; try lia.
  split; [simpl; now rewrite IL|].
  constructor; [|exact IF]. unfold veq; cbn [vx vy vz fst snd]. auto.
Qed.

(** The first and the last node of [np.linspace]. *)
Lemma linspace_ends (m M : Q) (n : nat) :
  (2 <= n)%nat ->
  nth 0 (linspace m M n) 0 == m /\ last (linspace m M n) 0 = M.
Proof.
  intros Hn. destruct n as [|[|k]]; try lia.
  unfold linspace. split.
  - cbn [seq map app nth]. unfold Qnat. simpl inject_Z.
    assert (E : inject_Z 0 == 0) by reflexivity. rewrite E. ring.
  - apply last_last.
Qed.

End InterpFacts.

Module PolicyFacts.
Import Discrete DiscreteFacts.

(** A column with one distinct value has its minimum at its maximum. *)
Lemma one_value_flat (col : list Q) (m M : Q) :
  length (np_unique col) = 1%nat ->
  np_min col = Ok m -> np_max col = Ok M -> m == M.
Proof.
  intros Hlen Hm HM.
  destruct (SourceFacts.np_unique_spec col) as [_ [_ Hin]].
  destruct (np_unique col) as [|a [|b u]]; simpl in Hlen; try lia.
  apply SourceFacts.np_min_bounds in Hm. apply SourceFacts.np_max_bounds in HM.
  destruct Hm as [_ [x [Hx Ex]]], HM as [_ [y [Hy Ey]]].
  destruct (Hin x Hx) as [x' [[<- | []] Ex']].
  destruct (Hin y Hy) as [y' [[<- | []] Ey']].
  lra.
Qed.

Lemma np_unique_nonempty (col : list Q) :
  col <> [] -> (1 <= length (np_unique col))%nat.
Proof.
  intros Hne. destruct col as [|a col]; [congruence|].
  destruct (SourceFacts.np_unique_spec (a :: col)) as [_ [_ Hin]].
  destruct (Hin a (or_introl eq_refl)) as [b [Hb _]].
  destruct (np_unique (a :: col)); [contradiction | simpl; lia].
Qed.

(** The grid of a column starts at its minimum and ends at its maximum. *)
Lemma axis_grid_ends (col G : list Q) (m M : Q) :
  axis_grid col = Ok G -> np_min col = Ok m -> np_max col = Ok M ->
  (1 <= length G)%nat /\ nth 0 G 0 == m /\ last G 0 == M.
Proof.
  intros HG Hm HM. unfold axis_grid in HG. rewrite Hm, HM in HG.
  cbn [bind] in HG. injection HG as <-.
  assert (Hne : col <> []) by (intros ->; discriminate).
  pose proof (np_unique_nonempty Hne) as Hn.
  rewrite linspace_length. split; [exact Hn|].
  destruct (Nat.eq_dec (length (np_unique col)) 1) as [L1 | L1].
  - pose proof (one_value_flat col L1 Hm HM) as E.
    rewrite L1. cbn [linspace nth last]. split; [ring | rewrite <- E; ring].
  - destruct (@InterpFacts.linspace_ends m M (length (np_unique col))) as [E0 E1];
      [lia|].
    split; [exact E0 | rewrite E1; reflexivity].
Qed.

Lemma outside_axis (G : list Q) (m M q : Q) :
  nth 0 G 0 == m -> last G 0 == M -> q < m \/ M < q ->
  out_of_bounds_axis G q = true.
Proof.
  intros E0 E1 Hq. unfold out_of_bounds_axis.
  destruct Hq as [Hq | Hq].
  - destruct (Qle_bool (nth 0 G 0) q) eqn:E; [|reflexivity].
    apply Qle_bool_iff in E. lra.
  - destruct (Qle_bool q (last G 0)) eqn:E; [|apply orb_true_r].
    apply Qle_bool_iff in E. lra.
Qed.

Lemma interp_point_outside (f : RegularGridInterpolator) (p : vec) :
  out_of_bounds f p = true ->
  match bounds_error f with
  | Some true =>
      interp_point f p
      = Raise (ValueError "One of the requested xi is out of bounds")
  | _ => forall v0, fill_value f = Some v0 -> interp_point f p = Ok v0
  end.
Proof.
  intros Hoob. unfold interp_point. rewrite Hoob.
  destruct (find_index (gridX f) (vx p)) as [ix yx].
  destruct (find_index (gridY f) (vy p)) as [iy yy].
  destruct (find_index (gridZ f) (vz p)) as [iz yz].
  destruct (bounds_error f) as [[|]|]; try reflexivity;
    intros v0 ->; reflexivity.
Qed.

End PolicyFacts.

(** X12.  A table whose rows all carry the same field [c], with at least
    two distinct values on each axis, gives a source that returns [c] at
    every query point, inside the table's box or outside it, when it is
    built unrotated with the extrapolating policy ([bounds_error] not
    [True], no [fill_value]): one row of the result for each point. *)
Theorem getB_uniform_field :
  forall (rot : vec -> Q -> vec -> vec)
         (data : list Row) (be : option bool) (pos ax : vec)
         (d : Discrete.DiscreteSourceBox) (c : vec) (P : list vec),
    Discrete.__init__ data be None pos 0 ax = Ok d ->
    be <> Some true ->
    (2 <= length (Discrete.np_unique (map rx data)))%nat ->
    (2 <= length (Discrete.np_unique (map ry data)))%nat ->
    (2 <= length (Discrete.np_unique (map rz data)))%nat ->
    Forall (fun r => veq (row_B r) c) data ->
    exists a,
      snd (Discrete.getB rot d P) = Ok a
      /\ length (Aggregate.ndarray_rows a) = length P
      /\ Forall (fun v => veq v c) (Aggregate.ndarray_rows a).
Proof.
  intros rot data be pos ax d c P Hinit Hbe Lx Ly Lz Hc.
  apply SourceFacts.init_inv in Hinit.
  destruct Hinit as [mx [Mx [my [My [mz [Mz [f [_ [_ [_ [_ [_ [_ [Hf ->]]]]]]]]]]]]]].
  apply SourceFacts.interpolate_data_inv in Hf.
  destruct Hf as [X [Y [Z [-> [_ [_ [_ [EX [EY [EZ HL]]]]]]]]]].
  rewrite SourceFacts.unique_sorted_column in EX, EY, EZ.
  assert (Hcol : forall g : Row -> Q, forall k : vec -> Q,
             (forall r, veq (row_B r) c -> g r == k c) ->
             Forall (fun v => v == k c) (map g (Discrete.sort_values data))).
  { intros g k Hg. apply Forall_forall. intros v Hv.
    apply in_map_iff in Hv. destruct Hv as [r [<- Hr]]. apply Hg.
    rewrite Forall_forall in Hc. apply Hc.
    eapply Permutation_in; [apply DiscreteFacts.sort_values_perm | exact Hr]. }
  unfold Discrete.getB, Discrete.call_interpFunc.
  cbn [snd Discrete.interpFunc Discrete._center Discrete.position Discrete.angle].
  set (P' := map _ P).
  assert (HP' : length P' = length P) by (unfold P'; apply length_map).
  destruct (@InterpFacts.mapM_interp_const
              (mkRGI X Y Z (map rBx (Discrete.sort_values data)) be None)
              (vx c) P') as [bx [Ebx [Lbx Fbx]]].
  { intros p _. apply InterpFacts.interp_point_const; cbn; try lia.
    - now rewrite length_map.
    - apply (Hcol rBx vx). intros r [H _]. exact H.
    - right. split; [exact Hbe | reflexivity]. }
  destruct (@InterpFacts.mapM_interp_const
              (mkRGI X Y Z (map rBy (Discrete.sort_values data)) be None)
              (vy c) P') as [by_ [Eby [Lby Fby]]].
  { intros p _. apply InterpFacts.interp_point_const; cbn; try lia.
    - now rewrite length_map.
    - apply (Hcol rBy vy). intros r [_ [H _]]. exact H.
    - right. split; [exact Hbe | reflexivity]. }
  destruct (@InterpFacts.mapM_interp_const
              (mkRGI X Y Z (map rBz (Discrete.sort_values data)) be None)
              (vz c) P') as [bz [Ebz [Lbz Fbz]]].
  { intros p _. apply InterpFacts.interp_point_const; cbn; try lia.
    - now rewrite length_map.
    - apply (Hcol rBz vz). intros r [_ [_ H]]. exact H.
    - right. split; [exact Hbe | reflexivity]. }
  rewrite Ebx, Eby, Ebz. cbn [bind].
  destruct (@InterpFacts.combine3_const bx by_ bz c (length P')) as [HBl HBc];
    try assumption.
  set (B := map _ (combine (combine bx by_) bz)) in *.
  replace (negb (Qeq_bool 0 0)) with false by reflexivity.
  rewrite HP' in HBl.
  destruct B as [|b [|b' B]]; eexists; (split; [reflexivity|]);
    cbn [Aggregate.ndarray_rows]; split; assumption.
Qed.

(** Witness of X12: the field [(0,0,1)] on the unit cube, queried inside
    and far outside. *)
Lemma getB_uniform_field_witness :
  let data := grid_table [0; 1] [0; 1] [0; 1] (fun _ _ _ => (0, 0, 1)) in
  exists a,
    snd (Discrete.getB Examples.no_rotation (Examples.box data (1, 0, 0) 0)
           [(1 # 2, 1 # 3, 1 # 4); (10, 10, 10)]) = Ok a
    /\ length (Aggregate.ndarray_rows a) = 2%nat
    /\ Forall (fun v => veq v (0, 0, 1)) (Aggregate.ndarray_rows a).
Proof.
  intros data.
  apply (@getB_uniform_field Examples.no_rotation data None (1, 0, 0) (0, 0, 1)
           (Examples.box data (1, 0, 0) 0) (0, 0, 1)
           [(1 # 2, 1 # 3, 1 # 4); (10, 10, 10)]).
  - vm_compute. reflexivity.
  - discriminate.
  - vm_compute. lia.
  - vm_compute. lia.
  - vm_compute. lia.
  - repeat constructor.
Defined.

(** X13.  Queries outside the table.  [getB] leaves in the query array
    the local coordinates at which it interpolates.  When the local
    coordinate of a query point lies, on some axis, below every
    coordinate of the table or above every one, a source built with
    [bounds_error=True] raises [ValueError], and a source built otherwise
    with a [fill_value] returns the fill value in the three components,
    rotated when the source has an angle. *)
Theorem getB_outside_the_box :
  forall (rot : vec -> Q -> vec -> vec)
         (data : list Row) (be : option bool) (fv : option Q)
         (pos : vec) (ang : Q) (ax : vec)
         (d : Discrete.DiscreteSourceBox) (p q : vec),
    Discrete.__init__ data be fv pos ang ax = Ok d ->
    fst (Discrete.getB rot d [p]) = [q] ->
    (let outside := fun (c : vec -> Q) (g : Row -> Q) =>
                      (forall r, In r data -> c q < g r)
                      \/ (forall r, In r data -> g r < c q) in
     outside vx rx \/ outside vy ry \/ outside vz rz) ->
    match be with
    | Some true =>
        snd (Discrete.getB rot d [p])
        = Raise (ValueError "One of the requested xi is out of bounds")
    | _ =>
        forall v0, fv = Some v0 ->
          snd (Discrete.getB rot d [p])
          = Ok (if Qeq_bool ang 0 then Single (v0, v0, v0)
                else Batch [rot (v0, v0, v0) ang ax])
    end.
Proof.
  intros rot data be fv pos ang ax d p q Hinit Hq Hout.
  apply SourceFacts.init_inv in Hinit.
  destruct Hinit as [mx [Mx [my [My [mz [Mz [f
    [Hmx [HMx [Hmy [HMy [Hmz [HMz [Hf ->]]]]]]]]]]]]]].
  apply SourceFacts.interpolate_data_inv in Hf.
  destruct Hf as [X [Y [Z [-> [GX [GY [GZ _]]]]]]].
  destruct (PolicyFacts.axis_grid_ends _ GX Hmx HMx) as [_ [X0 X1]].
  destruct (PolicyFacts.axis_grid_ends _ GY Hmy HMy) as [_ [Y0 Y1]].
  destruct (PolicyFacts.axis_grid_ends _ GZ Hmz HMz) as [_ [Z0 Z1]].
  apply SourceFacts.np_min_bounds in Hmx, Hmy, Hmz.
  apply SourceFacts.np_max_bounds in HMx, HMy, HMz.
  destruct Hmx as [_ [ax0 [Ix Ex]]], HMx as [_ [bx0 [Jx Fx]]].
  destruct Hmy as [_ [ay0 [Iy Ey]]], HMy as [_ [by0 [Jy Fy]]].
  destruct Hmz as [_ [az0 [Iz Ez]]], HMz as [_ [bz0 [Jz Fz]]].
  assert (Hrow : forall (g : Row -> Q) x,
             In x (map g (Discrete.sort_values data)) ->
             exists r, In r data /\ g r = x).
  { intros g x Hx.
    apply (proj1 (SourceFacts.in_sorted_column g data x)) in Hx.
    apply in_map_iff in Hx. destruct Hx as [r [E Hr]]. now exists r. }
  unfold Discrete.getB in Hq. cbn [fst map] in Hq. injection Hq as Hq.
  cbn [Discrete._center Discrete.position] in Hq.
  assert (Hoob : forall vals,
             Discrete.out_of_bounds (mkRGI X Y Z vals be fv) q = true).
  { intros vals. unfold Discrete.out_of_bounds. cbn [gridX gridY gridZ].
    cbn zeta in Hout. destruct Hout as [Ho | [Ho | Ho]].
    - rewrite (@PolicyFacts.outside_axis X mx Mx); [reflexivity | assumption..|].
      destruct (Hrow rx ax0 Ix) as [r1 [R1 E1]].
      destruct (Hrow rx bx0 Jx) as [r2 [R2 E2]].
      rewrite <- E1 in *. rewrite <- E2 in *.
      destruct Ho as [Ho | Ho];
        [left; specialize (Ho r1 R1) | right; specialize (Ho r2 R2)]; lra.
    - rewrite (@PolicyFacts.outside_axis Y my My);
        [now rewrite orb_true_r | assumption..|].
      destruct (Hrow ry ay0 Iy) as [r1 [R1 E1]].
      destruct (Hrow ry by0 Jy) as [r2 [R2 E2]].
      rewrite <- E1 in *. rewrite <- E2 in *.
      destruct Ho as [Ho | Ho];
        [left; specialize (Ho r1 R1) | right; specialize (Ho r2 R2)]; lra.
    - rewrite (@PolicyFacts.outside_axis Z mz Mz);
        [now rewrite orb_true_r | assumption..|].
      destruct (Hrow rz az0 Iz) as [r1 [R1 E1]].
      destruct (Hrow rz bz0 Jz) as [r2 [R2 E2]].
      rewrite <- E1 in *. rewrite <- E2 in *.
      destruct Ho as [Ho | Ho];
        [left; specialize (Ho r1 R1) | right; specialize (Ho r2 R2)]; lra. }
  assert (Hres : forall vals,
             match be with
             | Some true =>
                 Discrete.interp_point (mkRGI X Y Z vals be fv) q
                 = Raise (ValueError "One of the requested xi is out of bounds")
             | _ => forall v0, fv = Some v0 ->
                               Discrete.interp_point (mkRGI X Y Z vals be fv) q = Ok v0
             end).
  { intros vals.
    apply (@PolicyFacts.interp_point_outside (mkRGI X Y Z vals be fv) q).
    apply Hoob. }
  unfold Discrete.getB, Discrete.call_interpFunc.
  cbn [snd Discrete.interpFunc Discrete._center Discrete.position Discrete.angle
       Discrete.axis map mapM].
  rewrite Hq.
  pose proof (Hres (map rBx (Discrete.sort_values data))) as Hbx.
  pose proof (Hres (map rBy (Discrete.sort_values data))) as Hby.
  pose proof (Hres (map rBz (Discrete.sort_values data))) as Hbz.
  destruct be as [[|]|].
  - rewrite Hbx. reflexivity.
  - intros v0 Hv. rewrite (Hbx v0 Hv), (Hby v0 Hv), (Hbz v0 Hv).
    cbn. destruct (Qeq_bool ang 0); reflexivity.
  - intros v0 Hv. rewrite (Hbx v0 Hv), (Hby v0 Hv), (Hbz v0 Hv).
    cbn. destruct (Qeq_bool ang 0); reflexivity.
Qed.

(** Witness of X13: the unit cube built with [bounds_error=True] and
    queried at [x = 5], which is the local coordinate 5 too. *)
Lemma getB_outside_the_box_witness :
  snd (Discrete.getB Examples.no_rotation
         (match Discrete.__init__ Examples.table_Bx (Some true) None
                  (0, 0, 0) 0 (0, 0, 1) with
          | Ok d => d
          | Raise _ => Examples.no_box
          end) [(5, 0, 0)])
  = Raise (ValueError "One of the requested xi is out of bounds").
Proof.
  apply (@getB_outside_the_box Examples.no_rotation Examples.table_Bx
           (Some true) None (0, 0, 0) 0 (0, 0, 1) _ (5, 0, 0)
           (5 + ((1 # 2) * (1 + 0) - ((1 # 2) * (1 + 0) + 0)),
            0 + ((1 # 2) * (1 + 0) - ((1 # 2) * (1 + 0) + 0)),
            0 + ((1 # 2) * (1 + 0) - ((1 # 2) * (1 + 0) + 0)))).
  - vm_compute. reflexivity.
  - vm_compute. reflexivity.
  - left. right. intros r Hr. vm_compute in Hr.
    repeat (destruct Hr as [<- | Hr]; [vm_compute; reflexivity|]).
    contradiction.
Defined.

(** ** Placement of the source *)

Module SourcePlacementFacts.
Import Discrete DiscreteFacts.

Lemma searchsorted_proper (G : list Q) (q q' : Q) :
  q == q' -> searchsorted G q = searchsorted G q'.
Proof.
  intros Hq. induction G as [|g G IH]; [reflexivity|].
  simpl. destruct (Qlt_le_dec g q), (Qlt_le_dec g q'); try lra; congruence.
Qed.

Lemma find_index_proper (G : list Q) (q q' : Q) :
  q == q' ->
  fst (find_index G q) = fst (find_index G q')
  /\ snd (find_index G q) == snd (find_index G q').
Proof.
  intros Hq. unfold find_index. cbn [fst snd].
  rewrite (searchsorted_proper G Hq). split; [reflexivity|].
  now rewrite Hq.
Qed.

Lemma out_of_bounds_axis_proper (G : list Q) (q q' : Q) :
  q == q' -> out_of_bounds_axis G q = out_of_bounds_axis G q'.
Proof. intros Hq. unfold out_of_bounds_axis. now rewrite Hq. Qed.

Lemma evaluate_linear_proper (f : RegularGridInterpolator) (ix iy iz : Z)
      (yx yy yz yx' yy' yz' : Q) :
  yx == yx' -> yy == yy' -> yz == yz' ->
  evaluate_linear f ix iy iz yx yy yz == evaluate_linear f ix iy iz yx' yy' yz'.
Proof.
  intros Hx Hy Hz. unfold evaluate_linear, edges.
  cbn [flat_map map app fold_left].
  rewrite !edge_weight_lo, !edge_weight_hi. now rewrite Hx, Hy, Hz.
Qed.

(** Two outcomes that agree: the same error, or equal numbers. *)
Definition agree (r r' : result Q) : Prop :=
  match r, r' with
  | Ok v, Ok v' => v == v'
  | Raise e, Raise e' => e = e'
  | _, _ => False
  end.

Lemma interp_point_proper (f : RegularGridInterpolator) (p p' : vec) :
  veq p p' -> agree (interp_point f p) (interp_point f p').
Proof.
  intros [Hx [Hy Hz]]. unfold interp_point, out_of_bounds.
  rewrite (out_of_bounds_axis_proper (gridX f) Hx),
    (out_of_bounds_axis_proper (gridY f) Hy),
    (out_of_bounds_axis_proper (gridZ f) Hz).
  destruct (find_index_proper (gridX f) Hx) as [Ix Yx].
  destruct (find_index_proper (gridY f) Hy) as [Iy Yy].
  destruct (find_index_proper (gridZ f) Hz) as [Iz Yz].
  destruct (find_index (gridX f) (vx p)) as [ix yx].
  destruct (find_index (gridY f) (vy p)) as [iy yy].
  destruct (find_index (gridZ f) (vz p)) as [iz yz].
  destruct (find_index (gridX f) (vx p')) as [ix' yx'].
  destruct (find_index (gridY f) (vy p')) as [iy' yy'].
  destruct (find_index (gridZ f) (vz p')) as [iz' yz'].
  cbn [fst snd] in *. subst ix' iy' iz'.
  pose proof (@evaluate_linear_proper f ix iy iz yx yy yz yx' yy' yz' Yx Yy Yz) as Hv.
  destruct (out_of_bounds_axis (gridX f) (vx p')
            || out_of_bounds_axis (gridY f) (vy p')
            || out_of_bounds_axis (gridZ f) (vz p'));
    destruct (bounds_error f) as [[|]|]; destruct (fill_value f) as [fv|];
    simpl; try reflexivity; exact Hv.
Qed.

Definition agree_list (r r' : result (list Q)) : Prop :=
  match r, r' with
  | Ok l, Ok l' => Forall2 Qeq l l'
  | Raise e, Raise e' => e = e'
  | _, _ => False
  end.

Lemma mapM_interp_proper (f : RegularGridInterpolator) (P P' : list vec) :
  Forall2 veq P P' ->
  agree_list (mapM (interp_point f) P) (mapM (interp_point f) P').
Proof.
  induction 1 as [|p p' P P' Hp _ IH]; [constructor|].
  simpl. pose proof (interp_point_proper f Hp) as H.
  destruct (interp_point f p) as [v|e], (interp_point f p') as [v'|e'];
    simpl in H; try contradiction; [|exact H].
  destruct (mapM (interp_point f) P) as [l|e], (mapM (interp_point f) P') as [l'|e'];
    simpl in IH; try contradiction; simpl; [|exact IH].
  now constructor.
Qed.

(** Two results of [getB] that agree: the same error, or the same shape
    and equal numbers. *)
Definition agree_ndarray (r r' : result ndarray) : Prop :=
  match r, r' with
  | Ok a, Ok a' =>
      shape a = shape a'
      /\ Forall2 veq (Aggregate.ndarray_rows a) (Aggregate.ndarray_rows a')
  | Raise e, Raise e' => e = e'
  | _, _ => False
  end.

Lemma combine3_agree (bx by_ bz bx' by' bz' : list Q) :
  Forall2 Qeq bx bx' -> Forall2 Qeq by_ by' -> Forall2 Qeq bz bz' ->
  Forall2 veq
    (map (fun t : Q * Q * Q => (fst (fst t), snd (fst t), snd t))
         (combine (combine bx by_) bz))
    (map (fun t : Q * Q * Q => (fst (fst t), snd (fst t), snd t))
         (combine (combine bx' by') bz')).
Proof.
  intros Hx. revert by_ by' bz bz'.
  induction Hx as [|x x' bx bx' Ex _ IH]; intros by_ by' bz bz' Hy Hz;
    [constructor|].
  destruct Hy as [|y y' by_ by' Ey Hy]; [constructor|].
  destruct Hz as [|z z' bz bz' Ez Hz]; [constructor|].
  simpl. constructor; [|now apply IH].
  unfold veq; cbn [vx vy vz fst snd]. auto.
Qed.

Lemma call_interpFunc_proper (d : DiscreteSourceBox) (P P' : list vec) :
  Forall2 veq P P' ->
  match call_interpFunc d P, call_interpFunc d P' with
  | Ok B, Ok B' => Forall2 veq B B'
  | Raise e, Raise e' => e = e'
  | _, _ => False
  end.
Proof.
  intros HP. unfold call_interpFunc.
  destruct (interpFunc d) as [[BX BY] BZ].
  pose proof (mapM_interp_proper BX HP) as Hx.
  pose proof (mapM_interp_proper BY HP) as Hy.
  pose proof (mapM_interp_proper BZ HP) as Hz.
  destruct (mapM (interp_point BX) P) as [bx|], (mapM (interp_point BX) P') as [bx'|];
    simpl in Hx; try contradiction; [|exact Hx].
  destruct (mapM (interp_point BY) P) as [by_|], (mapM (interp_point BY) P') as [by'|];
    simpl in Hy; try contradiction; [|exact Hy].
  destruct (mapM (interp_point BZ) P) as [bz|], (mapM (interp_point BZ) P') as [bz'|];
    simpl in Hz; try contradiction; [|exact Hz].
  simpl. now apply combine3_agree.
Qed.

End SourcePlacementFacts.

(** X14.  The placement of a source enters its field through the local
    coordinates only.  An unrotated source built with the offset [pos]
    gives at the points [P] what the source built from the same table
    with no offset gives at the local coordinates that the first [getB]
    leaves in the query array: the same error, or a result of the same
    shape with the same numbers.  As numbers, these local coordinates are
    the points [P - pos]. *)
Theorem getB_follows_placement :
  forall (rot : vec -> Q -> vec -> vec)
         (data : list Row) (be : option bool) (fv : option Q)
         (pos ax : vec) (d : Discrete.DiscreteSourceBox) (P : list vec),
    Discrete.__init__ data be fv pos 0 ax = Ok d ->
    exists d0,
      Discrete.__init__ data be fv (0, 0, 0) 0 ax = Ok d0
      /\ SourcePlacementFacts.agree_ndarray
           (snd (Discrete.getB rot d P))
           (snd (Discrete.getB rot d0 (fst (Discrete.getB rot d P))))
      /\ Forall2 veq (fst (Discrete.getB rot d P)) (map (fun p => vsub p pos) P).
Proof.
  intros rot data be fv pos ax d P H.
  apply SourceFacts.init_inv in H.
  destruct H as [mx [Mx [my [My [mz [Mz [f
    [Hmx [HMx [Hmy [HMy [Hmz [HMz [Hf ->]]]]]]]]]]]]]].
  unfold Discrete.__init__. rewrite Hmx, HMx, Hmy, HMy, Hmz, HMz, Hf.
  cbn [bind]. eexists. split; [reflexivity|].
  unfold Discrete.getB.
  cbn [fst snd Discrete._center Discrete.position Discrete.angle Discrete.axis].
  replace (negb (Qeq_bool 0 0)) with false by reflexivity.
  set (c := ((1 # 2) * (Mx + mx), (1 # 2) * (My + my), (1 # 2) * (Mz + mz))).
  split.
  2: { clear. induction P as [|[[x y] z] P IH]; simpl; constructor; [|exact IH].
       destruct c as [[c1 c2] c3], pos as [[a b] e].
       unfold veq, vadd, vsub, vx, vy, vz; cbn [fst snd]. repeat split; ring. }
  set (d1 := Discrete.mkDiscreteSourceBox _ c (vadd c pos) _ _ _ _ _).
  set (d2 := Discrete.mkDiscreteSourceBox _ c (vadd c (0, 0, 0)) _ _ _ _ _).
  set (P1 := map (fun p => vadd p (vsub c (vadd c pos))) P).
  assert (HP : Forall2 veq P1
                 (map (fun p => vadd p (vsub c (vadd c (0, 0, 0)))) P1)).
  { clear. induction P1 as [|[[x y] z] P1 IH]; simpl; constructor; [|exact IH].
    destruct c as [[c1 c2] c3].
    unfold veq, vadd, vsub, vx, vy, vz; cbn [fst snd]. repeat split; ring. }
  pose proof (SourcePlacementFacts.call_interpFunc_proper d1 HP) as HB.
  assert (E : Discrete.call_interpFunc d2 = Discrete.call_interpFunc d1)
    by reflexivity.
  rewrite E.
  destruct (Discrete.call_interpFunc d1 P1) as [B|e],
           (Discrete.call_interpFunc d1 (map _ P1)) as [B'|e'];
    try contradiction; [|exact HB].
  cbn [bind SourcePlacementFacts.agree_ndarray].
  destruct HB as [|b b' B B' Hb HB]; [split; [reflexivity | constructor]|].
  destruct HB as [|b2 b2' B B' Hb2 HB].
  - split; [reflexivity|]. cbn. constructor; [exact Hb | constructor].
  - split.
    + cbn. f_equal. f_equal. f_equal. apply (Forall2_length HB).
    + cbn. repeat (constructor; try assumption).
Qed.

(** Witness of X14: the unit cube with the field [(x,0,0)], placed at
    (1,0,0) and queried at two points. *)
Lemma getB_follows_placement_witness :
  let d := Examples.box Examples.table_Bx (1, 0, 0) 0 in
  let P := [(1, 0, 0); (3 # 2, 1, 1)] in
  exists d0,
    Discrete.__init__ Examples.table_Bx None None (0, 0, 0) 0 (0, 0, 1) = Ok d0
    /\ SourcePlacementFacts.agree_ndarray
         (snd (Discrete.getB Examples.no_rotation d P))
         (snd (Discrete.getB Examples.no_rotation d0
                 (fst (Discrete.getB Examples.no_rotation d P))))
    /\ Forall2 veq (fst (Discrete.getB Examples.no_rotation d P))
         (map (fun p => vsub p (1, 0, 0)) P).
Proof.
  intros d P.
  apply (@getB_follows_placement Examples.no_rotation Examples.table_Bx
           None None (1, 0, 0) (0, 0, 1)).
  vm_compute. reflexivity.
Defined.

(** ** The downsampled table *)

Module DownsampleFacts.
Import Downsample.

Definition step (seen : list Q) (a : Q) : list Q :=
  if existsb (Qeq_bool a) seen then seen else seen ++ [a].

Lemma fold_step_prefix (col : list Q) : forall seen,
  exists ext, fold_left step col seen = seen ++ ext.
Proof.
  induction col as [|a col IH]; intros seen.
  - exists []. now rewrite app_nil_r.
  - simpl. unfold step at 2. destruct (existsb (Qeq_bool a) seen).
    + apply IH.
    + destruct (IH (seen ++ [a])) as [ext E]. exists ([a] ++ ext).
      now rewrite E, <- app_assoc.
Qed.

Lemma fold_step_keeps (col : list Q) (v : Q) : forall seen,
  existsb (Qeq_bool v) seen = true ->
  existsb (Qeq_bool v) (fold_left step col seen) = true.
Proof.
  intros seen H. destruct (fold_step_prefix col seen) as [ext ->].
  rewrite existsb_app, H. reflexivity.
Qed.

Lemma fold_step_complete (col : list Q) (v : Q) : forall seen,
  In v col -> existsb (Qeq_bool v) (fold_left step col seen) = true.
Proof.
  induction col as [|a col IH]; intros seen Hv; [contradiction|].
  simpl. destruct Hv as [<- | Hv]; [|now apply IH].
  apply fold_step_keeps. unfold step.
  destruct (existsb (Qeq_bool a) seen) eqn:E; [exact E|].
  rewrite existsb_app. simpl. rewrite Qeq_bool_refl. apply orb_true_r.
Qed.

(** Every entry of a column is one of its distinct values. *)
Lemma pd_unique_complete (col : list Q) (v : Q) :
  In v col -> isin (pd_unique col) v = true.
Proof. apply fold_step_complete. Qed.

Lemma pd_unique_head (a : Q) (col : list Q) :
  exists ext, pd_unique (a :: col) = a :: ext.
Proof.
  unfold pd_unique. simpl.
  destruct (fold_step_prefix col [a]) as [ext E]. exists ext. exact E.
Qed.

Lemma stride_one (u : list Q) : stride 1 u = u.
Proof.
  unfold stride. replace (length u + 1 - 1)%nat with (length u) by lia.
  rewrite Nat.div_1_r.
  apply nth_ext with (d := 0) (d' := 0).
  - now rewrite length_map, length_seq.
  - intros n Hn. rewrite length_map, length_seq in Hn.
    rewrite DiscreteFacts.nth_map_seq by exact Hn.
    now rewrite Nat.add_0_l, Nat.mul_1_r.
Qed.

Lemma stride_head (dsf : nat) (a : Q) (u : list Q) :
  (1 <= dsf)%nat -> exists rest, stride dsf (a :: u) = a :: rest.
Proof.
  intros Hd. unfold stride.
  assert (H : (1 <= (length (a :: u) + dsf - 1) / dsf)%nat).
  { apply Nat.div_le_lower_bound; simpl; lia. }
  destruct ((length (a :: u) + dsf - 1) / dsf)%nat as [|m]; [lia|].
  simpl. eexists. reflexivity.
Qed.

Lemma stride_length (dsf : nat) (u : list Q) :
  length (stride dsf u) = ((length u + dsf - 1) / dsf)%nat.
Proof. unfold stride. now rewrite length_map, length_seq. Qed.

Lemma selected_head (a : Q) (col : list Q) (N : Z) :
  exists rest, selected (a :: col) N = a :: rest.
Proof.
  unfold selected. destruct (pd_unique_head a col) as [ext ->].
  apply stride_head. destruct (_ <? 1)%nat eqn:E; [lia|].
  apply Nat.ltb_ge in E. exact E.
Qed.

End DownsampleFacts.


(** X15.  [get_downsampled_array] keeps every row, in order, when on
    each axis the number of distinct values is less than twice [N] ([N]
    counted as 1 when it is below 1): with the constructor's [N = 5], a
    table with at most nine distinct values per axis is not reduced. *)
Theorem downsampling_keeps_small_tables :
  forall (np_sqrt : Q -> Q) (df : list Row) (N : Z),
    (Z.of_nat (length (Downsample.pd_unique (map rx df))) < 2 * Z.max 1 N)%Z ->
    (Z.of_nat (length (Downsample.pd_unique (map ry df))) < 2 * Z.max 1 N)%Z ->
    (Z.of_nat (length (Downsample.pd_unique (map rz df))) < 2 * Z.max 1 N)%Z ->
    Downsample.get_downsampled_array np_sqrt df N
    = map (Downsample.magnitude_row np_sqrt) df.
Proof.
  intros np_sqrt df N Hx Hy Hz. unfold Downsample.get_downsampled_array.
  set (N' := if (N <? 1)%Z then 1%Z else N).
  assert (HN : N' = Z.max 1 N).
  { unfold N'. destruct (N <? 1)%Z eqn:E; [apply Z.ltb_lt in E | apply Z.ltb_ge in E];
      lia. }
  assert (Hsel : forall c : Row -> Q,
             (Z.of_nat (length (Downsample.pd_unique (map c df))) < 2 * Z.max 1 N)%Z ->
             Downsample.selected (map c df) N' = Downsample.pd_unique (map c df)).
  { intros c H. unfold Downsample.selected.
    set (u := Downsample.pd_unique (map c df)) in *.
    assert (Hd : (length u / Z.to_nat N' < 2)%nat).
    { apply Nat.Div0.div_lt_upper_bound; lia. }
    destruct (length u / Z.to_nat N')%nat as [|[|k]]; try lia;
      cbn [Nat.ltb Nat.leb]; apply DownsampleFacts.stride_one. }
  rewrite (Hsel rx Hx), (Hsel ry Hy), (Hsel rz Hz).
  f_equal. apply forallb_filter_id. apply forallb_forall. intros r Hr.
  rewrite !DownsampleFacts.pd_unique_complete by (now apply in_map).
  reflexivity.
Qed.

(** Witness of X15: the unit cube, two values per axis, with [N = 5]. *)
Lemma downsampling_keeps_small_tables_witness :
  Downsample.get_downsampled_array (fun x => x) Examples.table_Bx 5
  = map (Downsample.magnitude_row (fun x => x)) Examples.table_Bx.
Proof.
  apply (@downsampling_keeps_small_tables (fun x => x) Examples.table_Bx 5).
  - vm_compute. reflexivity.
  - vm_compute. reflexivity.
  - vm_compute. reflexivity.
Defined.

(** X16.  Downsampling never empties a table: whatever [N], the first
    row of a non-empty table is the first row of the result. *)
Theorem downsampling_keeps_first_row :
  forall (np_sqrt : Q -> Q) (r : Row) (df : list Row) (N : Z),
  exists rest,
    Downsample.get_downsampled_array np_sqrt (r :: df) N
    = Downsample.magnitude_row np_sqrt r :: rest.
Proof.
  intros np_sqrt r df N. unfold Downsample.get_downsampled_array.
  set (N' := if (N <? 1)%Z then 1%Z else N).
  cbn [map].
  destruct (DownsampleFacts.selected_head (rx r) (map rx df) N') as [sx ->].
  destruct (DownsampleFacts.selected_head (ry r) (map ry df) N') as [sy ->].
  destruct (DownsampleFacts.selected_head (rz r) (map rz df) N') as [sz ->].
  cbn [filter]. unfold Downsample.isin at 1 2 3. cbn [existsb].
  rewrite !Qeq_bool_refl. cbn [orb andb map]. eexists. reflexivity.
Qed.

(** X17.  The number of values that the downsampling selects on an axis
    with [n] distinct values, for [N >= 1]: all [n] of them when [n < N],
    and otherwise at least [N] and at most [2N - 1], not the [N] of the
    docstring. *)
Theorem downsampling_selection_count :
  forall (col : list Q) (N : Z),
    (1 <= N)%Z ->
    let n := length (Downsample.pd_unique col) in
    let kept := length (Downsample.selected col N) in
    ((Z.of_nat n < N)%Z -> kept = n)
    /\ ((N <= Z.of_nat n)%Z -> (N <= Z.of_nat kept <= 2 * N - 1)%Z).
Proof.
  intros col N HN n kept. subst kept. unfold Downsample.selected. fold n.
  rewrite DownsampleFacts.stride_length. fold n.
  set (N' := Z.to_nat N). assert (HN' : (1 <= N')%nat) by lia.
  assert (EN : N = Z.of_nat N') by lia. rewrite EN. clearbody N'. clear EN HN N.
  split; intros Hn.
  - assert (Hlt : (n < N')%nat) by lia.
    rewrite (Nat.div_small n N' Hlt). cbn [Nat.ltb Nat.leb].
    replace (n + 1 - 1)%nat with n by lia. apply Nat.div_1_r.
  - assert (Hge : (N' <= n)%nat) by lia.
    set (k := (n / N')%nat).
    assert (Hk1 : (1 <= k)%nat) by (apply Nat.div_le_lower_bound; lia).
    assert (Hlo : (N' * k <= n)%nat) by (apply Nat.Div0.mul_div_le; lia).
    assert (Hhi : (n < N' * S k)%nat) by (apply Nat.mul_succ_div_gt; lia).
    destruct (k <? 1)%nat eqn:E; [apply Nat.ltb_lt in E; lia|].
    assert (L : (N' <= (n + k - 1) / k)%nat)
      by (apply Nat.div_le_lower_bound; nia).
    assert (U : ((n + k - 1) / k < 2 * N')%nat)
      by (apply Nat.Div0.div_lt_upper_bound; nia).
    lia.
Qed.

(** Witness of X17: nine distinct values and [N = 5] keep all nine. *)
Lemma downsampling_selection_count_witness :
  let col := map (fun i => inject_Z (Z.of_nat i)) (seq 0 9) in
  let n := length (Downsample.pd_unique col) in
  let kept := length (Downsample.selected col 5) in
  ((Z.of_nat n < 5)%Z -> kept = n)
  /\ ((5 <= Z.of_nat n)%Z -> (5 <= Z.of_nat kept <= 2 * 5 - 1)%Z).
Proof.
  intros col.
  apply (@downsampling_selection_count col 5). lia.
Defined.

(** ** The surface sensor between updates *)

Module SurfaceFacts.

Lemma update_forgets_state
      (rotV : list vec -> list Q -> list vec -> list vec -> list vec)
      (s s' : SurfaceSensor) (p : vec) (a : Q) (x : vec) (d : dim_arg) (n : Nelem_arg) :
  Surface.update rotV s (Some p) (Some a) (Some x) (Some d) (Some n)
  = Surface.update rotV s' (Some p) (Some a) (Some x) (Some d) (Some n).
Proof. reflexivity. Qed.

End SurfaceFacts.

(** X18.  After any successful [update], an [update] with no argument,
    which every read of [positions] runs, changes nothing: the position,
    angle, axis, extent, grid shape and the three sample arrays are those
    that the first [update] left. *)
Theorem update_without_arguments_is_stable :
  forall (rotV : list vec -> list Q -> list vec -> list vec -> list vec)
         (self s1 : SurfaceSensor)
         (pos : option vec) (ang : option Q) (ax : option vec)
         (dim : option dim_arg) (Ne : option Nelem_arg),
    Surface.update rotV self pos ang ax dim Ne = Ok s1 ->
    Surface.update rotV s1 None None None None None = Ok s1
    /\ Surface.positions rotV s1 = Ok (_positions s1).
Proof.
  intros rotV self s1 pos ang ax dim Ne H.
  assert (E : Surface.update rotV s1 None None None None None = Ok s1).
  { unfold Surface.update in H.
    destruct (match Ne with
              | Some n => Surface.Nelem_pair n
              | None => Ok (_Nelem self)
              end) as [[n1 n2]|e]; [|discriminate].
    cbn [bind fst snd] in H. injection H as <-.
    unfold Surface.update.
    cbn [ss_rcs _dimension _Nelem Surface.or_else position angle axis bind fst snd].
    destruct (Nat.eqb n1 1 || Nat.eqb n2 1) eqn:D; cbn [fst snd]; rewrite ?D;
      reflexivity. }
  split; [exact E|]. unfold Surface.positions. now rewrite E.
Qed.

(** Witness of X18: a 3 by 3 sensor. *)
Lemma update_without_arguments_is_stable_witness :
  let s1 := match Surface.__init__ Examples.no_rotationV (NelemPair 3 3)
                    (DimPair (1 # 5) (1 # 5)) (1, 2, 3) 30 (0, 0, 1) with
            | Ok s => s
            | Raise _ => mkSurfaceSensor (mkRCS vzero 0 vzero) (0, 0) (0%nat, 0%nat)
                                         [] [] []
            end in
  Surface.update Examples.no_rotationV s1 None None None None None = Ok s1
  /\ Surface.positions Examples.no_rotationV s1 = Ok (_positions s1).
Proof.
  intros s1.
  apply (@update_without_arguments_is_stable Examples.no_rotationV
           (mkSurfaceSensor (mkRCS (1, 2, 3) 30 (0, 0, 1)) (0, 0) (0%nat, 0%nat)
                            [] [] [])
           s1 None None None (Some (DimPair (1 # 5) (1 # 5))) (Some (NelemPair 3 3))).
  vm_compute. reflexivity.
Defined.

(** X19.  The extent of a surface sensor does not come back.  Once a grid
    shape with a dimension equal to 1 has set the extent to [(0,0)],
    giving the sensor another grid shape [(m1, m2)] without giving the
    extent again leaves the extent at [(0,0)]: the sensor then has
    [m1 * m2] samples, all at its position (for a rotation primitive that
    leaves points on their anchors there). *)
Theorem degenerate_extent_is_not_restored :
  forall (rotV : list vec -> list Q -> list vec -> list vec -> list vec)
         (n1 n2 m1 m2 : nat) (dim : dim_arg) (pos : vec) (ang : Q) (ax : vec),
    (forall POS ANG AXIS ANCHOR,
        length ANG = length POS -> length AXIS = length POS ->
        Forall2 veq POS ANCHOR ->
        Forall2 veq (rotV POS ANG AXIS ANCHOR) ANCHOR) ->
    n1 = 1%nat \/ n2 = 1%nat ->
    exists s1 s2,
      Surface.__init__ rotV (NelemPair n1 n2) dim pos ang ax = Ok s1
      /\ Surface.update rotV s1 None None None None (Some (NelemPair m1 m2)) = Ok s2
      /\ _Nelem s2 = (m1, m2)
      /\ _dimension s2 = (0, 0)
      /\ length (_positions s2) = (m1 * m2)%nat
      /\ Forall (fun p => veq p pos) (_positions s2).
Proof.
  intros rotV n1 n2 m1 m2 dim pos ang ax Hrot Hone.
  unfold Surface.__init__, Surface.update.
  cbn [Surface.Nelem_pair bind fst snd ss_rcs _dimension _Nelem Surface.or_else
       position angle axis].
  assert (Hdeg : Nat.eqb n1 1 || Nat.eqb n2 1 = true).
  { destruct Hone as [-> | ->]; simpl; [reflexivity | apply orb_true_r]. }
  rewrite Hdeg. cbn [fst snd].
  do 2 eexists. split; [reflexivity|]. split; [reflexivity|].
  cbn [_Nelem _dimension _positions ss_rcs position angle axis Surface.or_else
       Surface.Nelem_pair bind fst snd].
  replace (if Nat.eqb m1 1 || Nat.eqb m2 1 then (0, 0) else (0, 0)) with (0, 0)
    by (destruct (Nat.eqb m1 1 || Nat.eqb m2 1); reflexivity).
  cbn [fst snd].
  set (POS := mgrid3 (- 0 / 2) (0 / 2) m1 (- 0 / 2) (0 / 2) m2).
  assert (HPOS : Forall2 veq POS (repeat (0, 0, 0) (length POS)))
    by (apply Forall2_repeat_r, mgrid3_zero).
  apply (Hrot POS (repeat ang (length POS)) (repeat ax (length POS)))
    in HPOS; [| apply repeat_length | apply repeat_length].
  apply Forall2_repeat_inv in HPOS. destruct HPOS as [HF Hlen].
  repeat split.
  - rewrite length_map, Hlen. apply mgrid3_length.
  - apply Forall_map. eapply Forall_impl; [|exact HF].
    intros [[px py] pz] [Hx [Hy Hz]]. destruct pos as [[ox oy] oz].
    unfold veq, vadd, vx, vy, vz in *. cbn [fst snd] in *.
    repeat split; lra.
Qed.

(** Witness of X19: a sensor built with the shape [(1,5)] and the extent
    [(1/5, 1/5)], then given the shape [(3,3)]. *)
Lemma degenerate_extent_is_not_restored_witness :
  exists s1 s2,
    Surface.__init__ Examples.no_rotationV (NelemPair 1 5) (DimPair (1 # 5) (1 # 5))
                     (1, 2, 3) 30 (0, 0, 1) = Ok s1
    /\ Surface.update Examples.no_rotationV s1 None None None None
                      (Some (NelemPair 3 3)) = Ok s2
    /\ _Nelem s2 = (3%nat, 3%nat)
    /\ _dimension s2 = (0, 0)
    /\ length (_positions s2) = (3 * 3)%nat
    /\ Forall (fun p => veq p (1, 2, 3)) (_positions s2).
Proof.
  apply (@degenerate_extent_is_not_restored Examples.no_rotationV
           1%nat 5%nat 3%nat 3%nat (DimPair (1 # 5) (1 # 5)) (1, 2, 3) 30 (0, 0, 1)).
  - intros POS ANG AXIS ANCHOR _ _ H. exact H.
  - left. reflexivity.
Defined.

(** X20.  A scalar element count [N] is split into the grid shape
    [(n1, n2)] with [n1] the integer square root of [N] and [n2] the
    quotient of [N] by [n1]: the shape has at most [N] elements and fewer
    than [n1] of them are lost, [n2] is [n1], [n1 + 1] or [n1 + 2], and
    [n1 = 1], the degenerate shape, exactly for [N] from 1 to 3.  The
    count 0 raises [ZeroDivisionError]. *)
Theorem scalar_Nelem_split :
  forall (N : nat),
    match Surface.Nelem_pair (NelemScalar N) with
    | Ok (n1, n2) =>
        (1 <= N)%nat
        /\ (n1 * n1 <= N < (n1 + 1) * (n1 + 1))%nat
        /\ (n1 * n2 <= N < n1 * n2 + n1)%nat
        /\ (n1 <= n2 <= n1 + 2)%nat
        /\ (n1 = 1%nat <-> (N <= 3)%nat)
    | Raise e => N = 0%nat /\ e = ZeroDivisionError
    end.
Proof.
  intros N. unfold Surface.Nelem_pair.
  pose proof (Nat.sqrt_specif N) as Hs. cbn zeta in Hs.
  destruct (Nat.eqb (Nat.sqrt N) 0) eqn:E.
  - apply Nat.eqb_eq in E. rewrite E in Hs. split; [lia | reflexivity].
  - apply Nat.eqb_neq in E. set (n1 := Nat.sqrt N) in *.
    pose proof (Nat.div_mod_eq N n1) as Hd.
    pose proof (Nat.mod_upper_bound N n1 E) as Hm.
    set (n2 := (N / n1)%nat) in *.
    assert (H1 : (1 <= N)%nat) by nia.
    assert (H2 : (n1 * n1 <= N < (n1 + 1) * (n1 + 1))%nat) by lia.
    assert (H3 : (n1 * n2 <= N < n1 * n2 + n1)%nat) by lia.
    assert (H4 : (n1 <= n2 <= n1 + 2)%nat) by nia.
    repeat split; try lia; try nia.
Qed.

(** ** The field seen by a surface sensor *)


(** X21.  [SurfaceSensor.getBarray] always succeeds in reading the
    sample positions, and with at least one source it always warns: the
    sensor's angle is a scalar, so the [ANG] warning is given for the [n]
    samples, and the sensor's axis is one row, so the [AXIS] warning is
    given too unless the sensor has exactly one sample.  A result, when
    there is one, has one row per sample. *)
Theorem surface_getBarray_always_warns :
  forall (rot : vec -> Q -> vec -> vec)
         (rotV : list vec -> list Q -> list vec -> list vec -> list vec)
         (self : SurfaceSensor) (s : source) (sources : list source),
  exists s1 r,
    Surface.update rotV self None None None None None = Ok s1
    /\ SurfaceField.getBarray rot rotV self (s :: sources)
       = Ok (s1,
             (ANG_length_warning (length (_positions s1))
                :: (if Nat.eqb (length (_positions s1)) 1 then []
                    else [AXIS_length_warning 1 (length (_positions s1))]),
              r))
    /\ (forall a, r = Ok a -> lead a = [length (_positions s1)]).
Proof.
  intros rot rotV self s sources.
  unfold SurfaceField.getBarray.
  destruct (Surface.update rotV self None None None None None) as [s1|e] eqn:E;
    [|discriminate E].
  cbn [bind]. exists s1.
  unfold Aggregate.getBarray. cbn [length Nat.ltb Nat.leb rows lead].
  set (n := length (_positions s1)).
  destruct n as [|[|n]]; cbn [Nat.eqb negb app].
  - eexists. split; [reflexivity|]. split; [reflexivity|].
    cbn [bind]. intros a Ha.
    destruct (snd (Aggregate.getB_each rot (s :: sources) (_positions s1)))
      as [bs|]; [|discriminate].
    cbn [bind] in Ha. destruct (Aggregate.stack_sum bs); [|discriminate].
    cbn [bind] in Ha. injection Ha as <-. reflexivity.
  - eexists. split; [reflexivity|]. split; [reflexivity|].
    cbn [bind]. intros a Ha.
    destruct (snd (Aggregate.getB_each rot (s :: sources) (_positions s1)))
      as [bs|]; [|discriminate].
    cbn [bind] in Ha. destruct (Aggregate.stack_sum bs); [|discriminate].
    cbn [bind] in Ha. injection Ha as <-. reflexivity.
  - eexists. split; [reflexivity|]. split; [reflexivity|].
    cbn [bind]. intros a Ha.
    destruct (snd (Aggregate.getB_each rot (s :: sources) (_positions s1)))
      as [bs|]; [|discriminate].
    cbn [bind] in Ha. destruct (Aggregate.stack_sum bs); [|discriminate].
    cbn [bind] in Ha. injection Ha as <-. reflexivity.
Qed.

(** ** Re-initialising a circular array *)

Module CircularFacts.

Section Place.
Variable rotV : list vec -> list Q -> list vec -> list vec -> list vec.
Variable np_cos : Q -> Q.
Variable np_sin : Q -> Q.

(** What a successful run of the loop of [initialize] leaves: the same
    objects, all surface sensors, each set at its angle on the circle. *)
Lemma place_spec radius dim Ne : forall sens theta sens',
  length theta = length sens ->
  Circular.place rotV np_cos np_sin radius dim Ne sens theta = Ok sens' ->
  map object_id sens' = map object_id sens
  /\ Forall (fun s => is_surface s = true) sens
  /\ map sensor_rcs sens'
     = map (fun t => Some (mkRCS (radius * np_cos t, radius * np_sin t, 0)
                                 0 (0, 0, 1))) theta.
Proof.
  induction sens as [|s sens IH]; intros theta sens' Hlen H.
  - destruct theta; [|discriminate]. simpl in H. injection H as <-.
    repeat split. constructor.
  - destruct theta as [|t theta]; [discriminate|].
    simpl in H. destruct s as [ | i ss | | | ]; try discriminate.
    destruct (Surface.update rotV ss _ _ _ _ _) as [ss'|] eqn:E; [|discriminate].
    cbn [bind] in H.
    destruct (Circular.place rotV np_cos np_sin radius dim Ne sens theta)
      as [rest|] eqn:F; [|discriminate].
    cbn [bind] in H. injection H as <-.
    destruct (IH theta rest) as [I1 [I2 I3]]; [simpl in Hlen; lia | exact F |].
    repeat split.
    + simpl. now rewrite I1.
    + constructor; [reflexivity | exact I2].
    + simpl. rewrite I3. f_equal.
      unfold Surface.update in E.
      destruct (Surface.Nelem_pair Ne) as [Ne'|]; [|discriminate].
      cbn [bind] in E. injection E as <-. reflexivity.
Qed.

(** Running the loop again on its own result changes nothing. *)
Lemma place_again radius dim Ne : forall sens theta sens',
  Circular.place rotV np_cos np_sin radius dim Ne sens theta = Ok sens' ->
  Circular.place rotV np_cos np_sin radius dim Ne sens' theta = Ok sens'.
Proof.
  induction sens as [|s sens IH]; intros theta sens' H.
  - simpl in H. injection H as <-. reflexivity.
  - destruct theta as [|t theta].
    + simpl in H. injection H as <-. reflexivity.
    + cbn [Circular.place] in H. destruct s as [ | i ss | | | ]; try discriminate.
      destruct (Surface.update rotV ss _ _ _ _ _) as [ss'|] eqn:E; [|discriminate].
      cbn [bind] in H.
      destruct (Circular.place rotV np_cos np_sin radius dim Ne sens theta)
        as [rest|] eqn:F; [|discriminate].
      cbn [bind] in H. injection H as <-.
      cbn [Circular.place].
      assert (E' : Surface.update rotV ss'
                     (Some (radius * np_cos t, radius * np_sin t, 0))
                     (Some 0) (Some (0, 0, 1)) (Some dim) (Some Ne) = Ok ss')
        by (rewrite <- E; apply SurfaceFacts.update_forgets_state).
      rewrite E'. cbn [bind].
      rewrite (IH theta rest F). reflexivity.
Qed.

End Place.

Lemma theta_of_length (np_deg2rad : Q -> Q) (start : Q) (n : nat) :
  length (Circular.theta_of np_deg2rad start n) = n.
Proof.
  unfold Circular.theta_of. rewrite removelast_map. fold (degrees start n).
  now rewrite length_map, degrees_length.
Qed.

End CircularFacts.

(** X22.  A successful [initialize] has found a surface sensor in every
    child, and keeps the children objects in their order: none is added,
    dropped or replaced;  the collection's own coordinate system is
    untouched and the four parameters in use are stored. *)
Theorem initialize_keeps_the_children :
  forall (rotV : list vec -> list Q -> list vec -> list vec -> list vec)
         (np_deg2rad np_cos np_sin : Q -> Q)
         (self self' : CircularSensorArray)
         (radius start : option Q) (dim : option dim_arg) (Ne : option Nelem_arg),
    Circular.initialize rotV np_deg2rad np_cos np_sin self radius start dim Ne
    = Ok self' ->
    Forall (fun s => is_surface s = true) (sensors (collection self))
    /\ map object_id (sensors (collection self'))
       = map object_id (sensors (collection self))
    /\ rcs (collection self') = rcs (collection self)
    /\ Rs self' = Surface.or_else radius (Rs self)
    /\ start_angle self' = Surface.or_else start (start_angle self)
    /\ elem_dim self' = Surface.or_else dim (elem_dim self)
    /\ Nelem self' = Surface.or_else Ne (Nelem self).
Proof.
  intros rotV np_deg2rad np_cos np_sin self self' radius start dim Ne H.
  unfold Circular.initialize in H.
  destruct (Circular.place _ _ _ _ _ _ _ _) as [sens'|] eqn:E; [|discriminate].
  cbn [bind] in H. injection H as <-.
  apply CircularFacts.place_spec in E; [|apply CircularFacts.theta_of_length].
  destruct E as [E1 [E2 _]].
  cbn [collection sensors rcs Rs start_angle elem_dim Nelem].
  repeat split; assumption.
Qed.

(** Witness of X22: an array of four sensors re-initialised with the
    radius 3. *)
Lemma initialize_keeps_the_children_witness :
  let self := match Circular.__init__ Examples.no_rotationV (fun x => x)
                      (fun _ => 1) (fun _ => 0) 10 2 (DimPair (1 # 5) (1 # 5))
                      (NelemPair 3 3) 4 0 with
              | Ok c => c
              | Raise _ =>
                  mkCircularSensorArray
                    (mkSensorCollection (mkRCS vzero 0 vzero) []) 0
                    (DimScalar 0) (NelemScalar 0) 0
              end in
  let self' := match Circular.initialize Examples.no_rotationV (fun x => x)
                       (fun _ => 1) (fun _ => 0) self (Some 3) None None None with
               | Ok c => c
               | Raise _ => self
               end in
  Forall (fun s => is_surface s = true) (sensors (collection self))
  /\ map object_id (sensors (collection self'))
     = map object_id (sensors (collection self))
  /\ rcs (collection self') = rcs (collection self)
  /\ Rs self' = Surface.or_else (Some 3) (Rs self)
  /\ start_angle self' = Surface.or_else None (start_angle self)
  /\ elem_dim self' = Surface.or_else None (elem_dim self)
  /\ Nelem self' = Surface.or_else None (Nelem self).
Proof.
  intros self self'.
  apply (@initialize_keeps_the_children Examples.no_rotationV (fun x => x)
           (fun _ => 1) (fun _ => 0) self self' (Some 3) None None None).
  vm_compute. reflexivity.
Defined.

(** X23.  After a successful [initialize], calling it again with
    [Rs=None] and the other arguments left out succeeds and changes
    nothing: the stored parameters are the ones just used, and each child
    is set again to the state it has. *)
Theorem initialize_again_changes_nothing :
  forall (rotV : list vec -> list Q -> list vec -> list vec -> list vec)
         (np_deg2rad np_cos np_sin : Q -> Q)
         (self self' : CircularSensorArray)
         (radius start : option Q) (dim : option dim_arg) (Ne : option Nelem_arg),
    Circular.initialize rotV np_deg2rad np_cos np_sin self radius start dim Ne
    = Ok self' ->
    Circular.initialize rotV np_deg2rad np_cos np_sin self' None None None None
    = Ok self'.
Proof.
  intros rotV np_deg2rad np_cos np_sin self self' radius start dim Ne H.
  unfold Circular.initialize in H.
  destruct (Circular.place _ _ _ _ _ _ _ _) as [sens'|] eqn:E; [|discriminate].
  cbn [bind] in H. injection H as <-.
  pose proof (CircularFacts.place_spec _ _ _ _ _ _ _ _
                (CircularFacts.theta_of_length np_deg2rad _ _) E) as [E1 _].
  apply (f_equal (@length _)) in E1. rewrite !length_map in E1.
  unfold Circular.initialize.
  cbn [collection sensors rcs Rs start_angle elem_dim Nelem Surface.or_else].
  rewrite E1. rewrite (CircularFacts.place_again _ _ _ _ _ _ _ _ E).
  reflexivity.
Qed.

(** Witness of X23: an array of four sensors. *)
Lemma initialize_again_changes_nothing_witness :
  let self := mkCircularSensorArray
                (mkSensorCollection (mkRCS (0, 0, 0) 0 (0, 0, 1))
                   [SurfSensor 1 (mkSurfaceSensor (mkRCS (0, 0, 0) 0 (0, 0, 1))
                                    (0, 0) (0%nat, 0%nat) [] [] [])])
                0 (DimPair (1 # 5) (1 # 5)) (NelemPair 3 3) 2 in
  let self' := match Circular.initialize Examples.no_rotationV (fun x => x)
                       (fun _ => 1) (fun _ => 0) self (Some 3) None None None with
               | Ok c => c
               | Raise _ => self
               end in
  Circular.initialize Examples.no_rotationV (fun x => x) (fun _ => 1) (fun _ => 0)
                      self' None None None None
  = Ok self'.
Proof.
  intros self self'.
  apply (@initialize_again_changes_nothing Examples.no_rotationV (fun x => x)
           (fun _ => 1) (fun _ => 0) self self' (Some 3) None None None).
  vm_compute. reflexivity.
Defined.

(** X24.  With [cos^2 + sin^2 = 1], a successful [initialize] leaves
    every child on the circle of radius [Rs] around the origin in the
    plane [z = 0], with angle 0 and axis [(0,0,1)]. *)
Theorem initialize_puts_children_on_the_circle :
  forall (rotV : list vec -> list Q -> list vec -> list vec -> list vec)
         (np_deg2rad np_cos np_sin : Q -> Q)
         (self self' : CircularSensorArray)
         (radius start : option Q) (dim : option dim_arg) (Ne : option Nelem_arg),
    (forall t, np_cos t * np_cos t + np_sin t * np_sin t == 1) ->
    Circular.initialize rotV np_deg2rad np_cos np_sin self radius start dim Ne
    = Ok self' ->
    Forall (fun s =>
              exists r, sensor_rcs s = Some r
                        /\ vx (position r) * vx (position r)
                           + vy (position r) * vy (position r)
                           == Rs self' * Rs self'
                        /\ vz (position r) == 0
                        /\ angle r = 0 /\ axis r = (0, 0, 1))
           (sensors (collection self')).
Proof.
  intros rotV np_deg2rad np_cos np_sin self self' radius start dim Ne Htrig H.
  unfold Circular.initialize in H.
  destruct (Circular.place _ _ _ _ _ _ _ _) as [sens'|] eqn:E; [|discriminate].
  cbn [bind] in H. injection H as <-.
  apply CircularFacts.place_spec in E; [|apply CircularFacts.theta_of_length].
  destruct E as [_ [_ E]]. cbn [collection sensors Rs].
  set (R := Surface.or_else radius (Rs self)) in *.
  revert E. generalize (Circular.theta_of np_deg2rad
                          (Surface.or_else start (start_angle self))
                          (length (sensors (collection self)))).
  induction sens' as [|s sens' IH]; intros theta E; [constructor|].
  destruct theta as [|t theta]; [discriminate|].
  simpl in E. injection E as Es E.
  constructor; [|exact (IH theta E)].
  eexists. split; [exact Es|]. cbn [position angle axis vx vy vz fst snd].
  repeat split; try reflexivity.
  specialize (Htrig t). nra.
Qed.

(** Witness of X24: a trigonometry that sends every angle to the point
    [(1, 0)] of the unit circle. *)
Lemma initialize_puts_children_on_the_circle_witness :
  let self := mkCircularSensorArray
                (mkSensorCollection (mkRCS (0, 0, 0) 0 (0, 0, 1))
                   [SurfSensor 1 (mkSurfaceSensor (mkRCS (0, 0, 0) 0 (0, 0, 1))
                                    (0, 0) (0%nat, 0%nat) [] [] [])])
                0 (DimPair (1 # 5) (1 # 5)) (NelemPair 3 3) 2 in
  let self' := match Circular.initialize Examples.no_rotationV (fun x => x)
                       (fun _ => 1) (fun _ => 0) self (Some 3) None None None with
               | Ok c => c
               | Raise _ => self
               end in
  Forall (fun s =>
            exists r, sensor_rcs s = Some r
                      /\ vx (position r) * vx (position r)
                         + vy (position r) * vy (position r)
                         == Rs self' * Rs self'
                      /\ vz (position r) == 0
                      /\ angle r = 0 /\ axis r = (0, 0, 1))
         (sensors (collection self')).
Proof.
  intros self self'.
  apply (@initialize_puts_children_on_the_circle Examples.no_rotationV (fun x => x)
           (fun _ => 1) (fun _ => 0) self self' (Some 3) None None None).
  - intros t. reflexivity.
  - vm_compute. reflexivity.
Defined.

(** ** The shape of the result of [getB] *)

Module ShapeFacts.
Import Discrete.

Lemma mapM_length {A B : Type} (f : A -> result B) (l : list A) : forall l',
  mapM f l = Ok l' -> length l' = length l.
Proof.
  induction l as [|a l IH]; intros l' H.
  - injection H as <-. reflexivity.
  - simpl in H. destruct (f a) as [b|]; [|discriminate]. cbn [bind] in H.
    destruct (mapM f l) as [bs|]; [|discriminate]. cbn [bind] in H.
    injection H as <-. simpl. now rewrite (IH bs eq_refl).
Qed.

Lemma call_interpFunc_length (d : DiscreteSourceBox) (P B : list vec) :
  call_interpFunc d P = Ok B -> length B = length P.
Proof.
  unfold call_interpFunc. destruct (interpFunc d) as [[BX BY] BZ].
  destruct (mapM (interp_point BX) P) as [bx|] eqn:Ex; [|discriminate].
  destruct (mapM (interp_point BY) P) as [by_|] eqn:Ey; [|discriminate].
  destruct (mapM (interp_point BZ) P) as [bz|] eqn:Ez; [|discriminate].
  cbn [bind]. intros H. injection H as <-.
  apply mapM_length in Ex, Ey, Ez.
  rewrite length_map, !length_combine. lia.
Qed.

End ShapeFacts.

(** X25.  The shape of what [getB] returns for [n] query points, when
    it returns.  An unrotated source gives a vector of shape [(3,)] for
    [n = 1] and a batch of shape [(n, 3)] otherwise; a rotated source
    gives a batch of shape [(n, 3)], also for [n = 1], and the array of
    shape [(0,)] for [n = 0]. *)
Theorem getB_result_shape :
  forall (rot : vec -> Q -> vec -> vec) (d : Discrete.DiscreteSourceBox)
         (P : list vec) (a : ndarray),
    snd (Discrete.getB rot d P) = Ok a ->
    shape a = if Qeq_bool (Discrete.angle d) 0
              then (if Nat.eqb (length P) 1 then [3%nat] else [length P; 3%nat])
              else (if Nat.eqb (length P) 0 then [0%nat] else [length P; 3%nat]).
Proof.
  intros rot d P a H. unfold Discrete.getB in H. cbn [snd] in H.
  set (P' := map _ P) in H.
  destruct (Discrete.call_interpFunc d P') as [B|] eqn:E; [|discriminate].
  apply ShapeFacts.call_interpFunc_length in E.
  unfold P' in E. rewrite length_map in E. rewrite <- E.
  cbn [bind] in H.
  destruct (Qeq_bool (Discrete.angle d) 0); cbn [negb] in *.
  - destruct B as [|b [|b' B]]; injection H as <-; reflexivity.
  - destruct B as [|b B]; injection H as <-; [reflexivity|].
    cbn [shape length Nat.eqb]. now rewrite length_map.
Qed.

(** Witness of X25: the unit cube turned by 90 degrees, at one point. *)
Lemma getB_result_shape_witness :
  let d := Examples.box Examples.table_Bx (0, 0, 0) 90 in
  let P := [(1, 0, 0)] in
  let a := match snd (Discrete.getB Examples.no_rotation d P) with
           | Ok a => a
           | Raise _ => Batch []
           end in
  shape a = if Qeq_bool (Discrete.angle d) 0
            then (if Nat.eqb (length P) 1 then [3%nat] else [length P; 3%nat])
            else (if Nat.eqb (length P) 0 then [0%nat] else [length P; 3%nat]).
Proof.
  intros d P a.
  apply (@getB_result_shape Examples.no_rotation d P a).
  vm_compute. reflexivity.
Defined.

(** ** Interpolation inside the box *)

Module RangeFacts.
Import Discrete DiscreteFacts.

(** [searchsorted] counts the nodes below [q]. *)
Lemma searchsorted_count (G : list Q) (q : Q) :
  (searchsorted G q <= length G)%nat
  /\ (forall j, (j < searchsorted G q)%nat -> nth j G 0 < q)
  /\ ((searchsorted G q < length G)%nat -> q <= nth (searchsorted G q) G 0).
Proof.
  induction G as [|g G [I1 [I2 I3]]]; simpl.
  - repeat split; [lia | intros j Hj; lia | intros H; lia].
  - destruct (Qlt_le_dec g q) as [Hg | Hg].
    + repeat split; [lia | |].
      * intros [|j] Hj; [exact Hg | apply I2; lia].
      * intros H. apply I3. lia.
    + repeat split; [lia | intros j Hj; lia | intros _; exact Hg].
Qed.

(** Inside the grid, the normalised distance to the lower end of the
    cell that [find_index] returns lies between 0 and 1. *)
Lemma find_index_bracket (G : list Q) (q : Q) :
  increasing G -> (1 <= length G)%nat ->
  nth 0 G 0 <= q -> q <= nth (length G - 1) G 0 ->
  0 <= snd (find_index G q) <= 1.
Proof.
  intros HG Hlen H0 H1.
  destruct (Nat.eq_dec (length G) 1) as [L1 | L1].
  { destruct (find_index_one_node G q L1) as [_ E]. rewrite E. lra. }
  destruct (searchsorted_count G q) as [C1 [C2 C3]].
  rewrite find_index_snd, find_index_fst.
  set (k := searchsorted G q) in *.
  set (i := Nat.min (Nat.pred k) (length G - 2)).
  replace (Z.min (Z.max (Z.of_nat k - 1) 0) (Z.of_nat (length G) - 2))
    with (Z.of_nat i) by (unfold i; lia).
  rewrite !py_nth_nonneg by lia.
  replace (Z.to_nat (Z.of_nat i + 1)) with (S i) by lia.
  replace (Z.to_nat (Z.of_nat i)) with i by lia.
  assert (Hi : (S i < length G)%nat) by (unfold i; lia).
  assert (Hlt : nth i G 0 < nth (S i) G 0) by (apply HG; lia).
  assert (Hlo : nth i G 0 <= q).
  { destruct k as [|k].
    - replace i with 0%nat by (unfold i; simpl; lia). exact H0.
    - assert (Hk : nth k G 0 < q) by (apply C2; lia).
      cbn [Nat.pred] in i.
      destruct (Nat.le_gt_cases k (length G - 2)) as [L | L].
      + replace i with k by (unfold i; lia). lra.
      + replace i with (length G - 2)%nat by (unfold i; lia).
        assert (nth (length G - 2) G 0 < nth k G 0) by (apply HG; lia). lra. }
  assert (Hhi : q <= nth (S i) G 0).
  { destruct k as [|k].
    - replace i with 0%nat in * by (unfold i; simpl; lia).
      assert (q <= nth 0 G 0) by (apply C3; lia). lra.
    - assert (Hk : nth k G 0 < q) by (apply C2; lia).
      cbn [Nat.pred] in i.
      assert (Hk' : (S k < length G)%nat).
      { destruct (Nat.lt_ge_cases (S k) (length G)) as [L | L]; [exact L|].
        assert (k = (length G - 1)%nat) by lia. subst k. lra. }
      replace i with k by (unfold i; lia). apply C3. exact Hk'. }
  split.
  - apply Qle_shift_div_l; lra.
  - apply Qle_shift_div_r; lra.
Qed.

(** Linear interpolation between [a] and [b]. *)
Definition lerp (a b t : Q) : Q := a * (1 - t) + b * t.

Lemma lerp_bound (lo hi a b t : Q) :
  lo <= a <= hi -> lo <= b <= hi -> 0 <= t <= 1 -> lo <= lerp a b t <= hi.
Proof.
  intros Ha Hb Ht. unfold lerp.
  assert (0 <= (a - lo) * (1 - t)) by (apply Qmult_le_0_compat; lra).
  assert (0 <= (b - lo) * t) by (apply Qmult_le_0_compat; lra).
  assert (0 <= (hi - a) * (1 - t)) by (apply Qmult_le_0_compat; lra).
  assert (0 <= (hi - b) * t) by (apply Qmult_le_0_compat; lra).
  split; lra.
Qed.

Lemma evaluate_linear_lerp (f : RegularGridInterpolator)
      (ix iy iz : Z) (yx yy yz : Q) :
  evaluate_linear f ix iy iz yx yy yz
  == lerp (lerp (lerp (value_at f (ix, iy, iz))
                      (value_at f (ix, iy, (iz + 1)%Z)) yz)
                (lerp (value_at f (ix, (iy + 1)%Z, iz))
                      (value_at f (ix, (iy + 1)%Z, (iz + 1)%Z)) yz)
                yy)
          (lerp (lerp (value_at f ((ix + 1)%Z, iy, iz))
                      (value_at f ((ix + 1)%Z, iy, (iz + 1)%Z)) yz)
                (lerp (value_at f ((ix + 1)%Z, (iy + 1)%Z, iz))
                      (value_at f ((ix + 1)%Z, (iy + 1)%Z, (iz + 1)%Z)) yz)
                yy)
          yx.
Proof.
  unfold evaluate_linear, edges, lerp.
  cbn [flat_map map app fold_left].
  rewrite !edge_weight_lo, !edge_weight_hi. ring.
Qed.

Lemma value_at_range (f : RegularGridInterpolator) (lo hi : Q) (a b k : Z) :
  Forall (fun v => lo <= v <= hi) (values f) ->
  length (values f)
  = (length (gridX f) * length (gridY f) * length (gridZ f))%nat ->
  (py_index (length (gridX f)) a < length (gridX f))%nat ->
  (py_index (length (gridY f)) b < length (gridY f))%nat ->
  (py_index (length (gridZ f)) k < length (gridZ f))%nat ->
  lo <= value_at f (a, b, k) <= hi.
Proof.
  intros HF HL Ha Hb Hk. unfold value_at.
  apply (@InterpFacts.nth_Forall (fun v => lo <= v <= hi)); [exact HF|].
  rewrite HL.
  set (nx := length (gridX f)) in *. set (ny := length (gridY f)) in *.
  set (nz := length (gridZ f)) in *.
  set (a' := py_index nx a) in *. set (b' := py_index ny b) in *.
  set (k' := py_index nz k) in *.
  assert (H1 : (a' * ny + b' + 1 <= nx * ny)%nat) by nia.
  assert (H2 : ((a' * ny + b' + 1) * nz <= nx * ny * nz)%nat)
    by (apply Nat.mul_le_mono_r; exact H1).
  lia.
Qed.

Lemma inside_axis (G : list Q) (q : Q) :
  G <> [] -> nth 0 G 0 <= q -> q <= nth (length G - 1) G 0 ->
  out_of_bounds_axis G q = false.
Proof.
  intros HG H0 H1. unfold out_of_bounds_axis. rewrite (last_nth HG).
  apply Qle_bool_iff in H0, H1. now rewrite H0, H1.
Qed.

(** Inside the grid the interpolated value stays within the range of the
    values at the nodes, under every policy. *)
Lemma interp_point_range (f : RegularGridInterpolator) (p : vec) (lo hi : Q) :
  increasing (gridX f) -> increasing (gridY f) -> increasing (gridZ f) ->
  (1 <= length (gridX f))%nat -> (1 <= length (gridY f))%nat ->
  (1 <= length (gridZ f))%nat ->
  length (values f)
  = (length (gridX f) * length (gridY f) * length (gridZ f))%nat ->
  Forall (fun v => lo <= v <= hi) (values f) ->
  nth 0 (gridX f) 0 <= vx p <= nth (length (gridX f) - 1) (gridX f) 0 ->
  nth 0 (gridY f) 0 <= vy p <= nth (length (gridY f) - 1) (gridY f) 0 ->
  nth 0 (gridZ f) 0 <= vz p <= nth (length (gridZ f) - 1) (gridZ f) 0 ->
  exists v, interp_point f p = Ok v /\ lo <= v <= hi.
Proof.
  intros HX HY HZ LX LY LZ HL HF [X0 X1] [Y0 Y1] [Z0 Z1].
  unfold interp_point.
  assert (Hoob : out_of_bounds f p = false).
  { unfold out_of_bounds.
    rewrite !inside_axis; try assumption; try reflexivity;
      intros E; rewrite E in *; simpl in *; lia. }
  rewrite Hoob.
  destruct (InterpFacts.find_index_cell (gridX f) (vx p) LX) as [Cx Cx'].
  destruct (InterpFacts.find_index_cell (gridY f) (vy p) LY) as [Cy Cy'].
  destruct (InterpFacts.find_index_cell (gridZ f) (vz p) LZ) as [Cz Cz'].
  destruct (find_index_bracket HX LX X0 X1) as [Yx0 Yx1].
  destruct (find_index_bracket HY LY Y0 Y1) as [Yy0 Yy1].
  destruct (find_index_bracket HZ LZ Z0 Z1) as [Yz0 Yz1].
  destruct (find_index (gridX f) (vx p)) as [ix yx].
  destruct (find_index (gridY f) (vy p)) as [iy yy].
  destruct (find_index (gridZ f) (vz p)) as [iz yz].
  cbn [fst snd] in *.
  assert (Hv : lo <= evaluate_linear f ix iy iz yx yy yz <= hi).
  { rewrite evaluate_linear_lerp.
    repeat apply lerp_bound; try (split; assumption);
      apply value_at_range; assumption. }
  destruct (bounds_error f) as [[|]|]; destruct (fill_value f) as [fv|];
    eexists; (split; [reflexivity | exact Hv]).
Qed.

(** [np.linspace] is increasing when its ends are. *)
Lemma linspace_increasing (m M : Q) (n : nat) :
  m < M -> increasing (linspace m M n).
Proof.
  intros HmM. destruct n as [|[|k]].
  - intros a b Hab. simpl in Hab. lia.
  - intros a b Hab. simpl in Hab. lia.
  - apply equally_spaced_increasing.
    assert (Hk : 0 < Qnat (S k)) by (apply (Qnat_lt (a := 0)); lia).
    exists m, ((M - m) / Qnat (S k)). split.
    + apply Qlt_shift_div_l; lra.
    + intros i Hi. rewrite linspace_length in Hi. unfold linspace.
      destruct (Nat.eq_dec i (S k)) as [-> | Hne].
      * rewrite app_nth2 by (rewrite length_map, length_seq; lia).
        rewrite length_map, length_seq, Nat.sub_diag. cbn [nth].
        field. lra.
      * rewrite app_nth1 by (rewrite length_map, length_seq; lia).
        rewrite nth_map_seq by lia. rewrite Nat.add_0_l. ring.
Qed.

(** A column with two distinct values has its minimum below its
    maximum. *)
Lemma two_values_spread (col : list Q) (m M : Q) :
  (2 <= length (np_unique col))%nat ->
  np_min col = Ok m -> np_max col = Ok M -> m < M.
Proof.
  intros Hlen Hm HM.
  destruct (SourceFacts.np_unique_spec col) as [HS [Hin _]].
  destruct (np_unique col) as [|a [|b u]]; simpl in Hlen; try lia.
  inversion HS as [|? ? _ Ha]; subst. inversion Ha as [|? ? Hab _]; subst.
  apply SourceFacts.np_min_bounds in Hm. apply SourceFacts.np_max_bounds in HM.
  destruct Hm as [Hm _], HM as [HM _].
  assert (m <= a) by (apply Hm, Hin; now left).
  assert (b <= M) by (apply HM, Hin; right; now left).
  lra.
Qed.

(** The grid of a column is increasing. *)
Lemma axis_grid_increasing (col G : list Q) :
  axis_grid col = Ok G -> increasing G.
Proof.
  intros HG. unfold axis_grid in HG.
  destruct (np_min col) as [m|] eqn:Hm; [|discriminate].
  destruct (np_max col) as [M|] eqn:HM; [|discriminate].
  cbn [bind] in HG. injection HG as <-.
  destruct (Nat.le_gt_cases 2 (length (np_unique col))) as [L | L].
  - apply linspace_increasing. now apply (@two_values_spread col).
  - intros a b Hab. rewrite linspace_length in Hab. lia.
Qed.

End RangeFacts.

(** X26.  Inside the table the interpolation does not overshoot.
    [getB] leaves in the query array the local coordinates at which it
    interpolates.  When the local coordinate of a query point lies, on
    every axis, between two coordinates of the table, an unrotated source
    returns a field under every out-of-bounds policy, and each component
    of it lies between two bounds whenever that component of every row of
    the table does. *)
Theorem getB_within_table_range :
  forall (rot : vec -> Q -> vec -> vec)
         (data : list Row) (be : option bool) (fv : option Q)
         (pos ax : vec) (d : Discrete.DiscreteSourceBox) (p q lo hi : vec),
    Discrete.__init__ data be fv pos 0 ax = Ok d ->
    fst (Discrete.getB rot d [p]) = [q] ->
    (let inside := fun (c : vec -> Q) (g : Row -> Q) =>
                     (exists r, In r data /\ g r <= c q)
                     /\ (exists r, In r data /\ c q <= g r) in
     inside vx rx /\ inside vy ry /\ inside vz rz) ->
    (forall r, In r data ->
               vx lo <= rBx r <= vx hi /\ vy lo <= rBy r <= vy hi
               /\ vz lo <= rBz r <= vz hi) ->
    exists b,
      snd (Discrete.getB rot d [p]) = Ok (Single b)
      /\ vx lo <= vx b <= vx hi /\ vy lo <= vy b <= vy hi
      /\ vz lo <= vz b <= vz hi.
Proof.
  intros rot data be fv pos ax d p q lo hi Hinit Hq Hin Hrange.
  apply SourceFacts.init_inv in Hinit.
  destruct Hinit as [mx [Mx [my [My [mz [Mz [f
    [Hmx [HMx [Hmy [HMy [Hmz [HMz [Hf ->]]]]]]]]]]]]]].
  apply SourceFacts.interpolate_data_inv in Hf.
  destruct Hf as [X [Y [Z [-> [GX [GY [GZ [_ [_ [_ HL]]]]]]]]]].
  destruct (PolicyFacts.axis_grid_ends _ GX Hmx HMx) as [LX [X0 X1]].
  destruct (PolicyFacts.axis_grid_ends _ GY Hmy HMy) as [LY [Y0 Y1]].
  destruct (PolicyFacts.axis_grid_ends _ GZ Hmz HMz) as [LZ [Z0 Z1]].
  pose proof (RangeFacts.axis_grid_increasing _ GX) as IX.
  pose proof (RangeFacts.axis_grid_increasing _ GY) as IY.
  pose proof (RangeFacts.axis_grid_increasing _ GZ) as IZ.
  assert (NX : X <> []) by (intros E; rewrite E in LX; simpl in LX; lia).
  assert (NY : Y <> []) by (intros E; rewrite E in LY; simpl in LY; lia).
  assert (NZ : Z <> []) by (intros E; rewrite E in LZ; simpl in LZ; lia).
  rewrite (DiscreteFacts.last_nth NX) in X1.
  rewrite (DiscreteFacts.last_nth NY) in Y1.
  rewrite (DiscreteFacts.last_nth NZ) in Z1.
  apply SourceFacts.np_min_bounds in Hmx, Hmy, Hmz.
  apply SourceFacts.np_max_bounds in HMx, HMy, HMz.
  destruct Hmx as [Lx _], HMx as [Ux _].
  destruct Hmy as [Ly _], HMy as [Uy _].
  destruct Hmz as [Lz _], HMz as [Uz _].
  assert (Hcolin : forall (g : Row -> Q) r, In r data ->
                     In (g r) (map g (Discrete.sort_values data))).
  { intros g r Hr. apply (proj2 (SourceFacts.in_sorted_column g data (g r))).
    now apply in_map. }
  cbn zeta in Hin.
  destruct Hin as [[[x1 [Rx1 Ex1]] [x2 [Rx2 Ex2]]]
                     [[[y1 [Ry1 Ey1]] [y2 [Ry2 Ey2]]]
                        [[z1 [Rz1 Ez1]] [z2 [Rz2 Ez2]]]]].
  pose proof (Lx _ (Hcolin rx x1 Rx1)). pose proof (Ux _ (Hcolin rx x2 Rx2)).
  pose proof (Ly _ (Hcolin ry y1 Ry1)). pose proof (Uy _ (Hcolin ry y2 Ry2)).
  pose proof (Lz _ (Hcolin rz z1 Rz1)). pose proof (Uz _ (Hcolin rz z2 Rz2)).
  unfold Discrete.getB in Hq. cbn [fst map] in Hq. injection Hq as Hq.
  cbn [Discrete._center Discrete.position] in Hq.
  assert (Hcol : forall (g : Row -> Q) (k : vec -> Q),
             (forall r, In r data -> k lo <= g r <= k hi) ->
             Forall (fun v => k lo <= v <= k hi)
                    (map g (Discrete.sort_values data))).
  { intros g k Hg. apply Forall_forall. intros v Hv.
    apply in_map_iff in Hv. destruct Hv as [r [<- Hr]]. apply Hg.
    eapply Permutation_in; [apply DiscreteFacts.sort_values_perm | exact Hr]. }
  assert (Hpt : forall (g : Row -> Q) (k : vec -> Q),
             (forall r, In r data -> k lo <= g r <= k hi) ->
             exists v,
               Discrete.interp_point
                 (mkRGI X Y Z (map g (Discrete.sort_values data)) be fv) q = Ok v
               /\ k lo <= v <= k hi).
  { intros g k Hg.
    apply RangeFacts.interp_point_range; cbn [gridX gridY gridZ values];
      try assumption.
    - now rewrite length_map.
    - now apply Hcol.
    - rewrite X0, X1. split; lra.
    - rewrite Y0, Y1. split; lra.
    - rewrite Z0, Z1. split; lra. }
  destruct (Hpt rBx vx) as [bx [Ebx Rbx]]; [intros r Hr; apply (Hrange r Hr)|].
  destruct (Hpt rBy vy) as [by_ [Eby Rby]]; [intros r Hr; apply (Hrange r Hr)|].
  destruct (Hpt rBz vz) as [bz [Ebz Rbz]]; [intros r Hr; apply (Hrange r Hr)|].
  unfold Discrete.getB, Discrete.call_interpFunc.
  cbn [snd Discrete.interpFunc Discrete._center Discrete.position Discrete.angle
       Discrete.axis map mapM].
  rewrite Hq, Ebx, Eby, Ebz.
  exists (bx, by_, bz). split; [reflexivity|].
  cbn [vx vy vz fst snd]. repeat split; tauto.
Qed.

(** Witness of X26: the unit cube with the field [(x,0,0)], placed at
    (1,0,0) and queried on its face [x = 2], the local coordinate 1. *)
Lemma getB_within_table_range_witness :
  exists b,
    snd (Discrete.getB Examples.no_rotation
           (Examples.box Examples.table_Bx (1, 0, 0) 0)
           [(2, 1 # 2, 1 # 2)]) = Ok (Single b)
    /\ vx (0, 0, 0) <= vx b <= vx (1, 0, 0)
    /\ vy (0, 0, 0) <= vy b <= vy (1, 0, 0)
    /\ vz (0, 0, 0) <= vz b <= vz (1, 0, 0).
Proof.
  apply (@getB_within_table_range Examples.no_rotation Examples.table_Bx
           None None (1, 0, 0) (0, 0, 1)
           (Examples.box Examples.table_Bx (1, 0, 0) 0)
           (2, 1 # 2, 1 # 2)
           (match fst (Discrete.getB Examples.no_rotation
                         (Examples.box Examples.table_Bx (1, 0, 0) 0)
                         [(2, 1 # 2, 1 # 2)]) with
            | q :: _ => q
            | [] => vzero
            end)
           (0, 0, 0) (1, 0, 0)).
  - vm_compute. reflexivity.
  - vm_compute. reflexivity.
  - cbn zeta. repeat split.
    + exists (mkRow 0 0 0 0 0 0). split; [vm_compute; tauto | vm_compute; discriminate].
    + exists (mkRow 1 1 1 1 0 0). split; [vm_compute; tauto | vm_compute; discriminate].
    + exists (mkRow 0 0 0 0 0 0). split; [vm_compute; tauto | vm_compute; discriminate].
    + exists (mkRow 1 1 1 1 0 0). split; [vm_compute; tauto | vm_compute; discriminate].
    + exists (mkRow 0 0 0 0 0 0). split; [vm_compute; tauto | vm_compute; discriminate].
    + exists (mkRow 1 1 1 1 0 0). split; [vm_compute; tauto | vm_compute; discriminate].
  - intros r Hr. vm_compute in Hr.
    repeat (destruct Hr as [<- | Hr]; [vm_compute; repeat split; discriminate|]).
    contradiction.
Defined.
